(** * git_map_branches: branch topology construction and rendering

    A shallow embedding of [depot_tools/git_map_branches.py]: the classes
    [OutputLine], [OutputManager] and [BranchMapper], with the git and
    code-review collaborators of [git_common] and [git_cl] taken as an
    explicit environment record.

    Python 2 byte strings are lists of characters; exceptions are the
    [Raise] results of a small error monad; the dictionaries the program
    iterates over or pops from are association lists in iteration order. *)

From Stdlib Require Import List Ascii String Arith Bool Lia NArith.
From Stdlib Require Import Permutation DecimalString.
Import ListNotations.

Open Scope string_scope.
Open Scope list_scope.

(** ** Python strings *)

Definition str := list ascii.

(** A string literal of the source. *)
Definition lit (s : string) : str := list_ascii_of_string s.

(** [a == b] *)
Fixpoint str_eqb (a b : str) : bool :=
  match a, b with
  | [], [] => true
  | x :: a', y :: b' => Ascii.eqb x y && str_eqb a' b'
  | _, _ => false
  end.


(** [x in xs] for a list or a set of strings. *)
Definition mem (x : str) (xs : list str) : bool :=
  existsb (str_eqb x) xs.

(** [s.startswith(prefix)] *)
Fixpoint startswith (s prefix : str) : bool :=
  match prefix, s with
  | [], _ => true
  | _ :: _, [] => false
  | p :: prefix', c :: s' => Ascii.eqb c p && startswith s' prefix'
  end.

(** Bytewise comparison of [str] values, the order [sorted] uses. *)
Fixpoint str_leb (a b : str) : bool :=
  match a, b with
  | [], _ => true
  | _ :: _, [] => false
  | x :: a', y :: b' =>
      if (nat_of_ascii x <? nat_of_ascii y)%nat then true
      else if (nat_of_ascii y <? nat_of_ascii x)%nat then false
      else str_leb a' b'
  end.

Fixpoint insert_sorted (x : str) (l : list str) : list str :=
  match l with
  | [] => [x]
  | y :: l' => if str_leb x y then x :: l else y :: insert_sorted x l'
  end.

(** [sorted(l)] *)
Fixpoint sorted (l : list str) : list str :=
  match l with
  | [] => []
  | x :: l' => insert_sorted x (sorted l')
  end.

(** The characters [str.rstrip()] removes. *)
Definition isspace (c : ascii) : bool :=
  let n := nat_of_ascii c in
  (n =? 32)%nat || ((9 <=? n)%nat && (n <=? 13)%nat).

(** [s.rstrip()] *)
Fixpoint rstrip (s : str) : str :=
  match s with
  | [] => []
  | c :: s' =>
      match rstrip s' with
      | [] => if isspace c then [] else [c]
      | r => c :: r
      end
  end.

(** [' ' * n] *)
Definition spaces (n : nat) : str := repeat " "%char n.

(** ['%d' % n] for a count read from git's output. *)
Definition decimal (n : N) : str :=
  lit (NilEmpty.string_of_uint (N.to_uint n)).

(** ['\n'.join(ls)] *)
Fixpoint join_lines (ls : list str) : str :=
  match ls with
  | [] => []
  | [l] => l
  | l :: ls' => l ++ lit (String "010"%char "") ++ join_lines ls'
  end.

(** ** Exceptions *)

Inductive exn : Type :=
| KeyError
| IndexError
| TypeError
| AssertionError
| StopIteration
| CalledProcessError.

Inductive result (A : Type) : Type :=
| Ok (a : A)
| Raise (e : exn).

Arguments Ok {A} a.
Arguments Raise {A} e.

Definition bind {A B : Type} (r : result A) (k : A -> result B) : result B :=
  match r with
  | Ok a => k a
  | Raise e => Raise e
  end.

Notation "x <- r ;; k" := (bind r (fun x => k))
  (at level 61, r at next level, right associativity).

(** ** colorama *)

(** The constants of [third_party.colorama] the program uses, which are the
    ANSI SGR sequences [ESC [ n m]. *)
Module Fore.
Definition ESC : ascii := "027"%char.
Definition sgr (n : string) : str := ESC :: lit "[" ++ lit n ++ lit "m".
Definition RED := sgr "31".
Definition GREEN := sgr "32".
Definition BLUE := sgr "34".
Definition MAGENTA := sgr "35".
Definition CYAN := sgr "36".
Definition WHITE := sgr "37".
End Fore.

Module Style.
Definition BRIGHT := Fore.sgr "1".
Definition NORMAL := Fore.sgr "22".
End Style.

Definition DEFAULT_SEPARATOR : str := spaces 4.

(** ** class OutputLine *)

Module OutputLine.

Record t : Type := mk {
  columns : list str;
  separators : list str;
  colors : list str
}.

(** [OutputLine()] *)
Definition init : t := mk [] [] [].

(** [append(self, data, separator=DEFAULT_SEPARATOR, color=Fore.WHITE)] *)
Definition append (self : t) (data separator color : str) : t :=
  mk (columns self ++ [data])
     (separators self ++ [separator])
     (colors self ++ [color]).

(** The loop of [as_padded_string] over
    [enumerate(zip(self.colors, self.columns, self.separators))]:
    [max_column_lengths[i]] raises IndexError out of range. *)
Fixpoint padded_loop (i : nat) (cells : list (str * str * str))
         (max_column_lengths : list nat) (output_string : str)
  : result str :=
  match cells with
  | [] => Ok output_string
  | (color, data, separator) :: cells' =>
      match nth_error max_column_lengths i with
      | None => Raise IndexError
      | Some m =>
          if (m =? 0)%nat
          then padded_loop (S i) cells' max_column_lengths output_string
          else
            let padding := spaces (m - List.length data) in
            padded_loop (S i) cells' max_column_lengths
              (output_string ++ color ++ data ++ padding ++ separator)
      end
  end.

Definition as_padded_string (self : t) (max_column_lengths : list nat)
  : result str :=
  output_string <-
    padded_loop 0
      (combine (combine (colors self) (columns self)) (separators self))
      max_column_lengths [] ;;
  Ok (rstrip output_string).

End OutputLine.

(** ** class OutputManager *)

Module OutputManager.

Record t : Type := mk {
  lines : list OutputLine.t;
  nocolor : bool;
  max_column_lengths : list nat;
  num_columns : option nat
}.

(** [OutputManager()] *)
Definition init : t := mk [] false [] None.

Definition set_nocolor (self : t) (b : bool) : t :=
  mk (lines self) b (max_column_lengths self) (num_columns self).

(** [for i, col in enumerate(line.columns):
       self.max_column_lengths[i] = max(self.max_column_lengths[i], len(col))] *)
Fixpoint update_max (maxl : list nat) (cols : list str) : result (list nat) :=
  match cols with
  | [] => Ok maxl
  | col :: cols' =>
      match maxl with
      | [] => Raise IndexError
      | m :: maxl' =>
          rest <- update_max maxl' cols' ;;
          Ok (Nat.max m (List.length col) :: rest)
      end
  end.

(** [not self.num_columns]: true of [None] and of [0]. *)
Definition no_columns (n : option nat) : bool :=
  match n with
  | None => true
  | Some k => (k =? 0)%nat
  end.

Definition append (self : t) (line : OutputLine.t) : result t :=
  let n := List.length (OutputLine.columns line) in
  let '(num, maxl) :=
    if no_columns (num_columns self)
    then (n, repeat 0%nat n)
    else (match num_columns self with Some k => k | None => 0%nat end,
          max_column_lengths self) in
  if negb (num =? n)%nat then Raise AssertionError
  else
    let line :=
      if nocolor self
      then OutputLine.mk (OutputLine.columns line)
                         (OutputLine.separators line)
                         (repeat [] num)
      else line in
    maxl' <- update_max maxl (OutputLine.columns line) ;;
    Ok (mk (lines self ++ [line]) (nocolor self) maxl' (Some num)).

Fixpoint padded_lines (ls : list OutputLine.t) (maxl : list nat)
  : result (list str) :=
  match ls with
  | [] => Ok []
  | l :: ls' =>
      x <- OutputLine.as_padded_string l maxl ;;
      xs <- padded_lines ls' maxl ;;
      Ok (x :: xs)
  end.

Definition as_formatted_string (self : t) : result str :=
  ls <- padded_lines (lines self) (max_column_lengths self) ;;
  Ok (join_lines ls).

End OutputManager.

(** ** Dictionaries *)

(** A Python [dict] with string keys, as its items in iteration order. *)
Definition dict (V : Type) := list (str * V).

Definition keys {V : Type} (d : dict V) : list str := map fst d.

(** [d.get(k)]: [None] when [k] is not a key. *)
Fixpoint dict_get {V : Type} (d : dict V) (k : str) : option V :=
  match d with
  | [] => None
  | (k', v) :: d' => if str_eqb k k' then Some v else dict_get d' k
  end.

(** [d[k]], which raises KeyError when [k] is not a key. *)
Definition dict_item {V : Type} (d : dict V) (k : str) : result V :=
  match dict_get d k with
  | Some v => Ok v
  | None => Raise KeyError
  end.

(** [d[k] = v] *)
Fixpoint dict_set {V : Type} (d : dict V) (k : str) (v : V) : dict V :=
  match d with
  | [] => [(k, v)]
  | (k', v') :: d' =>
      if str_eqb k k' then (k', v) :: d' else (k', v') :: dict_set d' k v
  end.

(** [del d[k]] where [k] may be absent. *)
Definition dict_remove {V : Type} (d : dict V) (k : str) : dict V :=
  filter (fun kv => negb (str_eqb k (fst kv))) d.

(** [d.pop(k, ())] on a dictionary of lists: the value and the rest. *)
Definition dict_pop (d : dict (list str)) (k : str) : list str * dict (list str) :=
  (match dict_get d k with Some v => v | None => [] end, dict_remove d k).

(** [d[k].append(x)] on a [collections.defaultdict(list)]. *)
Definition defaultdict_append (d : dict (list str)) (k x : str) : dict (list str) :=
  match dict_get d k with
  | Some v => dict_set d k (v ++ [x])
  | None => dict_set d k [x]
  end.

(** [s.add(x)] on a set kept as a duplicate-free list. *)
Definition set_add (x : str) (s : list str) : list str :=
  if mem x s then s else s ++ [x].

(** ** git_common and git_cl *)

(** [git_common.BranchesInfo], the named tuple [hash upstream ahead behind];
    a count is [None] when git printed none. *)
Module BranchesInfo.
Record t : Type := mk {
  hash : str;
  upstream : str;
  ahead : option N;
  behind : option N
}.
End BranchesInfo.

(** Truth value of a count: [None] and [0] are false. *)
Definition count_true (n : option N) : bool :=
  match n with
  | Some k => negb (N.eqb k 0)
  | None => false
  end.

Definition count_value (n : option N) : N :=
  match n with
  | Some k => k
  | None => 0%N
  end.

(** Truth value of an optional string: [None] and [''] are false. *)
Definition str_true (s : option str) : bool :=
  match s with
  | Some (_ :: _) => true
  | _ => false
  end.

(** The functions imported from [git_common] and [git_cl], which run git
    and query the review server: one record of their results.
    [hash_one] and [run_log] are [None] where the git command fails
    (subprocess2.CalledProcessError); [upstream] and [current_branch]
    catch that error themselves and return [None]. *)
Module git_common.
Record t : Type := mk {
  get_branches_info : bool -> dict (option BranchesInfo.t);
  upstream : str -> option str;
  hash_one : str -> option str;
  current_branch : option str;
  tags : list str;
  run_log : str -> option str;
  get_cl_statuses : list str -> bool -> option nat -> list (str * option str * str);
  color_for_status : str -> str
}.
End git_common.

(** ** class BranchMapper *)

Module BranchMapper.

(** The attributes of a [BranchMapper].  [verbosity] is the count of [-v]
    options (argparse's [None] compares like [0]); the attributes that
    [__init__] sets to [None] and [start] assigns before any use hold
    their assigned values. *)
Record t : Type := mk {
  verbosity : nat;
  maxjobs : option nat;
  show_subject : bool;
  output : OutputManager.t;
  gone_branches : list str;
  branches_info : dict (option BranchesInfo.t);
  parent_map : dict (list str);
  current_branch : option str;
  current_hash : str;
  tag_set : list str;
  status_info : dict (option str * str)
}.

(** [BranchMapper()] followed by the assignments of [main]. *)
Definition init (v : nat) (nocolor : bool) (jobs : option nat)
           (subject : bool) : t :=
  mk v jobs subject (OutputManager.set_nocolor OutputManager.init nocolor)
     [] [] [] None [] [] [].

Definition with_output (self : t) (o : OutputManager.t) : t :=
  mk (verbosity self) (maxjobs self) (show_subject self) o
     (gone_branches self) (branches_info self) (parent_map self)
     (current_branch self) (current_hash self) (tag_set self)
     (status_info self).

Definition with_gone_branches (self : t) (g : list str) : t :=
  mk (verbosity self) (maxjobs self) (show_subject self) (output self)
     g (branches_info self) (parent_map self)
     (current_branch self) (current_hash self) (tag_set self)
     (status_info self).

Definition with_branches_info (self : t) (b : dict (option BranchesInfo.t)) : t :=
  mk (verbosity self) (maxjobs self) (show_subject self) (output self)
     (gone_branches self) b (parent_map self)
     (current_branch self) (current_hash self) (tag_set self)
     (status_info self).

Definition with_parent_map (self : t) (p : dict (list str)) : t :=
  mk (verbosity self) (maxjobs self) (show_subject self) (output self)
     (gone_branches self) (branches_info self) p
     (current_branch self) (current_hash self) (tag_set self)
     (status_info self).

Definition with_status_info (self : t) (s : dict (option str * str)) : t :=
  mk (verbosity self) (maxjobs self) (show_subject self) (output self)
     (gone_branches self) (branches_info self) (parent_map self)
     (current_branch self) (current_hash self) (tag_set self) s.

Definition with_current (self : t) (b : option str) (h : str)
           (tg : list str) : t :=
  mk (verbosity self) (maxjobs self) (show_subject self) (output self)
     (gone_branches self) (branches_info self) (parent_map self)
     b h tg (status_info self).

(** [__is_invalid_parent]: [not parent or parent in self.__gone_branches] *)
Definition is_invalid_parent (self : t) (parent : str) : bool :=
  match parent with
  | [] => true
  | _ => mem parent (gone_branches self)
  end.

(** [__color_for_branch]; [branch_hash] is [None] where [hash_one] failed,
    and [str.startswith(None)] raises TypeError. *)
Definition color_for_branch (self : t) (branch : str)
           (branch_hash : option str) : result str :=
  color <-
    (if startswith branch (lit "origin") then Ok Fore.RED
     else if startswith branch (lit "branch-heads") then Ok Fore.BLUE
     else if is_invalid_parent self branch || mem branch (tag_set self)
     then Ok Fore.MAGENTA
     else match branch_hash with
          | None => Raise TypeError
          | Some h =>
              if startswith (current_hash self) h then Ok Fore.CYAN
              else Ok Fore.GREEN
          end) ;;
  match branch_hash with
  | Some (c :: h) =>
      if startswith (current_hash self) (c :: h)
      then Ok (color ++ Style.BRIGHT)
      else Ok (color ++ Style.NORMAL)
  | _ => Ok (color ++ Style.NORMAL)
  end.

(** The [' *'] mark of the checked-out branch. *)
Definition suffix (self : t) (branch : str) : str :=
  match current_branch self with
  | Some cur =>
      if str_eqb branch cur
         || (str_eqb cur (lit "HEAD") && str_eqb branch (current_hash self))
      then lit " *" else []
  | None => []
  end.

(** The local [branch_string] of [__append_branch]. *)
Definition branch_string (self : t) (branch : str) : str :=
  let branch_string := branch in
  let branch_string :=
    if mem branch (gone_branches self)
    then lit "{" ++ branch ++ lit ":GONE}"
    else branch_string in
  match branch with
  | [] => lit "{NO_UPSTREAM}"
  | _ => branch_string
  end.

(** The five cells of the tracking status:
    front separator, ahead, center separator, behind, back separator. *)
Definition tracking_status (self : t) (branch_info : option BranchesInfo.t)
  : str * str * str * str * str :=
  match branch_info with
  | Some info =>
      if negb (is_invalid_parent self (BranchesInfo.upstream info)) then
        let ahead := BranchesInfo.ahead info in
        let behind := BranchesInfo.behind info in
        let ahead_string :=
          if count_true ahead
          then lit "ahead " ++ decimal (count_value ahead) else [] in
        let behind_string :=
          if count_true behind
          then lit "behind " ++ decimal (count_value behind) else [] in
        let front_separator :=
          if count_true ahead || count_true behind then lit "[" else [] in
        let back_separator :=
          if count_true ahead || count_true behind then lit "]" else [] in
        let center_separator :=
          if count_true ahead && count_true behind then lit "|" else [] in
        (front_separator, ahead_string, center_separator, behind_string,
         back_separator)
      else ([], [], [], [], [])
  | None => ([], [], [], [], [])
  end.

(** The body of [__append_branch] that builds the branch's OutputLine. *)
Definition branch_line (git : git_common.t) (self : t) (branch : str)
           (depth : nat) : result OutputLine.t :=
  branch_info <- dict_item (branches_info self) branch ;;
  let branch_hash :=
    match branch_info with
    | Some info => Some (BranchesInfo.hash info)
    | None => git_common.hash_one git branch
    end in
  let line := OutputLine.init in
  let main_string :=
    List.concat (repeat (lit "  ") depth) ++ branch_string self branch
    ++ suffix self branch in
  color <- color_for_branch self branch branch_hash ;;
  let line := OutputLine.append line main_string DEFAULT_SEPARATOR color in
  let line :=
    if (2 <=? verbosity self)%nat
    then OutputLine.append line
           (match branch_hash with
            | Some (c :: h) => c :: h
            | _ => []
            end) (lit " ") Fore.RED
    else line in
  let line :=
    if (1 <=? verbosity self)%nat
    then
      let '(front_separator, ahead_string, center_separator,
            behind_string, back_separator) :=
        tracking_status self branch_info in
      let line := OutputLine.append line front_separator (lit " ") Fore.WHITE in
      let line := OutputLine.append line ahead_string (lit " ") Fore.MAGENTA in
      let line := OutputLine.append line center_separator (lit " ") Fore.WHITE in
      let line := OutputLine.append line behind_string (lit " ") Fore.MAGENTA in
      OutputLine.append line back_separator DEFAULT_SEPARATOR Fore.WHITE
    else line in
  line <-
    (if (2 <=? verbosity self)%nat
     then
       let none_text :=
         if is_invalid_parent self branch then [] else lit "None" in
       status <- dict_item (status_info self) branch ;;
       let '(url, color) := status in
       Ok (OutputLine.append line
             (if str_true url
              then match url with Some u => u | None => [] end
              else none_text)
             DEFAULT_SEPARATOR color)
     else Ok line) ;;
  if show_subject self
  then
    match git_common.run_log git branch with
    | Some subject =>
        Ok (OutputLine.append line subject DEFAULT_SEPARATOR Fore.WHITE)
    | None => Raise CalledProcessError
    end
  else Ok line.

(** A [for] loop over [xs] whose body may raise or run out of fuel. *)
Fixpoint for_each {S X : Type} (body : S -> X -> option (result S))
         (xs : list X) (s : S) : option (result S) :=
  match xs with
  | [] => Some (Ok s)
  | x :: xs' =>
      match body s x with
      | Some (Ok s') => for_each body xs' s'
      | r => r
      end
  end.

(** [__append_branch]; [None] when [fuel] recursive calls do not suffice. *)
Fixpoint append_branch (fuel : nat) (git : git_common.t) (self : t)
         (branch : str) (depth : nat) : option (result t) :=
  match fuel with
  | O => None
  | S fuel' =>
      match branch_line git self branch depth with
      | Raise e => Some (Raise e)
      | Ok line =>
          match OutputManager.append (output self) line with
          | Raise e => Some (Raise e)
          | Ok out =>
              let self := with_output self out in
              let '(children, rest) := dict_pop (parent_map self) branch in
              let self := with_parent_map self rest in
              for_each
                (fun self child =>
                   append_branch fuel' git self child (S depth))
                (sorted children) self
          end
      end
  end.

(** The loop of [start] that drains the review statuses. *)
Fixpoint drain_statuses (n : nat) (it : list (str * option str * str))
         (color_for_status : str -> str) (d : dict (option str * str))
  : result (dict (option str * str)) :=
  match n with
  | O => Ok d
  | S n' =>
      match it with
      | [] => Raise StopIteration
      | (branch, url, status) :: it' =>
          drain_statuses n' it' color_for_status
            (dict_set d branch (url, color_for_status status))
      end
  end.

(** One iteration of the loop of [start] over [self.__branches_info]. *)
Definition place_branch (git : git_common.t) (st : t * list str)
           (item : str * option BranchesInfo.t) : result (t * list str) :=
  let '(self, roots) := st in
  let '(branch, branch_info) := item in
  match branch_info with
  | None => Ok (self, roots)
  | Some info =>
      let parent := BranchesInfo.upstream info in
      parent_info <- dict_item (branches_info self) parent ;;
      match parent_info with
      | None =>
          let branch_upstream := git_common.upstream git branch in
          let '(parent, self) :=
            if str_true branch_upstream
            then (match branch_upstream with Some u => u | None => [] end,
                  self)
            else (parent,
                  with_gone_branches self
                    (set_add parent (gone_branches self))) in
          let roots := set_add parent roots in
          Ok (with_parent_map self
                (defaultdict_append (parent_map self) parent branch),
              roots)
      | Some _ =>
          Ok (with_parent_map self
                (defaultdict_append (parent_map self) parent branch),
              roots)
      end
  end.

Fixpoint place_branches (git : git_common.t) (st : t * list str)
         (items : dict (option BranchesInfo.t)) : result (t * list str) :=
  match items with
  | [] => Ok st
  | item :: items' =>
      st' <- place_branch git st item ;;
      place_branches git st' items'
  end.

(** [start] up to the rendering: the topology and the current commit. *)
Definition build (git : git_common.t) (self : t) : result (t * list str) :=
  let self :=
    with_branches_info self
      (git_common.get_branches_info git (1 <=? verbosity self)%nat) in
  self <-
    (if (2 <=? verbosity self)%nat
     then
       let statuses :=
         git_common.get_cl_statuses git (keys (branches_info self))
           (2 <? verbosity self)%nat (maxjobs self) in
       d <- drain_statuses (List.length (branches_info self)) statuses
              (git_common.color_for_status git) (status_info self) ;;
       Ok (with_status_info self d)
     else Ok self) ;;
  st <- place_branches git (self, []) (branches_info self) ;;
  let '(self, roots) := st in
  match git_common.hash_one git (lit "HEAD") with
  | None => Raise CalledProcessError
  | Some head =>
      Ok (with_current self (git_common.current_branch git) head
            (git_common.tags git),
          roots)
  end.

(** [start]; [None] when [fuel] does not suffice for the traversal. *)
Definition start (fuel : nat) (git : git_common.t) (self : t)
  : option (result t) :=
  match build git self with
  | Raise e => Some (Raise e)
  | Ok (self, roots) =>
      match roots with
      | _ :: _ =>
          for_each (fun self root => append_branch fuel git self root 0)
            (sorted roots) self
      | [] =>
          let no_branches := OutputLine.init in
          let no_branches :=
            OutputLine.append no_branches (lit "No User Branches")
              DEFAULT_SEPARATOR Fore.WHITE in
          match OutputManager.append (output self) no_branches with
          | Raise e => Some (Raise e)
          | Ok out => Some (Ok (with_output self out))
          end
      end
  end.

(** [main] after the options are parsed: the text it prints. *)
Definition main (fuel : nat) (git : git_common.t) (v : nat) (nocolor : bool)
           (jobs : option nat) (subject : bool) : option (result str) :=
  match start fuel git (init v nocolor jobs subject) with
  | None => None
  | Some (Raise e) => Some (Raise e)
  | Some (Ok mapper) =>
      Some (OutputManager.as_formatted_string (output mapper))
  end.

End BranchMapper.

(** ** Reading rows *)

(** What the traversal reads of a mapper and never writes: everything but
    the stored lines and the parent map. *)
Definition view (self : BranchMapper.t) :=
  (BranchMapper.verbosity self, BranchMapper.maxjobs self,
   BranchMapper.show_subject self, BranchMapper.gone_branches self,
   BranchMapper.branches_info self, BranchMapper.current_branch self,
   BranchMapper.current_hash self, BranchMapper.tag_set self,
   BranchMapper.status_info self,
   OutputManager.nocolor (BranchMapper.output self)).

(** An OutputManager whose lines all have [n] cells and whose widths, once
    set, are [n] as well. *)
Definition tidy (n : nat) (o : OutputManager.t) : Prop :=
  Forall (fun l => List.length (OutputLine.columns l) = n)
         (OutputManager.lines o)
  /\ (OutputManager.num_columns o = None
      \/ (OutputManager.num_columns o = Some n
          /\ List.length (OutputManager.max_column_lengths o) = n)).

(** The number of cells [__append_branch] gives a row, by configuration. *)
Definition row_width (verbosity : nat) (show_subject : bool) : nat :=
  (1 + (if (2 <=? verbosity) then 1 else 0)
     + (if (1 <=? verbosity) then 5 else 0)
     + (if (2 <=? verbosity) then 1 else 0)
     + (if show_subject then 1 else 0))%nat.

(** Position of the first tracking-status cell of a row. *)
Definition tracking_index (verbosity : nat) : nat :=
  if (2 <=? verbosity)%nat then 2%nat else 1%nat.

(** The five tracking-status cells of a row, as a row of their own. *)
Definition tracking_columns (verbosity : nat) (line : OutputLine.t)
  : OutputLine.t :=
  let k := tracking_index verbosity in
  OutputLine.mk (firstn 5 (skipn k (OutputLine.columns line)))
                (firstn 5 (skipn k (OutputLine.separators line)))
                (firstn 5 (skipn k (OutputLine.colors line))).

(** A row formatted on its own by an OutputManager without colors. *)
Definition render_alone (line : OutputLine.t) : result str :=
  m <- OutputManager.append
         (OutputManager.set_nocolor OutputManager.init true) line ;;
  OutputManager.as_formatted_string m.

(** The review-status cell of a row at verbosity 2 or more. *)
Definition review_column (line : OutputLine.t) : str :=
  nth 7 (OutputLine.columns line) [].

(** The name cell of a row. *)
Definition name_column (line : OutputLine.t) : str :=
  nth 0 (OutputLine.columns line) [].

(** The rows a sequence of [OutputManager.append] calls stores. *)
Fixpoint feed (m : OutputManager.t) (rows : list OutputLine.t)
  : result OutputManager.t :=
  match rows with
  | [] => Ok m
  | r :: rows' => m' <- OutputManager.append m r ;; feed m' rows'
  end.

(** ** Color escape sequences *)

(** Removal of the escape sequences [ESC ... m] from a text; [inside] tells
    whether the scan is within a sequence. *)
Fixpoint strip_from (inside : bool) (s : str) : str :=
  match s with
  | [] => []
  | c :: s' =>
      if inside
      then strip_from (negb (Ascii.eqb c "m"%char)) s'
      else if Ascii.eqb c Fore.ESC then strip_from true s'
           else c :: strip_from false s'
  end.

Definition strip_colors (s : str) : str := strip_from false s.

(** A parameter character of an SGR sequence. *)
Definition is_param (c : ascii) : bool :=
  let n := nat_of_ascii c in
  ((48 <=? n)%nat && (n <=? 57)%nat) || (n =? 59)%nat.

(** A color: a concatenation of sequences [ESC [ params m]. *)
Inductive color_code : str -> Prop :=
| color_none : color_code []
| color_sgr (params rest : str) :
    forallb is_param params = true ->
    color_code rest ->
    color_code (Fore.ESC :: "["%char :: params ++ "m"%char :: rest).

(** A text that carries no escape character. *)
Definition plain (s : str) : Prop := ~ In Fore.ESC s.

(** A row of as many cells, separators and colors, whose texts are plain
    and whose colors are color escape sequences. *)
Definition colored_row (r : OutputLine.t) : Prop :=
  List.length (OutputLine.separators r) = List.length (OutputLine.columns r)
  /\ List.length (OutputLine.colors r) = List.length (OutputLine.columns r)
  /\ Forall plain (OutputLine.columns r)
  /\ Forall plain (OutputLine.separators r)
  /\ Forall color_code (OutputLine.colors r).

(** The line an OutputManager stores for a row. *)
Definition stored (nocolor : bool) (line : OutputLine.t) : OutputLine.t :=
  if nocolor
  then OutputLine.mk (OutputLine.columns line) (OutputLine.separators line)
         (repeat [] (List.length (OutputLine.columns line)))
  else line.

(** Whether the scan of [s] ends within an escape sequence. *)
Fixpoint esc_end (inside : bool) (s : str) : bool :=
  match s with
  | [] => inside
  | c :: s' =>
      if inside
      then esc_end (negb (Ascii.eqb c "m"%char)) s'
      else esc_end (Ascii.eqb c Fore.ESC) s'
  end.

(** Whether no escape sequence of [s] holds a space character. *)
Fixpoint esc_clean (inside : bool) (s : str) : bool :=
  match s with
  | [] => true
  | c :: s' =>
      if inside
      then negb (isspace c) && esc_clean (negb (Ascii.eqb c "m"%char)) s'
      else esc_clean (Ascii.eqb c Fore.ESC) s'
  end.

(** [well_colored s s']: [s] is [s'] with whole color escape sequences
    added. *)
Definition well_colored (s s' : str) : Prop :=
  strip_from false s = s'
  /\ esc_end false s = false
  /\ esc_clean false s = true.

(** The cells of a row as [as_padded_string] zips them. *)
Definition cells (r : OutputLine.t) : list (str * str * str) :=
  combine (combine (OutputLine.colors r) (OutputLine.columns r))
          (OutputLine.separators r).

(** The text the loop of [as_padded_string] writes for cells whose columns
    have the widths [widths]: a cell of a column of width 0 is skipped, any
    other is its color, its text, the padding to the width and its
    separator. *)
Fixpoint padded_cells (widths : list nat) (cells : list (str * str * str))
         {struct cells} : str :=
  match cells with
  | [] => []
  | (color, data, separator) :: cells' =>
      match widths with
      | [] => []
      | m :: widths' =>
          (if (m =? 0)%nat then []
           else color ++ data ++ spaces (m - List.length data) ++ separator)
          ++ padded_cells widths' cells'
      end
  end.

(** A cell without its color. *)
Definition uncolor (cell : str * str * str) : str * str * str :=
  ([], snd (fst cell), snd cell).

(** A cell whose color is a color escape sequence and whose text and
    separator are plain. *)
Definition cell_ok (cell : str * str * str) : Prop :=
  color_code (fst (fst cell)) /\ plain (snd (fst cell)) /\ plain (snd cell).

(** [decolored m m']: [m'] is the manager [m] of a run without colors. *)
Definition decolored (m m' : OutputManager.t) : Prop :=
  OutputManager.lines m' = map (stored true) (OutputManager.lines m)
  /\ OutputManager.max_column_lengths m'
     = OutputManager.max_column_lengths m
  /\ OutputManager.num_columns m' = OutputManager.num_columns m
  /\ OutputManager.nocolor m = false
  /\ OutputManager.nocolor m' = true.

(** The widths of a manager cover the cells of its lines. *)
Definition fits (m : OutputManager.t) : Prop :=
  Forall (fun l => List.length (OutputLine.columns l)
                   <= List.length (OutputManager.max_column_lengths m))%nat
         (OutputManager.lines m)
  /\ ((OutputManager.num_columns m = None /\ OutputManager.lines m = [])
      \/ OutputManager.num_columns m
         = Some (List.length (OutputManager.max_column_lengths m))).

(** ** The forest *)

(** The local branches of the bulk listing: the keys with a BranchesInfo. *)
Fixpoint local_branches (d : dict (option BranchesInfo.t)) : list str :=
  match d with
  | [] => []
  | (b, Some _) :: d' => b :: local_branches d'
  | (_, None) :: d' => local_branches d'
  end.

Definition is_local (d : dict (option BranchesInfo.t)) (b : str) : bool :=
  match dict_get d b with
  | Some (Some _) => true
  | _ => false
  end.

(** The parent [start] files a branch under. *)
Definition parent_of (git : git_common.t) (d : dict (option BranchesInfo.t))
           (branch : str) (info : BranchesInfo.t) : str :=
  if is_local d (BranchesInfo.upstream info)
  then BranchesInfo.upstream info
  else match git_common.upstream git branch with
       | Some (c :: u) => c :: u
       | _ => BranchesInfo.upstream info
       end.

(** [anchored n b]: at most [n] parent steps lead from [b] to a name that
    is not a local branch. *)
Fixpoint anchored (git : git_common.t) (d : dict (option BranchesInfo.t))
         (n : nat) (b : str) : bool :=
  match dict_get d b with
  | Some (Some info) =>
      match n with
      | O => false
      | S n' => anchored git d n' (parent_of git d b info)
      end
  | _ => true
  end.

(** All the children a parent map holds. *)
Definition all_children (pm : dict (list str)) : list str :=
  List.concat (map snd pm).

(** The order in which [__append_branch] visits: the branch, then the
    subtrees of its sorted children, each child list taken from the map. *)
Fixpoint walk_each (f : dict (list str) -> str ->
                        option (list (str * nat) * dict (list str)))
         (cs : list str) (pm : dict (list str))
  : option (list (str * nat) * dict (list str)) :=
  match cs with
  | [] => Some ([], pm)
  | c :: cs' =>
      match f pm c with
      | None => None
      | Some (vs, pm1) =>
          match walk_each f cs' pm1 with
          | None => None
          | Some (vs', pm2) => Some (vs ++ vs', pm2)
          end
      end
  end.

Fixpoint walk (fuel : nat) (pm : dict (list str)) (branch : str) (depth : nat)
  : option (list (str * nat) * dict (list str)) :=
  match fuel with
  | O => None
  | S fuel' =>
      let '(children, rest) := dict_pop pm branch in
      match walk_each (fun pm child => walk fuel' pm child (S depth))
                      (sorted children) rest with
      | None => None
      | Some (vs, pm') => Some ((branch, depth) :: vs, pm')
      end
  end.

(** [walked from pm res]: a walk that started at the names [from] over the
    map [pm] visited these names and the children it took from the map,
    each child list once, and left no list under a visited name. *)
Definition walked (from : list str) (pm : dict (list str))
           (res : list (str * nat) * dict (list str)) : Prop :=
  NoDup (keys (snd res))
  /\ incl (snd res) pm
  /\ Permutation (from ++ all_children pm)
                 (all_children (snd res) ++ map fst (fst res))
  /\ (forall x, In x (map fst (fst res)) -> ~ In x (keys (snd res))).

(** No name occurs twice in [l]. *)
Fixpoint distinct (l : list str) : bool :=
  match l with
  | [] => true
  | x :: l' => negb (mem x l') && distinct l'
  end.

(** No branch of the listing whose recorded upstream is not local is filed
    under a local branch. *)
Definition roots_external (git : git_common.t)
           (d : dict (option BranchesInfo.t)) : bool :=
  forallb
    (fun item =>
       match snd item with
       | Some info =>
           is_local d (BranchesInfo.upstream info)
           || negb (is_local d (parent_of git d (fst item) info))
       | None => true
       end) d.

(** [topology git d seen st]: the parent map and the roots of [st] are those
    of the branches [seen] so far of the listing [d]: every local branch
    seen is the child of its parent and of no other name, and the roots are
    the parents of the branches whose recorded upstream is not local. *)
Definition topology (git : git_common.t) (d seen : dict (option BranchesInfo.t))
           (st : BranchMapper.t * list str) : Prop :=
  let pm := BranchMapper.parent_map (fst st) in
  let roots := snd st in
  NoDup (keys pm)
  /\ Permutation (all_children pm) (local_branches seen)
  /\ (forall p l b,
        In (p, l) pm -> In b l ->
        exists info, In (b, Some info) seen /\ parent_of git d b info = p)
  /\ NoDup roots
  /\ (forall r,
        In r roots ->
        exists b info,
          In (b, Some info) seen
          /\ is_local d (BranchesInfo.upstream info) = false
          /\ parent_of git d b info = r)
  /\ (forall b info,
        In (b, Some info) seen ->
        is_local d (BranchesInfo.upstream info) = false ->
        In (parent_of git d b info) roots).

(** [rows_of git self visits lines]: the stored lines are, in order, the
    rows of the visited branches at their depths. *)
Definition rows_of (git : git_common.t) (self : BranchMapper.t)
           (visits : list (str * nat)) (lines : list OutputLine.t) : Prop :=
  Forall2
    (fun v l =>
       exists line,
         BranchMapper.branch_line git self (fst v) (snd v) = Ok line
         /\ l = stored (OutputManager.nocolor (BranchMapper.output self)) line)
    visits lines.

(** The cells of a row of a mapper. *)
Definition width (self : BranchMapper.t) : nat :=
  row_width (BranchMapper.verbosity self) (BranchMapper.show_subject self).

(** [simulates git self w r]: a traversal of the mapper [self] that ended
    in [r] did not fail on the column count, and when it returned it
    followed the walk [w] over the parent map, appended the rows of the
    visited branches and wrote nothing else. *)
Definition simulates (git : git_common.t) (self : BranchMapper.t)
           (w : option (list (str * nat) * dict (list str)))
           (r : result BranchMapper.t) : Prop :=
  match r with
  | Ok self' =>
      view self' = view self
      /\ tidy (width self) (BranchMapper.output self')
      /\ exists visits rows,
          w = Some (visits, BranchMapper.parent_map self')
          /\ OutputManager.lines (BranchMapper.output self')
             = OutputManager.lines (BranchMapper.output self) ++ rows
          /\ rows_of git self visits rows
  | Raise e => e <> AssertionError
  end.

(** The row of an empty forest. *)
Definition sentinel_row : OutputLine.t :=
  OutputLine.append OutputLine.init (lit "No User Branches")
    DEFAULT_SEPARATOR Fore.WHITE.

(** ** Example repositories *)

Module Repo.

Definition info (h u : string) (a b : option N) : option BranchesInfo.t :=
  Some (BranchesInfo.mk (lit h) (lit u) a b).

(** A lookup table of git answers by name. *)
Definition answers (table : list (string * string)) (name : str)
  : option str :=
  dict_get (map (fun kv => (lit (fst kv), lit (snd kv))) table) name.

(** A repository: the bulk listing, the upstreams and the hashes git
    resolves, and the checked-out branch.  [git log] of a name succeeds
    where the name resolves to a commit; no branch has a review URL. *)
Definition repo (branches : list (string * option BranchesInfo.t))
           (upstreams hashes : list (string * string)) (current : string)
  : git_common.t :=
  git_common.mk
    (fun _ => map (fun kv => (lit (fst kv), snd kv)) branches)
    (answers upstreams)
    (answers hashes)
    (Some (lit current))
    []
    (fun name => match answers hashes name with
                 | Some _ => Some (lit "subject")
                 | None => None
                 end)
    (fun names _ _ => map (fun k => (k, None, lit "waiting")) names)
    (fun _ => Fore.WHITE).

(** The mapper once [start] has built the topology of a repository. *)
Definition state (git : git_common.t) (verbosity : nat) (nocolor : bool)
           (subject : bool) : BranchMapper.t :=
  match BranchMapper.build git
          (BranchMapper.init verbosity nocolor None subject) with
  | Ok (self, _) => self
  | Raise _ => BranchMapper.init verbosity nocolor None subject
  end.

(** The row of a branch of a repository at a depth. *)
Definition row (git : git_common.t) (verbosity : nat) (branch : string)
           (depth : nat) : OutputLine.t :=
  match BranchMapper.branch_line git (state git verbosity true false)
          (lit branch) depth with
  | Ok line => line
  | Raise _ => OutputLine.init
  end.

(** The mapper once [start] has returned. *)
Definition final (fuel : nat) (git : git_common.t) (verbosity : nat)
           (nocolor : bool) (subject : bool) : BranchMapper.t :=
  match BranchMapper.start fuel git
          (BranchMapper.init verbosity nocolor None subject) with
  | Some (Ok self) => self
  | _ => BranchMapper.init verbosity nocolor None subject
  end.

(** [feature] tracks origin/master, [other] tracks [feature], and the
    upstream of [lost] is gone. *)
Definition basic : git_common.t :=
  repo [("feature", info "abc" "origin/master" (Some 3%N) (Some 0%N));
        ("other", info "abd" "feature" (Some 2%N) (Some 5%N));
        ("lost", info "abe" "missing" None None);
        ("origin/master", None);
        ("missing", None)]
       [("feature", "origin/master"); ("other", "feature")]
       [("HEAD", "abd"); ("origin/master", "fff"); ("feature", "abc");
        ("other", "abd"); ("lost", "abe")]
       "other".

(** [a] tracks [b] and [b] tracks [a]. *)
Definition cycle : git_common.t :=
  repo [("a", info "a1" "b" None None); ("b", info "b1" "a" None None)]
       [("a", "b"); ("b", "a")]
       [("HEAD", "a1"); ("a", "a1"); ("b", "b1")]
       "a".

(** The bulk listing says [feature] tracks origin/master and [topic]
    tracks [feature]; asked again, git says [feature] tracks [topic]. *)
Definition stale : git_common.t :=
  repo [("feature", info "f1" "origin/master" None None);
        ("topic", info "t1" "feature" None None);
        ("origin/master", None)]
       [("feature", "topic"); ("topic", "feature")]
       [("HEAD", "t1"); ("feature", "f1"); ("topic", "t1");
        ("origin/master", "fff")]
       "topic".

(** The bulk listing says [feature] tracks origin/master; asked again,
    git says it tracks origin/main. *)
Definition moved : git_common.t :=
  repo [("feature", info "f1" "origin/master" None None);
        ("origin/master", None);
        ("origin/main", None)]
       [("feature", "origin/main")]
       [("HEAD", "f1"); ("feature", "f1"); ("origin/main", "fff");
        ("origin/master", "fff")]
       "feature".

(** git resolves the upstream of [feature] to upstream/main and then
    fails to resolve upstream/main to a commit. *)
Definition unresolved : git_common.t :=
  repo [("feature", info "f1" "upstream/main" None None);
        ("upstream/main", None)]
       [("feature", "upstream/main")]
       [("HEAD", "f1"); ("feature", "f1")]
       "feature".

(** [solo] tracks nothing. *)
Definition orphan : git_common.t :=
  repo [("solo", info "s1" "" None None); ("", None)]
       []
       [("HEAD", "s1"); ("solo", "s1")]
       "solo".

(** Rows with one narrow and one empty cell in the second column. *)
Definition two_rows : list OutputLine.t :=
  [OutputLine.mk [lit "a"; lit "b"] [lit " "; lit " "]
                 [Fore.RED; Fore.WHITE];
   OutputLine.mk [lit "c"; []] [lit " "; lit " "]
                 [Fore.RED; Fore.WHITE]].

End Repo.

(** ** Widths and formatted text *)

(** Every cell of every stored line has a width at its position that is at
    least the length of its text. *)
Definition widths_cover (m : OutputManager.t) : Prop :=
  forall l i col,
    In l (OutputManager.lines m) ->
    nth_error (OutputLine.columns l) i = Some col ->
    exists w,
      nth_error (OutputManager.max_column_lengths m) i = Some w
      /\ (List.length col <= w)%nat.

(** Every width that is not zero is the length of the text of a stored
    cell at its position. *)
Definition widths_attained (m : OutputManager.t) : Prop :=
  forall i w,
    nth_error (OutputManager.max_column_lengths m) i = Some w ->
    w <> 0%nat ->
    exists l col,
      In l (OutputManager.lines m)
      /\ nth_error (OutputLine.columns l) i = Some col
      /\ List.length col = w.

(** [l] without its element at position [i]. *)
Fixpoint drop_nth {A : Type} (i : nat) (l : list A) {struct l} : list A :=
  match l with
  | [] => []
  | x :: l' =>
      match i with
      | O => l'
      | S i' => x :: drop_nth i' l'
      end
  end.

(** A row without its cell at position [i]. *)
Definition drop_cell (i : nat) (r : OutputLine.t) : OutputLine.t :=
  OutputLine.mk (drop_nth i (OutputLine.columns r))
                (drop_nth i (OutputLine.separators r))
                (drop_nth i (OutputLine.colors r)).

(** ** Gone upstreams *)

(** [lost git d seen g]: [g] is the recorded upstream of a branch of [seen]
    whose entry in the listing [d] is empty and whose upstream git does not
    resolve. *)
Definition lost (git : git_common.t) (d seen : dict (option BranchesInfo.t))
           (g : str) : Prop :=
  exists b info,
    In (b, Some info) seen
    /\ BranchesInfo.upstream info = g
    /\ dict_get d g = Some None
    /\ str_true (git_common.upstream git b) = false.

(** ** Failing runs *)

(** [fails_at git self names e]: building the row of one of [names] raises
    [e]. *)
Definition fails_at (git : git_common.t) (self : BranchMapper.t)
           (names : list str) (e : exn) : Prop :=
  exists b d,
    In b names /\ BranchMapper.branch_line git self b d = Raise e.

(** ** Review statuses *)

(** The URL and color of the last of the results [its] that names [b]. *)
Fixpoint last_status (f : str -> str) (its : list (str * option str * str))
         (b : str) : option (option str * str) :=
  match its with
  | [] => None
  | (branch, url, status) :: its' =>
      match last_status f its' b with
      | Some s => Some s
      | None => if str_eqb b branch then Some (url, f status) else None
      end
  end.

(** ** The order of the rows *)

(** The children filed under [b]: [parent_map.pop(b, ())] without the
    removal. *)
Definition children_of (pm : dict (list str)) (b : str) : list str :=
  match dict_get pm b with
  | Some l => l
  | None => []
  end.

(** The pre-order of the tree below [b] in the map [pm], children in
    sorted order, down to [fuel] levels. *)
Fixpoint preorder (fuel : nat) (pm : dict (list str)) (b : str) (depth : nat)
  : list (str * nat) :=
  match fuel with
  | O => []
  | S fuel' =>
      (b, depth)
      :: flat_map (fun c => preorder fuel' pm c (S depth))
                  (sorted (children_of pm b))
  end.

(** Each name of [l] is at most the next one, bytewise. *)
Fixpoint ascending (l : list str) : bool :=
  match l with
  | [] => true
  | x :: l' =>
      match l' with
      | [] => true
      | y :: _ => str_leb x y && ascending l'
      end
  end.

(** ** The parts of a row *)

(** A row of as many separators and colors as columns. *)
Definition balanced (r : OutputLine.t) : Prop :=
  List.length (OutputLine.separators r) = List.length (OutputLine.columns r)
  /\ List.length (OutputLine.colors r) = List.length (OutputLine.columns r).

(** * Properties *)

(** ** Strings and the error monad *)

Lemma str_eqb_eq (a b : str) : str_eqb a b = true <-> a = b.
Proof.
  revert b. induction a as [|x a IH]; intros [|y b]; simpl;
    try (split; [discriminate | discriminate]); try tauto.
  rewrite andb_true_iff, Ascii.eqb_eq, IH. split.
  - intros [-> ->]. reflexivity.
  - intros H. inversion H. tauto.
Qed.

Lemma str_eqb_refl (a : str) : str_eqb a a = true.
Proof. now apply str_eqb_eq. Qed.

Lemma str_eqb_neq (a b : str) : str_eqb a b = false <-> a <> b.
Proof.
  rewrite <- str_eqb_eq. destruct (str_eqb a b); split; congruence.
Qed.

Lemma mem_In (x : str) (xs : list str) : mem x xs = true <-> In x xs.
Proof.
  unfold mem. rewrite existsb_exists. split.
  - intros [y [Hy Heq]]. apply str_eqb_eq in Heq. now subst.
  - intros H. exists x. split; [assumption | apply str_eqb_refl].
Qed.

Lemma mem_not_In (x : str) (xs : list str) : mem x xs = false <-> ~ In x xs.
Proof.
  rewrite <- mem_In. destruct (mem x xs); split; congruence.
Qed.

Lemma bind_Ok {A B : Type} (r : result A) (k : A -> result B) (b : B) :
  bind r k = Ok b -> exists a, r = Ok a /\ k a = Ok b.
Proof. destruct r as [a|e]; simpl; [eauto | discriminate]. Qed.

(** Closed goals decided by evaluation. *)
Ltac by_vm := vm_compute; first [reflexivity | lia].

(** Splits a successful [bind] of the hypotheses into its two steps. *)
Ltac bind_inv H :=
  let a := fresh "x" in
  let H1 := fresh "Hstep" in
  apply bind_Ok in H; destruct H as [a [H1 H]].

(** ** The cells of a row *)

Lemma dict_item_Ok {V : Type} (d : dict V) (k : str) (v : V) :
  dict_item d k = Ok v <-> dict_get d k = Some v.
Proof.
  unfold dict_item. destruct (dict_get d k); split; congruence.
Qed.



(** The cells of a row, by configuration. *)
Lemma branch_line_cells (git : git_common.t) (self : BranchMapper.t)
      (branch : str) (depth : nat) (line : OutputLine.t) :
  BranchMapper.branch_line git self branch depth = Ok line ->
  exists branch_info name hash_text review subject,
    dict_get (BranchMapper.branches_info self) branch = Some branch_info
    /\ (forall url color,
          dict_get (BranchMapper.status_info self) branch = Some (url, color) ->
          str_true url = false ->
          review = if BranchMapper.is_invalid_parent self branch
                   then [] else lit "None")
    /\ let '(f, a, c, b, k) := BranchMapper.tracking_status self branch_info in
       OutputLine.columns line =
         [name]
         ++ (if (2 <=? BranchMapper.verbosity self)%nat then [hash_text] else [])
         ++ (if (1 <=? BranchMapper.verbosity self)%nat
             then [f; a; c; b; k] else [])
         ++ (if (2 <=? BranchMapper.verbosity self)%nat then [review] else [])
         ++ (if BranchMapper.show_subject self then [subject] else [])
       /\ OutputLine.separators line =
         [DEFAULT_SEPARATOR]
         ++ (if (2 <=? BranchMapper.verbosity self)%nat then [lit " "] else [])
         ++ (if (1 <=? BranchMapper.verbosity self)%nat
             then [lit " "; lit " "; lit " "; lit " "; DEFAULT_SEPARATOR]
             else [])
         ++ (if (2 <=? BranchMapper.verbosity self)%nat
             then [DEFAULT_SEPARATOR] else [])
         ++ (if BranchMapper.show_subject self
             then [DEFAULT_SEPARATOR] else []).
Proof.
  unfold BranchMapper.branch_line. intros H.
  bind_inv H. bind_inv H. bind_inv H.
  apply dict_item_Ok in Hstep.
  exists x.
  destruct (BranchMapper.tracking_status self x) as [[[[f a] c] b] k] eqn:Et.
  destruct (2 <=? BranchMapper.verbosity self)%nat eqn:E2,
           (1 <=? BranchMapper.verbosity self)%nat eqn:E1.
  - bind_inv Hstep1. destruct x2 as [url color].
    apply dict_item_Ok in Hstep2.
    inversion Hstep1; subst x1; clear Hstep1.
    eexists _, _,
      (if str_true url
       then match url with Some u => u | None => [] end
       else if BranchMapper.is_invalid_parent self branch
            then [] else lit "None"),
      (match git_common.run_log git branch with
       | Some s => s | None => [] end).
    split; [exact Hstep|]. split.
    + intros url' color' Hs Hu. rewrite Hs in Hstep2.
      inversion Hstep2; subst. rewrite Hu. reflexivity.
    + destruct (BranchMapper.show_subject self);
        [destruct (git_common.run_log git branch)|];
        inversion H; subst; simpl; split; reflexivity.
  - apply Nat.leb_le in E2. apply Nat.leb_gt in E1. lia.
  - inversion Hstep1; subst x1; clear Hstep1.
    eexists _, [], (if BranchMapper.is_invalid_parent self branch
                    then [] else lit "None"),
            (match git_common.run_log git branch with
             | Some s => s | None => [] end).
    split; [exact Hstep|]. split.
    + intros. reflexivity.
    + destruct (BranchMapper.show_subject self);
        [destruct (git_common.run_log git branch)|];
        inversion H; subst; simpl; split; reflexivity.
  - inversion Hstep1; subst x1; clear Hstep1.
    eexists _, [], (if BranchMapper.is_invalid_parent self branch
                    then [] else lit "None"),
            (match git_common.run_log git branch with
             | Some s => s | None => [] end).
    split; [exact Hstep|]. split.
    + intros. reflexivity.
    + destruct (BranchMapper.show_subject self);
        [destruct (git_common.run_log git branch)|];
        inversion H; subst; simpl; split; reflexivity.
Qed.

(** C8, as the code has it: at verbosity 2 or more, a row without a review
    URL shows None exactly when the node itself is neither the empty
    placeholder nor a gone upstream, and nothing exactly when it is one. *)
Theorem review_none_text (git : git_common.t) (self : BranchMapper.t)
        (branch : str) (depth : nat) (line : OutputLine.t)
        (url : option str) (color : str) :
  (2 <= BranchMapper.verbosity self)%nat ->
  dict_get (BranchMapper.status_info self) branch = Some (url, color) ->
  str_true url = false ->
  BranchMapper.branch_line git self branch depth = Ok line ->
  (review_column line = lit "None"
   <-> BranchMapper.is_invalid_parent self branch = false)
  /\ (review_column line = []
      <-> BranchMapper.is_invalid_parent self branch = true).
Proof.
  intros Hv Hstatus Hurl Hline.
  destruct (branch_line_cells _ _ _ _ _ Hline)
    as (bi & name & hash_text & review & subject & _ & Hreview & Hcells).
  specialize (Hreview _ _ Hstatus Hurl).
  destruct (BranchMapper.tracking_status self bi) as [[[[f a] c] b] k].
  destruct Hcells as [Hc _].
  assert (H1 : (1 <=? BranchMapper.verbosity self)%nat = true)
    by (apply Nat.leb_le; lia).
  apply Nat.leb_le in Hv.
  unfold review_column. rewrite Hc, Hv, H1. simpl. rewrite Hreview.
  destruct (BranchMapper.is_invalid_parent self branch);
    split; split; intros; try reflexivity; discriminate.
Qed.

Lemma review_none_text_witness :
  (2 <= BranchMapper.verbosity (Repo.state Repo.basic 2 true false))%nat
  /\ BranchMapper.is_invalid_parent (Repo.state Repo.basic 2 true false)
       (lit "missing") = true
  /\ review_column (Repo.row Repo.basic 2 "missing" 0) = [].
Proof.
  split; [by_vm|]. split; [by_vm|].
  apply (proj2 (review_none_text Repo.basic
                  (Repo.state Repo.basic 2 true false) (lit "missing") 0
                  (Repo.row Repo.basic 2 "missing" 0) None Fore.WHITE
                  ltac:(by_vm) ltac:(by_vm) eq_refl ltac:(by_vm))).
  by_vm.
Defined.

(** C8 as stated fails: the row of [lost], whose parent is gone, shows
    None. *)
Lemma review_none_ignores_parent :
  ~ (forall (git : git_common.t) (self : BranchMapper.t) (branch : str)
            (depth : nat) (info : BranchesInfo.t) (line : OutputLine.t)
            (url : option str) (color : str),
        (2 <= BranchMapper.verbosity self)%nat ->
        dict_get (BranchMapper.branches_info self) branch = Some (Some info) ->
        dict_get (BranchMapper.status_info self) branch = Some (url, color) ->
        str_true url = false ->
        BranchMapper.branch_line git self branch depth = Ok line ->
        (review_column line = lit "None"
         <-> BranchMapper.is_invalid_parent self
               (parent_of git (BranchMapper.branches_info self) branch info)
             = false)).
Proof.
  intros H.
  assert (Hfalse :
            BranchMapper.is_invalid_parent
              (Repo.state Repo.basic 2 true false) (lit "missing") = false).
  { apply (H Repo.basic (Repo.state Repo.basic 2 true false)
             (lit "lost") 1%nat
             (BranchesInfo.mk (lit "abe") (lit "missing") None None)
             (Repo.row Repo.basic 2 "lost" 1) None Fore.WHITE);
      by_vm. }
  vm_compute in Hfalse. discriminate Hfalse.
Qed.


(** ** Topology construction *)

(** C2, as the code has it: a recorded upstream with a BranchesInfo of its
    own is the parent, whatever git would resolve; a recorded upstream whose
    entry is empty is resolved again, and the resolved name, when there is
    one, is the parent and a root, else the recorded name is the parent, a
    root and gone; a recorded upstream that is no key raises KeyError. *)
Theorem parent_resolution (git : git_common.t) (self : BranchMapper.t)
        (roots : list str) (branch : str) (info : BranchesInfo.t) :
  let recorded := BranchesInfo.upstream info in
  let placed parent self' :=
    BranchMapper.with_parent_map self'
      (defaultdict_append (BranchMapper.parent_map self') parent branch) in
  (forall parent_info,
      dict_get (BranchMapper.branches_info self) recorded
      = Some (Some parent_info) ->
      BranchMapper.place_branch git (self, roots) (branch, Some info)
      = Ok (placed recorded self, roots))
  /\ (forall c u,
         dict_get (BranchMapper.branches_info self) recorded = Some None ->
         git_common.upstream git branch = Some (c :: u) ->
         BranchMapper.place_branch git (self, roots) (branch, Some info)
         = Ok (placed (c :: u) self, set_add (c :: u) roots))
  /\ (dict_get (BranchMapper.branches_info self) recorded = Some None ->
      str_true (git_common.upstream git branch) = false ->
      BranchMapper.place_branch git (self, roots) (branch, Some info)
      = Ok (placed recorded
              (BranchMapper.with_gone_branches self
                 (set_add recorded (BranchMapper.gone_branches self))),
            set_add recorded roots))
  /\ (dict_get (BranchMapper.branches_info self) recorded = None ->
      BranchMapper.place_branch git (self, roots) (branch, Some info)
      = Raise KeyError).
Proof.
  intros recorded placed. unfold BranchMapper.place_branch, dict_item.
  fold recorded. repeat split.
  - intros parent_info H. rewrite H. reflexivity.
  - intros c u H Hu. rewrite H. simpl. rewrite Hu. reflexivity.
  - intros H Hu. rewrite H. simpl. rewrite Hu. reflexivity.
  - intros H. rewrite H. reflexivity.
Qed.

Lemma parent_resolution_witness :
  dict_get (BranchMapper.branches_info (Repo.state Repo.moved 0 true false))
           (lit "origin/master") = Some None
  /\ BranchMapper.place_branch Repo.moved
       (BranchMapper.with_parent_map (Repo.state Repo.moved 0 true false) [],
        [])
       (lit "feature",
        Some (BranchesInfo.mk (lit "f1") (lit "origin/master") None None))
     = Ok (BranchMapper.with_parent_map (Repo.state Repo.moved 0 true false)
             [(lit "origin/main", [lit "feature"])],
           [lit "origin/main"]).
Proof.
  split; [by_vm|].
  exact (proj1 (proj2 (parent_resolution Repo.moved
           (BranchMapper.with_parent_map
              (Repo.state Repo.moved 0 true false) [])
           [] (lit "feature")
           (BranchesInfo.mk (lit "f1") (lit "origin/master") None None)))
         "o"%char (lit "rigin/main") ltac:(by_vm) ltac:(by_vm)).
Defined.

(** C2 as stated fails: origin/master is a key of the listing with an empty
    entry, and [feature] is filed under the upstream git resolves. *)
Lemma empty_entry_is_resolved_again :
  ~ (forall (git : git_common.t) (self : BranchMapper.t) (roots : list str)
            (branch : str) (info : BranchesInfo.t)
            (entry : option BranchesInfo.t),
        dict_get (BranchMapper.branches_info self)
                 (BranchesInfo.upstream info) = Some entry ->
        exists self' roots',
          BranchMapper.place_branch git (self, roots) (branch, Some info)
          = Ok (self', roots')
          /\ BranchMapper.parent_map self'
             = defaultdict_append (BranchMapper.parent_map self)
                 (BranchesInfo.upstream info) branch).
Proof.
  intros H.
  destruct (H Repo.moved
              (BranchMapper.with_parent_map
                 (Repo.state Repo.moved 0 true false) [])
              [] (lit "feature")
              (BranchesInfo.mk (lit "f1") (lit "origin/master") None None)
              None ltac:(by_vm)) as (self' & roots' & Hplace & Hmap).
  vm_compute in Hplace. inversion Hplace; subst self'.
  vm_compute in Hmap. discriminate Hmap.
Qed.

(** C9 fails on the code: git resolves the upstream of [feature] to
    [topic], a local branch with a BranchesInfo, and [start] makes [topic]
    a root. *)
Theorem resolved_local_parent_is_root :
  exists self,
    BranchMapper.build Repo.stale (BranchMapper.init 0 true None false)
    = Ok (self, [lit "topic"])
    /\ dict_get (BranchMapper.branches_info self) (lit "topic")
       = Some (Some (BranchesInfo.mk (lit "t1") (lit "feature") None None)).
Proof. exists (Repo.state Repo.stale 0 true false). split; by_vm. Qed.

(** C3 fails on the code: with [topic] both a root and a child of
    [feature], its row is appended twice. *)
Theorem root_with_parent_renders_twice :
  exists self,
    BranchMapper.start 4 Repo.stale (BranchMapper.init 0 true None false)
    = Some (Ok self)
    /\ map name_column (OutputManager.lines (BranchMapper.output self))
       = [lit "topic *"; lit "  feature"; lit "    topic *"].
Proof.
  exists (Repo.final 4 Repo.stale 0 true false). split; by_vm.
Qed.

(** C5 fails on the code: git resolves neither the empty upstream of
    [solo] nor upstream/main to a commit; the failure of [hash_one] is
    caught, but with the subject shown the failure of [run] on the same name
    is not, and without it the color of the row of upstream/main compares
    the current hash with [None]. *)
Theorem unresolved_hash_raises (fuel : nat) :
  (git_common.hash_one Repo.orphan [] = None
   /\ BranchMapper.start (S fuel) Repo.orphan
        (BranchMapper.init 0 true None true)
      = Some (Raise CalledProcessError))
  /\ (git_common.hash_one Repo.unresolved (lit "upstream/main") = None
      /\ BranchMapper.start (S fuel) Repo.unresolved
           (BranchMapper.init 0 true None false)
         = Some (Raise TypeError)).
Proof.
  split; (split; [by_vm|]); unfold BranchMapper.start.
  - replace (BranchMapper.build Repo.orphan
               (BranchMapper.init 0 true None true))
      with (Ok (Repo.state Repo.orphan 0 true true, [@nil ascii])) by by_vm.
    cbn [sorted insert_sorted BranchMapper.for_each BranchMapper.append_branch].
    replace (BranchMapper.branch_line Repo.orphan
               (Repo.state Repo.orphan 0 true true) [] 0)
      with (@Raise OutputLine.t CalledProcessError) by by_vm.
    reflexivity.
  - replace (BranchMapper.build Repo.unresolved
               (BranchMapper.init 0 true None false))
      with (Ok (Repo.state Repo.unresolved 0 true false,
                [lit "upstream/main"])) by by_vm.
    cbn [sorted insert_sorted BranchMapper.for_each BranchMapper.append_branch].
    replace (BranchMapper.branch_line Repo.unresolved
               (Repo.state Repo.unresolved 0 true false)
               (lit "upstream/main") 0)
      with (@Raise OutputLine.t TypeError) by by_vm.
    reflexivity.
Qed.

(** ** Column counts *)

Lemma row_width_pos (v : nat) (subject : bool) : row_width v subject <> 0%nat.
Proof. unfold row_width. lia. Qed.

Lemma branch_line_width (git : git_common.t) (self : BranchMapper.t)
      (branch : str) (depth : nat) (line : OutputLine.t) :
  BranchMapper.branch_line git self branch depth = Ok line ->
  List.length (OutputLine.columns line)
  = row_width (BranchMapper.verbosity self) (BranchMapper.show_subject self).
Proof.
  intros H.
  destruct (branch_line_cells _ _ _ _ _ H)
    as (bi & name & hash_text & review & subject & _ & _ & Hcells).
  destruct (BranchMapper.tracking_status self bi) as [[[[f a] c] b] k].
  destruct Hcells as [Hc _]. rewrite Hc. unfold row_width.
  destruct (2 <=? BranchMapper.verbosity self)%nat,
           (1 <=? BranchMapper.verbosity self)%nat,
           (BranchMapper.show_subject self); reflexivity.
Qed.

Lemma update_max_length (cols : list str) :
  forall maxl, List.length maxl = List.length cols ->
  exists maxl', OutputManager.update_max maxl cols = Ok maxl'
                /\ List.length maxl' = List.length cols.
Proof.
  induction cols as [|col cols IH]; intros [|m maxl] Hlen;
    simpl in *; try discriminate.
  - exists []. split; reflexivity.
  - injection Hlen as Hlen. destruct (IH _ Hlen) as (rest & Hrest & Hl).
    rewrite Hrest. simpl. eexists. split; [reflexivity|]. simpl. now rewrite Hl.
Qed.

(** Appending a row of the manager's width succeeds and stores the row. *)
Lemma append_tidy (n : nat) (o : OutputManager.t) (line : OutputLine.t) :
  n <> 0%nat ->
  tidy n o ->
  List.length (OutputLine.columns line) = n ->
  exists o',
    OutputManager.append o line = Ok o'
    /\ tidy n o'
    /\ OutputManager.nocolor o' = OutputManager.nocolor o
    /\ OutputManager.lines o'
       = OutputManager.lines o ++ [stored (OutputManager.nocolor o) line].
Proof.
  intros Hn [Hall Hnum] Hlen. unfold OutputManager.append.
  assert (Hcase :
            (if OutputManager.no_columns (OutputManager.num_columns o)
             then (List.length (OutputLine.columns line),
                   repeat 0%nat (List.length (OutputLine.columns line)))
             else (match OutputManager.num_columns o with
                   | Some k => k | None => 0%nat end,
                   OutputManager.max_column_lengths o))
            = (n, if OutputManager.no_columns (OutputManager.num_columns o)
                  then repeat 0%nat n
                  else OutputManager.max_column_lengths o)).
  { destruct Hnum as [-> | [-> _]]; simpl.
    - now rewrite Hlen.
    - destruct (n =? 0)%nat; now rewrite ?Hlen. }
  rewrite Hcase, Hlen, Nat.eqb_refl. simpl.
  set (maxl := if OutputManager.no_columns (OutputManager.num_columns o)
               then repeat 0%nat n else OutputManager.max_column_lengths o).
  assert (Hmaxl : List.length maxl = List.length (OutputLine.columns line)).
  { subst maxl. rewrite Hlen. destruct Hnum as [-> | [-> Hm]]; simpl.
    - apply repeat_length.
    - destruct (n =? 0)%nat; [apply repeat_length | exact Hm]. }
  assert (Hcols :
            OutputLine.columns
              (if OutputManager.nocolor o
               then OutputLine.mk (OutputLine.columns line)
                      (OutputLine.separators line) (repeat [] n)
               else line) = OutputLine.columns line)
    by (destruct (OutputManager.nocolor o); reflexivity).
  rewrite Hcols.
  destruct (update_max_length _ _ Hmaxl) as (maxl' & Hup & Hl').
  rewrite Hup. simpl. eexists. split; [reflexivity|].
  split; [|split]; simpl.
  - split; simpl.
    + apply Forall_app. split; [exact Hall|].
      constructor; [|constructor]. now rewrite Hcols.
    + right. split; [reflexivity | congruence].
  - reflexivity.
  - unfold stored. now rewrite Hlen.
Qed.

(** An append that raises does so on the column count. *)
Lemma append_raises (o : OutputManager.t) (line : OutputLine.t) (e : exn) :
  OutputManager.append o line = Raise e ->
  forall n, n <> 0%nat -> tidy n o ->
  List.length (OutputLine.columns line) <> n.
Proof.
  intros H n Hn Ht Hlen.
  destruct (append_tidy n o line Hn Ht Hlen) as (o' & Ho & _). congruence.
Qed.

(** ** The traversal follows the walk *)

Lemma branch_line_view (git : git_common.t) (s1 s2 : BranchMapper.t)
      (branch : str) (depth : nat) :
  view s1 = view s2 ->
  BranchMapper.branch_line git s1 branch depth
  = BranchMapper.branch_line git s2 branch depth.
Proof.
  destruct s1, s2. unfold view. simpl. intros H.
  inversion H; subst. reflexivity.
Qed.

Lemma width_view (s1 s2 : BranchMapper.t) :
  view s1 = view s2 -> width s1 = width s2.
Proof.
  destruct s1, s2. unfold view, width. simpl. intros H.
  inversion H; subst. reflexivity.
Qed.

Lemma nocolor_view (s1 s2 : BranchMapper.t) :
  view s1 = view s2 ->
  OutputManager.nocolor (BranchMapper.output s1)
  = OutputManager.nocolor (BranchMapper.output s2).
Proof. unfold view. intros H. now inversion H. Qed.

Lemma rows_of_view (git : git_common.t) (s1 s2 : BranchMapper.t)
      (visits : list (str * nat)) (rows : list OutputLine.t) :
  view s1 = view s2 -> rows_of git s1 visits rows -> rows_of git s2 visits rows.
Proof.
  intros Hv H. unfold rows_of in *.
  eapply Forall2_impl; [|exact H]. intros v l (line & Hl & ->).
  exists line. rewrite <- (branch_line_view git s1 s2), <- (nocolor_view s1 s2);
    auto.
Qed.

Lemma simulates_each (git : git_common.t)
      (body : BranchMapper.t -> str -> option (result BranchMapper.t))
      (wbody : dict (list str) -> str ->
               option (list (str * nat) * dict (list str))) :
  (forall self c r,
      tidy (width self) (BranchMapper.output self) ->
      body self c = Some r ->
      simulates git self (wbody (BranchMapper.parent_map self) c) r) ->
  forall cs self r,
    tidy (width self) (BranchMapper.output self) ->
    BranchMapper.for_each body cs self = Some r ->
    simulates git self (walk_each wbody cs (BranchMapper.parent_map self)) r.
Proof.
  intros Hbody. induction cs as [|c cs IH]; intros self r Ht H; simpl in H.
  - inversion H; subst. unfold simulates. simpl.
    split; [reflexivity|]. split; [exact Ht|].
    exists [], []. rewrite app_nil_r. repeat split. constructor.
  - destruct (body self c) as [[self1|e]|] eqn:Eb; try discriminate.
    + pose proof (Hbody _ _ _ Ht Eb) as H1. unfold simulates in H1.
      destruct H1 as (Hv1 & Ht1 & vs1 & rows1 & Hw1 & Hl1 & Hr1).
      rewrite <- (width_view _ _ Hv1) in Ht1.
      pose proof (IH _ _ Ht1 H) as H2. unfold simulates in *.
      destruct r as [self'|e]; [|exact H2]. simpl.
      destruct H2 as (Hv2 & Ht2 & vs2 & rows2 & Hw2 & Hl2 & Hr2).
      rewrite Hw1, Hw2.
      split; [congruence|]. split; [now rewrite <- (width_view _ _ Hv1)|].
      exists (vs1 ++ vs2), (rows1 ++ rows2). split; [reflexivity|].
      split; [rewrite Hl2, Hl1; now rewrite app_assoc|].
      apply Forall2_app; [exact Hr1|].
      exact (rows_of_view _ _ _ _ _ Hv1 Hr2).
    + inversion H; subst. exact (Hbody _ _ _ Ht Eb).
Qed.

(** Building a row does not fail on an assertion. *)
Lemma branch_line_no_assertion (git : git_common.t) (self : BranchMapper.t)
      (branch : str) (depth : nat) :
  BranchMapper.branch_line git self branch depth <> Raise AssertionError.
Proof.
  unfold BranchMapper.branch_line, BranchMapper.color_for_branch, dict_item,
    bind.
  repeat (cbv beta iota zeta;
          match goal with
          | |- context [match ?x with _ => _ end] =>
              lazymatch x with
              | context [match _ with _ => _ end] => fail
              | _ => destruct x
              end
          end);
    cbv beta iota zeta; discriminate.
Qed.

Lemma simulates_append_branch (git : git_common.t) :
  forall fuel self branch depth r,
    tidy (width self) (BranchMapper.output self) ->
    BranchMapper.append_branch fuel git self branch depth = Some r ->
    simulates git self (walk fuel (BranchMapper.parent_map self) branch depth)
              r.
Proof.
  induction fuel as [|fuel IH]; intros self branch depth r Ht H;
    simpl in H; [discriminate|].
  destruct (BranchMapper.branch_line git self branch depth)
    as [line|e] eqn:El.
  - pose proof (branch_line_width _ _ _ _ _ El) as Hw.
    destruct (OutputManager.append (BranchMapper.output self) line)
      as [out|e] eqn:Ea.
    + destruct (append_tidy _ _ _ (row_width_pos _ _) Ht Hw)
        as (o' & Ho' & Ht' & Hnc & Hlines).
      rewrite Ea in Ho'. inversion Ho'; subst o'; clear Ho'.
      simpl in H.
      set (self1 :=
             BranchMapper.with_parent_map (BranchMapper.with_output self out)
               (dict_remove (BranchMapper.parent_map self) branch)) in *.
      assert (Hv1 : view self1 = view self).
      { unfold view, self1. simpl. now rewrite Hnc. }
      assert (Ht1 : tidy (width self1) (BranchMapper.output self1)).
      { rewrite (width_view _ _ Hv1). exact Ht'. }
      pose proof (simulates_each git _
                    (fun pm child => walk fuel pm child (S depth))
                    (fun s c r' Hs Hb => IH s c (S depth) r' Hs Hb)
                    _ _ _ Ht1 H) as Hsim.
      unfold simulates in *.
      destruct r as [self'|e]; [|exact Hsim]. simpl.
      destruct Hsim as (Hv2 & Ht2 & vs & rows & Hwalk & Hl & Hr).
      cbn [walk]. unfold dict_pop.
      change (dict_remove (BranchMapper.parent_map self) branch)
        with (BranchMapper.parent_map self1).
      rewrite Hwalk.
      split; [congruence|]. split; [now rewrite <- (width_view _ _ Hv1)|].
      exists ((branch, depth) :: vs),
             (stored (OutputManager.nocolor (BranchMapper.output self)) line
              :: rows).
      split; [reflexivity|]. split.
      * rewrite Hl. simpl. rewrite Hlines, <- app_assoc. reflexivity.
      * constructor; [exists line; split; [exact El | reflexivity]|].
        exact (rows_of_view _ _ _ _ _ Hv1 Hr).
    + inversion H; subst. unfold simulates. intros ->.
      eapply append_raises; eauto using row_width_pos.
  - inversion H; subst. unfold simulates. intros ->.
    exact (branch_line_no_assertion _ _ _ _ El).
Qed.

(** ** What [start] leaves of the mapper before it renders *)

Lemma place_branch_frame (git : git_common.t) (self self' : BranchMapper.t)
      (roots roots' : list str) (item : str * option BranchesInfo.t) :
  BranchMapper.place_branch git (self, roots) item = Ok (self', roots') ->
  BranchMapper.verbosity self' = BranchMapper.verbosity self
  /\ BranchMapper.show_subject self' = BranchMapper.show_subject self
  /\ BranchMapper.output self' = BranchMapper.output self
  /\ BranchMapper.branches_info self' = BranchMapper.branches_info self.
Proof.
  unfold BranchMapper.place_branch. destruct item as [branch [info|]].
  - intros H. bind_inv H. destruct x as [p|].
    + inversion H; subst. repeat split.
    + destruct (str_true (git_common.upstream git branch));
        inversion H; subst; repeat split.
  - intros H. inversion H; subst. repeat split.
Qed.

Lemma place_branches_frame (git : git_common.t)
      (items : dict (option BranchesInfo.t)) :
  forall self roots self' roots',
    BranchMapper.place_branches git (self, roots) items = Ok (self', roots') ->
    BranchMapper.verbosity self' = BranchMapper.verbosity self
    /\ BranchMapper.show_subject self' = BranchMapper.show_subject self
    /\ BranchMapper.output self' = BranchMapper.output self
    /\ BranchMapper.branches_info self' = BranchMapper.branches_info self.
Proof.
  induction items as [|item items IH]; intros self roots self' roots' H;
    simpl in H.
  - inversion H; subst. repeat split.
  - bind_inv H. destruct x as [self1 roots1].
    destruct (place_branch_frame _ _ _ _ _ _ Hstep) as (H1 & H2 & H3 & H4).
    destruct (IH _ _ _ _ H) as (H5 & H6 & H7 & H8).
    repeat split; congruence.
Qed.

(** [start] builds the topology from the bulk listing and an empty parent
    map, and leaves the configuration and the OutputManager as they are. *)
Lemma build_frame (git : git_common.t) (self self' : BranchMapper.t)
      (roots : list str) :
  BranchMapper.build git self = Ok (self', roots) ->
  BranchMapper.verbosity self' = BranchMapper.verbosity self
  /\ BranchMapper.show_subject self' = BranchMapper.show_subject self
  /\ BranchMapper.output self' = BranchMapper.output self
  /\ BranchMapper.branches_info self'
     = git_common.get_branches_info git (1 <=? BranchMapper.verbosity self)%nat
  /\ exists self0 self1,
      BranchMapper.place_branches git (self0, [])
        (git_common.get_branches_info git
           (1 <=? BranchMapper.verbosity self)%nat) = Ok (self1, roots)
      /\ BranchMapper.branches_info self0
         = git_common.get_branches_info git
             (1 <=? BranchMapper.verbosity self)%nat
      /\ BranchMapper.parent_map self0 = BranchMapper.parent_map self
      /\ BranchMapper.gone_branches self0 = BranchMapper.gone_branches self
      /\ BranchMapper.parent_map self' = BranchMapper.parent_map self1
      /\ BranchMapper.gone_branches self' = BranchMapper.gone_branches self1.
Proof.
  unfold BranchMapper.build. intros H. bind_inv H. bind_inv H.
  destruct x0 as [self1 roots1].
  destruct (git_common.hash_one git (lit "HEAD")); [|discriminate].
  inversion H; subst; clear H. cbn -[Nat.leb Nat.ltb].
  assert (Hx : BranchMapper.verbosity x = BranchMapper.verbosity self
               /\ BranchMapper.show_subject x = BranchMapper.show_subject self
               /\ BranchMapper.output x = BranchMapper.output self
               /\ BranchMapper.branches_info x
                  = git_common.get_branches_info git
                      (1 <=? BranchMapper.verbosity self)%nat
               /\ BranchMapper.parent_map x = BranchMapper.parent_map self
               /\ BranchMapper.gone_branches x
                  = BranchMapper.gone_branches self).
  { cbn -[Nat.leb Nat.ltb] in Hstep.
    destruct (2 <=? BranchMapper.verbosity self)%nat.
    - bind_inv Hstep. inversion Hstep; subst. repeat split.
    - inversion Hstep; subst. repeat split. }
  destruct Hx as (X1 & X2 & X3 & X4 & X5 & X6).
  destruct (place_branches_frame _ _ _ _ _ _ Hstep0) as (H1 & H2 & H3 & H4).
  clear Hstep.
  split; [now rewrite H1|]. split; [now rewrite H2|].
  split; [now rewrite H3|]. split; [now rewrite H4|].
  exists x, self1. rewrite <- X4. repeat split; auto.
Qed.

Lemma tidy_init (n : nat) (nocolor : bool) :
  tidy n (OutputManager.set_nocolor OutputManager.init nocolor).
Proof. split; [constructor | left; reflexivity]. Qed.

(** The rendering of [start] from a mapper whose manager is empty. *)
Lemma start_simulates (fuel : nat) (git : git_common.t)
      (self self' : BranchMapper.t) (c : str) (roots : list str)
      (r : result BranchMapper.t) :
  BranchMapper.build git self = Ok (self', c :: roots) ->
  tidy (width self') (BranchMapper.output self') ->
  BranchMapper.start fuel git self = Some r ->
  simulates git self'
    (walk_each (fun pm root => walk fuel pm root 0) (sorted (c :: roots))
       (BranchMapper.parent_map self')) r.
Proof.
  intros Hb Ht. unfold BranchMapper.start. rewrite Hb. intros H.
  eapply (simulates_each git
            (fun s root => BranchMapper.append_branch fuel git s root 0)
            (fun pm root => walk fuel pm root 0)); eauto.
  intros s root r' Hs Hr. now apply simulates_append_branch.
Qed.

Lemma start_sentinel (fuel : nat) (git : git_common.t)
      (self self' : BranchMapper.t) :
  BranchMapper.build git self = Ok (self', []) ->
  BranchMapper.start fuel git self
  = match OutputManager.append (BranchMapper.output self') sentinel_row with
    | Raise e => Some (Raise e)
    | Ok out => Some (Ok (BranchMapper.with_output self' out))
    end.
Proof. intros Hb. unfold BranchMapper.start. rewrite Hb. reflexivity. Qed.

Lemma drain_statuses_raises (f : str -> str) (n : nat) :
  forall it d e,
    BranchMapper.drain_statuses n it f d = Raise e -> e = StopIteration.
Proof.
  induction n as [|n IH]; intros it d e H; simpl in H; [discriminate|].
  destruct it as [|[[branch url] status] it]; [now inversion H|].
  eapply IH; eauto.
Qed.

Lemma place_branches_raises (git : git_common.t)
      (items : dict (option BranchesInfo.t)) :
  forall st e,
    BranchMapper.place_branches git st items = Raise e -> e = KeyError.
Proof.
  induction items as [|item items IH]; intros st e H; simpl in H;
    [discriminate|].
  destruct (BranchMapper.place_branch git st item) as [st'|e'] eqn:Ep;
    simpl in H; [eapply IH; eauto|].
  inversion H; subst. clear - Ep.
  unfold BranchMapper.place_branch, dict_item in Ep.
  destruct st as [self roots], item as [branch [info|]]; [|discriminate].
  destruct (dict_get (BranchMapper.branches_info self)
              (BranchesInfo.upstream info)) as [[p|]|]; simpl in Ep.
  - discriminate.
  - destruct (str_true (git_common.upstream git branch)); discriminate.
  - now inversion Ep.
Qed.

(** The topology construction does not fail on an assertion. *)
Lemma build_no_assertion (git : git_common.t) (self : BranchMapper.t) :
  BranchMapper.build git self <> Raise AssertionError.
Proof.
  unfold BranchMapper.build. intros H.
  match type of H with
  | bind ?r _ = _ => destruct r as [self1|e] eqn:E1; simpl in H
  end.
  - match type of H with
    | bind ?r _ = _ => destruct r as [[self2 roots]|e] eqn:E2; simpl in H
    end.
    + destruct (git_common.hash_one git _); discriminate.
    + inversion H; subst. apply place_branches_raises in E2. discriminate.
  - inversion H; subst. clear H.
    destruct (2 <=? _)%nat in E1; [|discriminate].
    match type of E1 with
    | bind ?r _ = _ => destruct r as [d|e] eqn:E3; simpl in E1
    end; [discriminate|].
    inversion E1; subst. apply drain_statuses_raises in E3. discriminate.
Qed.

(** C6: a run of [start] never fails the column-count assertion of
    [OutputManager.append], and all the rows it stores have the same number
    of cells. *)
Theorem column_counts_agree (fuel : nat) (git : git_common.t) (v : nat)
        (nocolor : bool) (jobs : option nat) (subject : bool) :
  BranchMapper.start fuel git (BranchMapper.init v nocolor jobs subject)
  <> Some (Raise AssertionError)
  /\ forall self,
      BranchMapper.start fuel git (BranchMapper.init v nocolor jobs subject)
      = Some (Ok self) ->
      exists n,
        Forall (fun l => List.length (OutputLine.columns l) = n)
               (OutputManager.lines (BranchMapper.output self)).
Proof.
  set (self0 := BranchMapper.init v nocolor jobs subject).
  assert (Hall : forall r, BranchMapper.start fuel git self0 = Some r ->
                 match r with
                 | Ok self =>
                     exists n,
                       Forall (fun l => List.length (OutputLine.columns l) = n)
                         (OutputManager.lines (BranchMapper.output self))
                 | Raise e => e <> AssertionError
                 end).
  { intros r Hr.
    destruct (BranchMapper.build git self0) as [[self' roots]|e] eqn:Eb.
    - destruct (build_frame _ _ _ _ Eb) as (_ & _ & Hout & _).
      assert (Ht : forall n, tidy n (BranchMapper.output self')).
      { intros n. rewrite Hout. apply tidy_init. }
      destruct roots as [|c roots].
      + rewrite (start_sentinel _ _ _ _ Eb) in Hr.
        destruct (append_tidy 1 (BranchMapper.output self') sentinel_row
                    ltac:(lia) (Ht 1%nat) eq_refl)
          as (o' & Ho' & [Hf _] & _).
        rewrite Ho' in Hr. inversion Hr; subst. exists 1%nat. exact Hf.
      + pose proof (start_simulates _ _ _ _ _ _ _ Eb (Ht _) Hr) as Hs.
        unfold simulates in Hs. destruct r as [self|e]; [|exact Hs].
        destruct Hs as (_ & [Hf _] & _). eexists. exact Hf.
    - unfold BranchMapper.start in Hr. rewrite Eb in Hr.
      inversion Hr; subst. intros ->.
      exact (build_no_assertion _ _ Eb). }
  split.
  - intros H. exact (Hall _ H eq_refl).
  - intros self H. exact (Hall _ H).
Qed.

Lemma column_counts_agree_witness :
  BranchMapper.start 5 Repo.basic (BranchMapper.init 2 false None false)
  = Some (Ok (Repo.final 5 Repo.basic 2 false false))
  /\ exists n,
      Forall (fun l => List.length (OutputLine.columns l) = n)
             (OutputManager.lines
                (BranchMapper.output (Repo.final 5 Repo.basic 2 false false))).
Proof.
  assert (H : BranchMapper.start 5 Repo.basic
                (BranchMapper.init 2 false None false)
              = Some (Ok (Repo.final 5 Repo.basic 2 false false))) by by_vm.
  split; [exact H|].
  pose proof (column_counts_agree 5 Repo.basic 2 false None false) as [_ W].
  exact (W (Repo.final 5 Repo.basic 2 false false) H).
Defined.

(** ** Sorting and dictionaries *)

Lemma insert_sorted_perm (x : str) (l : list str) :
  Permutation (insert_sorted x l) (x :: l).
Proof.
  induction l as [|y l IH]; simpl; [reflexivity|].
  destruct (str_leb x y); [reflexivity|].
  rewrite IH. apply perm_swap.
Qed.

Lemma sorted_perm (l : list str) : Permutation (sorted l) l.
Proof.
  induction l as [|x l IH]; simpl; [reflexivity|].
  rewrite insert_sorted_perm. now constructor.
Qed.

Lemma dict_get_In {V : Type} (d : dict V) (k : str) (v : V) :
  dict_get d k = Some v -> In (k, v) d.
Proof.
  induction d as [|[k' v'] d IH]; simpl; [discriminate|].
  destruct (str_eqb k k') eqn:E.
  - apply str_eqb_eq in E. intros H. inversion H; subst. now left.
  - intros H. right. auto.
Qed.

Lemma dict_get_None {V : Type} (d : dict V) (k : str) :
  dict_get d k = None <-> ~ In k (keys d).
Proof.
  induction d as [|[k' v'] d IH]; simpl; [tauto|].
  destruct (str_eqb k k') eqn:E.
  - apply str_eqb_eq in E. subst. split; [discriminate | tauto].
  - apply str_eqb_neq in E. rewrite IH. split; [|tauto].
    intros H [Hk|Hk]; [congruence | tauto].
Qed.

Lemma In_dict_get {V : Type} (d : dict V) (k : str) (v : V) :
  NoDup (keys d) -> In (k, v) d -> dict_get d k = Some v.
Proof.
  induction d as [|[k' v'] d IH]; simpl; [tauto|].
  intros Hnd [H|H].
  - inversion H; subst. now rewrite str_eqb_refl.
  - inversion Hnd as [|? ? Hnotin Hnd']; subst.
    destruct (str_eqb k k') eqn:E; [|auto].
    apply str_eqb_eq in E. subst. exfalso. apply Hnotin.
    apply in_map_iff. exists (k', v). split; auto.
Qed.

Lemma keys_dict_set {V : Type} (d : dict V) (k : str) (v : V) :
  keys (dict_set d k v) = if mem k (keys d) then keys d else keys d ++ [k].
Proof.
  induction d as [|[k' v'] d IH]; simpl; [reflexivity|].
  destruct (str_eqb k k') eqn:E; simpl; [reflexivity|].
  rewrite IH. fold (mem k (keys d)). now destruct (mem k (keys d)).
Qed.

Lemma NoDup_snoc (x : str) (l : list str) :
  NoDup l -> ~ In x l -> NoDup (l ++ [x]).
Proof.
  intros Hl Hx. apply (Permutation_NoDup (l := x :: l)).
  - rewrite Permutation_app_comm. reflexivity.
  - now constructor.
Qed.

Lemma NoDup_keys_dict_set {V : Type} (d : dict V) (k : str) (v : V) :
  NoDup (keys d) -> NoDup (keys (dict_set d k v)).
Proof.
  intros H. rewrite keys_dict_set. destruct (mem k (keys d)) eqn:E; auto.
  apply NoDup_snoc; auto. now apply mem_not_In.
Qed.

Lemma NoDup_set_add (x : str) (s : list str) :
  NoDup s -> NoDup (set_add x s).
Proof.
  intros H. unfold set_add. destruct (mem x s) eqn:E; auto.
  apply NoDup_snoc; auto. now apply mem_not_In.
Qed.

Lemma In_set_add (x y : str) (s : list str) :
  In y (set_add x s) <-> y = x \/ In y s.
Proof.
  unfold set_add. destruct (mem x s) eqn:E.
  - apply mem_In in E. split; [tauto|]. intros [->|H]; auto.
  - rewrite in_app_iff. simpl. split; [intros [H|[H|[]]]; auto | ].
    intros [->|H]; auto.
Qed.

(** A key that is present splits the dictionary at its first entry. *)
Lemma dict_get_split {V : Type} (d : dict V) (k : str) (v : V) :
  dict_get d k = Some v ->
  exists d1 d2, d = d1 ++ (k, v) :: d2 /\ ~ In k (keys d1).
Proof.
  induction d as [|[k' v'] d IH]; simpl; [discriminate|].
  destruct (str_eqb k k') eqn:E.
  - apply str_eqb_eq in E. intros H. inversion H; subst.
    exists [], d. split; [reflexivity | simpl; tauto].
  - apply str_eqb_neq in E. intros H.
    destruct (IH H) as (d1 & d2 & -> & Hk).
    exists ((k', v') :: d1), d2. split; [reflexivity|].
    simpl. intros [Hc|Hc]; [congruence | tauto].
Qed.

Lemma dict_set_absent {V : Type} (d : dict V) (k : str) (v : V) :
  ~ In k (keys d) -> dict_set d k v = d ++ [(k, v)].
Proof.
  induction d as [|[k' v'] d IH]; simpl; [reflexivity|].
  intros H. destruct (str_eqb k k') eqn:E.
  - apply str_eqb_eq in E. subst. tauto.
  - rewrite IH; [reflexivity | tauto].
Qed.

Lemma dict_set_present {V : Type} (d1 d2 : dict V) (k : str) (v0 v : V) :
  ~ In k (keys d1) ->
  dict_set (d1 ++ (k, v0) :: d2) k v = d1 ++ (k, v) :: d2.
Proof.
  induction d1 as [|[k' v'] d1 IH]; simpl.
  - now rewrite str_eqb_refl.
  - intros H. destruct (str_eqb k k') eqn:E.
    + apply str_eqb_eq in E. subst. tauto.
    + rewrite IH; [reflexivity | tauto].
Qed.

Lemma dict_remove_absent {V : Type} (d : dict V) (k : str) :
  ~ In k (keys d) -> dict_remove d k = d.
Proof.
  induction d as [|[k' v'] d IH]; simpl; [reflexivity|].
  intros H. destruct (str_eqb k k') eqn:E; simpl.
  - apply str_eqb_eq in E. subst. tauto.
  - f_equal. apply IH. tauto.
Qed.

Lemma dict_remove_app {V : Type} (d1 d2 : dict V) (k : str) :
  dict_remove (d1 ++ d2) k = dict_remove d1 k ++ dict_remove d2 k.
Proof. unfold dict_remove. apply filter_app. Qed.

Lemma keys_app {V : Type} (d1 d2 : dict V) :
  keys (d1 ++ d2) = keys d1 ++ keys d2.
Proof. unfold keys. apply map_app. Qed.

Lemma dict_remove_present {V : Type} (d1 d2 : dict V) (k : str) (v : V) :
  NoDup (keys (d1 ++ (k, v) :: d2)) ->
  dict_remove (d1 ++ (k, v) :: d2) k = d1 ++ d2.
Proof.
  intros Hnd. rewrite keys_app in Hnd. simpl in Hnd.
  apply NoDup_remove in Hnd. destruct Hnd as [_ Hk].
  rewrite in_app_iff in Hk.
  rewrite dict_remove_app. simpl. unfold dict_remove at 2. simpl.
  rewrite str_eqb_refl. simpl.
  fold (dict_remove d2 k).
  rewrite !dict_remove_absent; tauto.
Qed.

Lemma keys_dict_remove {V : Type} (d : dict V) (k k' : str) :
  In k' (keys (dict_remove d k)) <-> k' <> k /\ In k' (keys d).
Proof.
  induction d as [|[k0 v0] d IH]; simpl; [tauto|].
  destruct (str_eqb k k0) eqn:E; simpl.
  - apply str_eqb_eq in E. subst k0. rewrite IH. split; [tauto|].
    intros [Hne [H|H]]; [congruence | tauto].
  - apply str_eqb_neq in E. rewrite IH. split.
    + intros [H|H]; [subst; split; [congruence | tauto] | tauto].
    + tauto.
Qed.

Lemma NoDup_keys_dict_remove {V : Type} (d : dict V) (k : str) :
  NoDup (keys d) -> NoDup (keys (dict_remove d k)).
Proof.
  induction d as [|[k0 v0] d IH]; simpl; [auto|].
  intros H. inversion H as [|? ? Hn Hd]; subst.
  destruct (str_eqb k k0); simpl; [auto|].
  constructor; [|auto]. rewrite keys_dict_remove. tauto.
Qed.

Lemma dict_remove_incl {V : Type} (d : dict V) (k : str) :
  incl (dict_remove d k) d.
Proof. intros x H. unfold dict_remove in H. apply filter_In in H. tauto. Qed.

Lemma all_children_app (d1 d2 : dict (list str)) :
  all_children (d1 ++ d2) = all_children d1 ++ all_children d2.
Proof. unfold all_children. now rewrite map_app, concat_app. Qed.

(** A child is a child of the entry it is listed in. *)
Lemma In_all_children (pm : dict (list str)) (b : str) :
  In b (all_children pm) <-> exists p l, In (p, l) pm /\ In b l.
Proof.
  unfold all_children. rewrite in_concat. split.
  - intros (l & Hl & Hb). apply in_map_iff in Hl.
    destruct Hl as ([p l'] & <- & Hin). eauto.
  - intros (p & l & Hin & Hb). exists l. split; [|exact Hb].
    apply in_map_iff. exists (p, l). auto.
Qed.

(** Popping a key takes its children out of the map and nothing else. *)
Lemma dict_pop_children (pm : dict (list str)) (k : str) :
  NoDup (keys pm) ->
  Permutation (all_children pm)
              (fst (dict_pop pm k) ++ all_children (snd (dict_pop pm k))).
Proof.
  intros Hnd. unfold dict_pop. simpl.
  destruct (dict_get pm k) as [v|] eqn:E.
  - destruct (dict_get_split _ _ _ E) as (d1 & d2 & -> & Hk).
    rewrite (dict_remove_present _ _ _ _ Hnd), !all_children_app.
    unfold all_children at 2. simpl. fold (all_children d2).
    rewrite Permutation_app_comm, <- app_assoc.
    apply Permutation_app_head. apply Permutation_app_comm.
  - apply dict_get_None in E. now rewrite dict_remove_absent.
Qed.

(** Appending a child adds it to the map and nothing else. *)
Lemma defaultdict_append_children (pm : dict (list str)) (k x : str) :
  Permutation (all_children (defaultdict_append pm k x))
              (x :: all_children pm).
Proof.
  unfold defaultdict_append. destruct (dict_get pm k) as [v|] eqn:E.
  - destruct (dict_get_split _ _ _ E) as (d1 & d2 & -> & Hk).
    rewrite (dict_set_present _ _ _ _ _ Hk), !all_children_app.
    unfold all_children at 2 4. simpl.
    fold (all_children d2). symmetry.
    replace (all_children d1 ++ (v ++ [x]) ++ all_children d2)
      with ((all_children d1 ++ v) ++ x :: all_children d2)
      by (now rewrite <- !app_assoc).
    apply Permutation_cons_app. now rewrite <- app_assoc.
  - apply dict_get_None in E. rewrite (dict_set_absent _ _ _ E).
    rewrite all_children_app. unfold all_children at 2. simpl.
    rewrite Permutation_app_comm. reflexivity.
Qed.

Lemma defaultdict_append_entries (pm : dict (list str)) (k x : str)
      (p : str) (l : list str) (b : str) :
  In (p, l) (defaultdict_append pm k x) -> In b l ->
  (b = x /\ p = k) \/ (exists l0, In (p, l0) pm /\ In b l0).
Proof.
  unfold defaultdict_append. destruct (dict_get pm k) as [v|] eqn:E.
  - destruct (dict_get_split _ _ _ E) as (d1 & d2 & -> & Hk).
    rewrite (dict_set_present _ _ _ _ _ Hk).
    rewrite !in_app_iff. simpl. intros [H|[H|H]] Hb.
    + right. exists l. rewrite in_app_iff. auto.
    + inversion H; subst. apply in_app_iff in Hb. destruct Hb as [Hb|[Hb|[]]].
      * right. exists v. rewrite in_app_iff. simpl. auto.
      * left. auto.
    + right. exists l. rewrite in_app_iff. simpl. auto.
  - apply dict_get_None in E. rewrite (dict_set_absent _ _ _ E).
    rewrite in_app_iff. simpl. intros [H|[H|[]]] Hb.
    + right. eauto.
    + inversion H; subst. destruct Hb as [Hb|[]]. left. auto.
Qed.

Lemma NoDup_keys_defaultdict_append (pm : dict (list str)) (k x : str) :
  NoDup (keys pm) -> NoDup (keys (defaultdict_append pm k x)).
Proof.
  intros H. unfold defaultdict_append.
  destruct (dict_get pm k); now apply NoDup_keys_dict_set.
Qed.

(** ** The walk over the forest *)

Lemma incl_keys {V : Type} (d1 d2 : dict V) :
  incl d1 d2 -> incl (keys d1) (keys d2).
Proof.
  intros H k Hk. apply in_map_iff in Hk. destruct Hk as ([k' v] & <- & Hin).
  apply in_map_iff. exists (k', v). split; [reflexivity | auto].
Qed.

Lemma walked_each
      (wbody : dict (list str) -> str ->
               option (list (str * nat) * dict (list str))) :
  (forall pm c res,
      NoDup (keys pm) -> wbody pm c = Some res -> walked [c] pm res) ->
  forall cs pm res,
    NoDup (keys pm) -> walk_each wbody cs pm = Some res -> walked cs pm res.
Proof.
  intros Hbody. induction cs as [|c cs IH]; intros pm res Hnd H; simpl in H.
  - inversion H; subst. unfold walked. simpl.
    rewrite app_nil_r. repeat split; auto using incl_refl.
  - destruct (wbody pm c) as [[vs1 pm1]|] eqn:E1; [|discriminate].
    destruct (walk_each wbody cs pm1) as [[vs2 pm2]|] eqn:E2; [|discriminate].
    inversion H; subst; clear H.
    destruct (Hbody _ _ _ Hnd E1) as (N1 & I1 & P1 & K1). simpl in *.
    destruct (IH _ _ N1 E2) as (N2 & I2 & P2 & K2). simpl in *.
    unfold walked. simpl. split; [exact N2|].
    split; [eapply incl_tran; eauto|]. split.
    + rewrite map_app.
      transitivity (cs ++ c :: all_children pm);
        [apply Permutation_middle|].
      transitivity ((cs ++ all_children pm1) ++ map fst vs1);
        [rewrite <- app_assoc; now apply Permutation_app_head|].
      transitivity ((all_children pm2 ++ map fst vs2) ++ map fst vs1);
        [now apply Permutation_app_tail|].
      rewrite <- app_assoc. apply Permutation_app_head.
      apply Permutation_app_comm.
    + intros x Hx. rewrite map_app, in_app_iff in Hx.
      destruct Hx as [Hx|Hx]; [|auto].
      intros Hk. apply (K1 _ Hx). eapply incl_keys; eauto.
Qed.

Lemma walked_walk :
  forall fuel pm branch depth res,
    NoDup (keys pm) -> walk fuel pm branch depth = Some res ->
    walked [branch] pm res.
Proof.
  induction fuel as [|fuel IH]; intros pm branch depth res Hnd H;
    simpl in H; [discriminate|].
  destruct (walk_each (fun pm child => walk fuel pm child (S depth))
              (sorted (match dict_get pm branch with
                       | Some v => v | None => [] end))
              (dict_remove pm branch)) as [[vs pm']|] eqn:E;
    [|discriminate].
  inversion H; subst; clear H.
  pose proof (NoDup_keys_dict_remove pm branch Hnd) as Hnd'.
  destruct (walked_each _ (fun pm c res Hn Hw => IH pm c (S depth) res Hn Hw)
              _ _ _ Hnd' E) as (N & I & P & K). simpl in *.
  unfold walked. simpl. split; [exact N|].
  split; [eapply incl_tran; eauto using dict_remove_incl|]. split.
  - pose proof (dict_pop_children pm branch Hnd) as Hpop.
    unfold dict_pop in Hpop. simpl in Hpop.
    transitivity
      (branch :: sorted (match dict_get pm branch with
                         | Some v => v | None => [] end)
                 ++ all_children (dict_remove pm branch)).
    + constructor. rewrite Hpop. apply Permutation_app_tail.
      symmetry. apply sorted_perm.
    + rewrite P. apply Permutation_middle.
  - intros x [Hx|Hx]; [|auto]. subst x. intros Hk.
    apply (incl_keys _ _ I) in Hk. apply keys_dict_remove in Hk. tauto.
Qed.

(** ** The topology [start] builds *)

Lemma local_branches_app (d1 d2 : dict (option BranchesInfo.t)) :
  local_branches (d1 ++ d2) = local_branches d1 ++ local_branches d2.
Proof.
  induction d1 as [|[b [info|]] d1 IH]; simpl; [reflexivity | | exact IH].
  now rewrite IH.
Qed.

Lemma In_local_branches (d : dict (option BranchesInfo.t)) (b : str) :
  In b (local_branches d) <-> exists info, In (b, Some info) d.
Proof.
  induction d as [|[b' [info'|]] d IH]; simpl.
  - split; [tauto | intros [? []]].
  - rewrite IH. split.
    + intros [->|[info H]]; [exists info'; auto | exists info; auto].
    + intros [info [H|H]]; [inversion H; auto | right; eauto].
  - rewrite IH. split.
    + intros [info H]. exists info. auto.
    + intros [info [H|H]]; [discriminate | eauto].
Qed.

Lemma NoDup_local_branches (d : dict (option BranchesInfo.t)) :
  NoDup (keys d) -> NoDup (local_branches d).
Proof.
  induction d as [|[b [info|]] d IH]; simpl; intros H.
  - constructor.
  - inversion H as [|? ? Hn Hd]; subst. constructor; [|auto].
    rewrite In_local_branches. intros [info' Hin]. apply Hn.
    apply in_map_iff. exists (b, Some info'). auto.
  - inversion H; auto.
Qed.

Lemma is_local_In (d : dict (option BranchesInfo.t)) (b : str) :
  NoDup (keys d) ->
  is_local d b = true <-> In b (local_branches d).
Proof.
  intros Hnd. unfold is_local. rewrite In_local_branches. split.
  - destruct (dict_get d b) as [[info|]|] eqn:E; try discriminate.
    intros _. exists info. now apply dict_get_In.
  - intros [info Hin]. now rewrite (In_dict_get _ _ _ Hnd Hin).
Qed.

(** One branch more keeps the topology. *)
Lemma place_branch_topology (git : git_common.t)
      (d seen : dict (option BranchesInfo.t))
      (st st' : BranchMapper.t * list str)
      (item : str * option BranchesInfo.t) :
  BranchMapper.branches_info (fst st) = d ->
  topology git d seen st ->
  BranchMapper.place_branch git st item = Ok st' ->
  BranchMapper.branches_info (fst st') = d
  /\ topology git d (seen ++ [item]) st'.
Proof.
  destruct st as [self roots], item as [branch [info|]]; simpl;
    intros Hd (N & P & C & R & R1 & R2).
  - unfold dict_item.
    assert (Hstep :
      forall parent self1 roots1,
        BranchMapper.parent_map self1
        = defaultdict_append (BranchMapper.parent_map self) parent branch ->
        parent_of git d branch info = parent ->
        NoDup roots1 ->
        (forall r, In r roots1 <->
                   In r roots
                   \/ (r = parent
                       /\ is_local d (BranchesInfo.upstream info) = false)) ->
        topology git d (seen ++ [(branch, Some info)]) (self1, roots1)).
    { intros parent self1 roots1 Hpm Hparent HR Hroots.
      unfold topology. simpl. rewrite Hpm.
      split; [now apply NoDup_keys_defaultdict_append|].
      split.
      { rewrite defaultdict_append_children, local_branches_app. simpl.
        rewrite P. apply Permutation_cons_append. }
      split.
      { intros p l b Hin Hb.
        destruct (defaultdict_append_entries _ _ _ _ _ _ Hin Hb)
          as [[-> ->] | (l0 & Hin0 & Hb0)].
        - exists info. rewrite in_app_iff. simpl. auto.
        - destruct (C _ _ _ Hin0 Hb0) as (info0 & Hi & Hp).
          exists info0. rewrite in_app_iff. auto. }
      split; [exact HR|]. split.
      { intros r Hr. apply Hroots in Hr. destruct Hr as [Hr | [-> Hl]].
        - destruct (R1 _ Hr) as (b & info0 & Hi & Hl & Hp).
          exists b, info0. rewrite in_app_iff. auto.
        - exists branch, info. rewrite in_app_iff. simpl. auto. }
      { intros b info0 Hin Hl. apply Hroots.
        apply in_app_iff in Hin. destruct Hin as [Hin | [Hin | []]].
        - left. eauto.
        - inversion Hin; subst. right. auto. } }
    unfold parent_of, is_local in *. rewrite Hd.
    destruct (dict_get d (BranchesInfo.upstream info)) as [[pinfo|]|] eqn:E;
      simpl; [| |discriminate].
    + intros H. inversion H; subst st'; clear H. simpl.
      split; [exact Hd|].
      eapply Hstep; [reflexivity | reflexivity | exact R |].
      intros r. split; [auto | intros [H | [_ H]]; [auto | discriminate]].
    + destruct (git_common.upstream git branch) as [[|c u]|] eqn:Eu; simpl;
        intros H; inversion H; subst st'; clear H; simpl;
        (split; [exact Hd|]);
        (eapply Hstep;
         [reflexivity | reflexivity | now apply NoDup_set_add |]);
        intros r; rewrite In_set_add; tauto.
  - intros H. inversion H; subst st'; clear H. simpl. split; [exact Hd|].
    unfold topology. simpl. rewrite local_branches_app. simpl.
    rewrite app_nil_r. split; [exact N|]. split; [exact P|]. split.
    { intros p l b Hin Hb. destruct (C _ _ _ Hin Hb) as (info & Hi & Hp).
      exists info. rewrite in_app_iff. auto. }
    split; [exact R|]. split.
    { intros r Hr. destruct (R1 _ Hr) as (b & info & Hi & Hl & Hp).
      exists b, info. rewrite in_app_iff. auto. }
    { intros b info Hin Hl. apply in_app_iff in Hin.
      destruct Hin as [Hin | [Hin | []]]; [eauto | discriminate]. }
Qed.

Lemma place_branches_topology (git : git_common.t)
      (d : dict (option BranchesInfo.t)) :
  forall items seen st st',
    BranchMapper.branches_info (fst st) = d ->
    topology git d seen st ->
    BranchMapper.place_branches git st items = Ok st' ->
    topology git d (seen ++ items) st'.
Proof.
  induction items as [|item items IH]; intros seen st st' Hd Ht H; simpl in H.
  - inversion H; subst. now rewrite app_nil_r.
  - bind_inv H.
    destruct (place_branch_topology _ _ _ _ _ _ Hd Ht Hstep) as [Hd' Ht'].
    replace (seen ++ item :: items) with ((seen ++ [item]) ++ items)
      by (now rewrite <- app_assoc).
    eapply IH; eauto.
Qed.

(** ** Every anchored branch is visited once *)

Section Forest.

Variable git : git_common.t.
Variable d : dict (option BranchesInfo.t).
Variable self : BranchMapper.t.
Variable roots : list str.
Variable visits : list (str * nat).
Variable rest : dict (list str).

Hypothesis d_keys : NoDup (keys d).
Hypothesis built : topology git d d (self, roots).
Hypothesis walk_done :
  walked (sorted roots) (BranchMapper.parent_map self) (visits, rest).
Hypothesis roots_external :
  forall b info,
    In (b, Some info) d ->
    is_local d (BranchesInfo.upstream info) = false ->
    is_local d (parent_of git d b info) = false.

Lemma root_not_local (r : str) : In r roots -> is_local d r = false.
Proof.
  destruct built as (_ & _ & _ & _ & R1 & _). intros Hr.
  destruct (R1 _ Hr) as (b & info & Hin & Hl & <-). simpl in *. auto.
Qed.

Lemma child_is_local (b : str) :
  In b (all_children (BranchMapper.parent_map self)) <->
  In b (local_branches d).
Proof.
  destruct built as (_ & P & _). simpl in P.
  split; intros H.
  - exact (Permutation_in _ P H).
  - exact (Permutation_in _ (Permutation_sym P) H).
Qed.

Lemma left_child_is_local (b : str) :
  In b (all_children rest) -> In b (local_branches d).
Proof.
  destruct walk_done as (_ & I & _). simpl in I.
  intros H. apply child_is_local. apply In_all_children in H.
  destruct H as (p & l & Hin & Hb). apply In_all_children. eauto.
Qed.

Lemma visits_NoDup : NoDup (map fst visits).
Proof.
  destruct walk_done as (_ & _ & P & _). simpl in P.
  destruct built as (_ & Pc & _ & R & _). simpl in Pc, R.
  apply (NoDup_app_remove_l (all_children rest)).
  apply (Permutation_NoDup P). apply NoDup_app.
  - apply (Permutation_NoDup (l := roots)); [|exact R].
    symmetry. apply sorted_perm.
  - apply (Permutation_NoDup (l := local_branches d));
      [now symmetry | now apply NoDup_local_branches].
  - intros x Hr Hc. apply (Permutation_in _ (sorted_perm roots)) in Hr.
    apply root_not_local in Hr. apply child_is_local in Hc.
    apply is_local_In in Hc; [congruence | exact d_keys].
Qed.

Lemma root_visited (r : str) : In r roots -> In r (map fst visits).
Proof.
  destruct walk_done as (_ & _ & P & _). simpl in P. intros Hr.
  assert (H : In r (all_children rest ++ map fst visits)).
  { apply (Permutation_in _ P). apply in_app_iff. left.
    apply (Permutation_in (l := roots)); [|exact Hr].
    symmetry. apply sorted_perm. }
  apply in_app_iff in H. destruct H as [H|H]; [|exact H].
  apply left_child_is_local in H. apply is_local_In in H; [|exact d_keys].
  rewrite (root_not_local _ Hr) in H. discriminate.
Qed.

Lemma anchored_visited (n : nat) :
  forall b, anchored git d n b = true -> In b (local_branches d) ->
            In b (map fst visits).
Proof.
  induction n as [|n IH]; intros b Ha Hb;
    pose proof (proj2 (is_local_In d b d_keys) Hb) as Hl;
    unfold is_local in Hl; simpl in Ha;
    destruct (dict_get d b) as [[info|]|] eqn:E; try discriminate.
  apply dict_get_In in E.
  set (p := parent_of git d b info) in *.
  assert (Hp : In p (map fst visits)).
  { destruct (is_local d p) eqn:Elp.
    - apply IH; [exact Ha|]. now apply is_local_In.
    - apply root_visited.
      destruct built as (_ & _ & _ & _ & _ & R2). simpl in R2.
      apply R2; [exact E|].
      destruct (is_local d (BranchesInfo.upstream info)) eqn:Eu;
        [|reflexivity].
      unfold p, parent_of in Elp. rewrite Eu in Elp. congruence. }
  destruct walk_done as (_ & I & P & K). simpl in I, P, K.
  assert (H : In b (all_children rest ++ map fst visits)).
  { apply (Permutation_in _ P). apply in_app_iff. right.
    now apply child_is_local. }
  apply in_app_iff in H. destruct H as [H|H]; [|exact H].
  exfalso. apply In_all_children in H. destruct H as (q & l & Hin & Hbl).
  destruct built as (_ & _ & C & _). simpl in C.
  destruct (C _ _ _ (I _ Hin) Hbl) as (info' & Hi & Hq).
  pose proof (In_dict_get _ _ _ d_keys E) as G1.
  pose proof (In_dict_get _ _ _ d_keys Hi) as G2.
  rewrite G1 in G2. inversion G2; subst info'.
  apply (K _ Hp). fold p in Hq. rewrite Hq.
  apply in_map_iff. exists (q, l). auto.
Qed.


End Forest.

(** ** One row per branch *)

Lemma build_topology (git : git_common.t) (self self' : BranchMapper.t)
      (roots : list str) :
  BranchMapper.parent_map self = [] ->
  BranchMapper.build git self = Ok (self', roots) ->
  topology git
    (git_common.get_branches_info git (1 <=? BranchMapper.verbosity self)%nat)
    (git_common.get_branches_info git (1 <=? BranchMapper.verbosity self)%nat)
    (self', roots).
Proof.
  intros Hpm Hb.
  destruct (build_frame _ _ _ _ Hb)
    as (_ & _ & _ & _ & s0 & s1 & Hplace & Hd & Hpm0 & _ & Hpm1 & _).
  set (d := git_common.get_branches_info git
              (1 <=? BranchMapper.verbosity self)%nat) in *.
  assert (T0 : topology git d [] (s0, [])).
  { unfold topology. simpl. rewrite Hpm0, Hpm. simpl.
    repeat split; try constructor; intros; contradiction. }
  pose proof (place_branches_topology git d d [] (s0, []) (s1, roots)
                Hd T0 Hplace) as T.
  simpl in T. unfold topology in *. simpl in *. now rewrite Hpm1.
Qed.

Lemma start_Ok_build (fuel : nat) (git : git_common.t)
      (self final : BranchMapper.t) :
  BranchMapper.start fuel git self = Some (Ok final) ->
  exists self' roots, BranchMapper.build git self = Ok (self', roots).
Proof.
  unfold BranchMapper.start.
  destruct (BranchMapper.build git self) as [[self' roots]|e];
    [eauto | discriminate].
Qed.


Lemma distinct_NoDup (l : list str) : distinct l = true -> NoDup l.
Proof.
  induction l as [|x l IH]; simpl; [constructor|].
  rewrite andb_true_iff, negb_true_iff. intros [Hx Hl].
  constructor; [now apply mem_not_In | auto].
Qed.

Lemma roots_external_spec (git : git_common.t)
      (d : dict (option BranchesInfo.t)) :
  roots_external git d = true ->
  forall b info,
    In (b, Some info) d ->
    is_local d (BranchesInfo.upstream info) = false ->
    is_local d (parent_of git d b info) = false.
Proof.
  unfold roots_external. rewrite forallb_forall. intros H b info Hin Hl.
  specialize (H _ Hin). simpl in H. rewrite Hl in H. simpl in H.
  now apply negb_true_iff.
Qed.

Lemma anchored_all (git : git_common.t) (d : dict (option BranchesInfo.t))
      (n : nat) :
  forallb (anchored git d n) (local_branches d) = true ->
  forall b, In b (local_branches d) -> exists n, anchored git d n b = true.
Proof. rewrite forallb_forall. intros H b Hb. exists n. auto. Qed.



(** ** The traversal terminates *)

Lemma dict_pop_size (pm : dict (list str)) (k : str) :
  (List.length (fst (dict_pop pm k))
   + List.length (all_children (snd (dict_pop pm k)))
   <= List.length (all_children pm))%nat.
Proof.
  unfold dict_pop. simpl.
  induction pm as [|[k' l] pm IH]; simpl; [lia|].
  unfold all_children in *. simpl.
  destruct (str_eqb k k') eqn:E; simpl; rewrite !length_app.
  - assert (H : (List.length (List.concat (map snd (dict_remove pm k)))
                 <= List.length (List.concat (map snd pm)))%nat).
    { destruct (dict_get pm k); simpl in IH; lia. }
    lia.
  - destruct (dict_get pm k); simpl in *; lia.
Qed.

Lemma for_each_total
      (body : BranchMapper.t -> str -> option (result BranchMapper.t))
      (bound : nat) :
  (forall self c,
      (List.length (all_children (BranchMapper.parent_map self)) < bound)%nat ->
      exists r,
        body self c = Some r
        /\ forall self', r = Ok self' ->
             (List.length (all_children (BranchMapper.parent_map self'))
              <= List.length (all_children (BranchMapper.parent_map self)))%nat) ->
  forall cs self,
    (cs <> [] ->
     (List.length (all_children (BranchMapper.parent_map self)) < bound)%nat) ->
    exists r,
      BranchMapper.for_each body cs self = Some r
      /\ forall self', r = Ok self' ->
           (List.length (all_children (BranchMapper.parent_map self'))
            <= List.length (all_children (BranchMapper.parent_map self)))%nat.
Proof.
  intros Hbody. induction cs as [|c cs IH]; intros self Hsize; simpl.
  - exists (Ok self). split; [reflexivity|].
    intros self' H. inversion H; subst. lia.
  - destruct (Hbody self c (Hsize ltac:(discriminate))) as (r & Hr & Hle).
    rewrite Hr. destruct r as [self1|e].
    + specialize (Hle _ eq_refl).
      destruct (IH self1) as (r2 & Hr2 & Hle2).
      { intros _. specialize (Hsize ltac:(discriminate)). lia. }
      exists r2. split; [exact Hr2|].
      intros self' H. specialize (Hle2 _ H). lia.
    + exists (Raise e). split; [reflexivity | discriminate].
Qed.

(** With more fuel than the parent map has children, [__append_branch]
    returns or raises. *)
Lemma append_branch_total (git : git_common.t) :
  forall fuel self branch depth,
    (List.length (all_children (BranchMapper.parent_map self)) < fuel)%nat ->
    exists r,
      BranchMapper.append_branch fuel git self branch depth = Some r
      /\ forall self', r = Ok self' ->
           (List.length (all_children (BranchMapper.parent_map self'))
            <= List.length (all_children (BranchMapper.parent_map self)))%nat.
Proof.
  induction fuel as [|fuel IH]; intros self branch depth Hsize; [lia|].
  simpl.
  destruct (BranchMapper.branch_line git self branch depth) as [line|e];
    [|exists (Raise e); split; [reflexivity | discriminate]].
  destruct (OutputManager.append (BranchMapper.output self) line) as [out|e];
    [|exists (Raise e); split; [reflexivity | discriminate]].
  simpl.
  pose proof (dict_pop_size (BranchMapper.parent_map self) branch) as Hpop.
  unfold dict_pop in Hpop. simpl in Hpop.
  set (children := match dict_get (BranchMapper.parent_map self) branch with
                   | Some v => v | None => [] end) in *.
  set (self1 := BranchMapper.with_parent_map
                  (BranchMapper.with_output self out)
                  (dict_remove (BranchMapper.parent_map self) branch)).
  destruct (for_each_total
              (fun s child => BranchMapper.append_branch fuel git s child
                                (S depth))
              fuel (fun s c Hs => IH s c (S depth) Hs)
              (sorted children) self1) as (r & Hr & Hle).
  { intros Hne. simpl.
    assert (Hlen : List.length (sorted children) = List.length children)
      by (apply Permutation_length, sorted_perm).
    destruct (sorted children); [congruence|]. simpl in Hlen. lia. }
  exists r. split; [exact Hr|].
  intros self' H. specialize (Hle _ H). simpl in Hle. lia.
Qed.

Lemma local_branches_length (d : dict (option BranchesInfo.t)) :
  (List.length (local_branches d) <= List.length d)%nat.
Proof.
  induction d as [|[b [info|]] d IH]; simpl; lia.
Qed.

(** With more fuel than the listing has entries, [start] returns or
    raises, whatever the tracking graph. *)
Theorem start_terminates (fuel : nat) (git : git_common.t) (v : nat)
        (nocolor : bool) (jobs : option nat) (subject : bool) :
  (List.length (git_common.get_branches_info git (1 <=? v)%nat) < fuel)%nat ->
  exists r,
    BranchMapper.start fuel git (BranchMapper.init v nocolor jobs subject)
    = Some r.
Proof.
  intros Hfuel. unfold BranchMapper.start.
  destruct (BranchMapper.build git (BranchMapper.init v nocolor jobs subject))
    as [[self' roots]|e] eqn:Eb; [|eauto].
  destruct roots as [|c roots].
  - destruct (OutputManager.append _ _); eauto.
  - pose proof (build_topology git
                  (BranchMapper.init v nocolor jobs subject) self' _
                  eq_refl Eb) as T.
    destruct T as (_ & P & _).
    cbn [fst BranchMapper.verbosity BranchMapper.init] in P.
    apply Permutation_length in P.
    pose proof (local_branches_length
                  (git_common.get_branches_info git (1 <=? v)%nat)) as Hl.
    destruct (for_each_total
                (fun s root => BranchMapper.append_branch fuel git s root 0)
                fuel (fun s c Hs => append_branch_total git fuel s c 0 Hs)
                (sorted (c :: roots)) self') as (r & Hr & _).
    { intros _. lia. }
    eauto.
Qed.

Lemma start_terminates_witness :
  exists r,
    BranchMapper.start 4 Repo.stale (BranchMapper.init 0 true None false)
    = Some r.
Proof.
  apply (start_terminates 4 Repo.stale 0 true None false). by_vm.
Defined.

(** ** Color escape sequences and trailing space *)

Lemma strip_from_app (a b : str) :
  forall q, strip_from q (a ++ b) = strip_from q a ++ strip_from (esc_end q a) b.
Proof.
  induction a as [|c a IH]; intros q; simpl; [reflexivity|].
  destruct q; [apply IH|].
  destruct (Ascii.eqb c Fore.ESC); [apply IH|].
  simpl. now rewrite IH.
Qed.

Lemma esc_end_app (a b : str) :
  forall q, esc_end q (a ++ b) = esc_end (esc_end q a) b.
Proof.
  induction a as [|c a IH]; intros q; simpl; [reflexivity|].
  destruct q; apply IH.
Qed.

Lemma esc_clean_app (a b : str) :
  forall q, esc_clean q (a ++ b)
            = esc_clean q a && esc_clean (esc_end q a) b.
Proof.
  induction a as [|c a IH]; intros q; simpl; [reflexivity|].
  destruct q; [|apply IH].
  rewrite IH. now rewrite andb_assoc.
Qed.

Lemma well_colored_nil : well_colored [] [].
Proof. repeat split. Qed.

Lemma well_colored_app (a a' b b' : str) :
  well_colored a a' -> well_colored b b' -> well_colored (a ++ b) (a' ++ b').
Proof.
  intros (Sa & Ea & Ca) (Sb & Eb & Cb). unfold well_colored.
  rewrite strip_from_app, esc_end_app, esc_clean_app, Ea, Sa, Sb, Eb, Ca, Cb.
  repeat split.
Qed.

Lemma well_colored_plain (a : str) : plain a -> well_colored a a.
Proof.
  unfold plain, well_colored. induction a as [|c a IH]; simpl; [tauto|].
  intros H. destruct (Ascii.eqb c Fore.ESC) eqn:E.
  - apply Ascii.eqb_eq in E. subst. tauto.
  - destruct IH as (S & En & C); [tauto|]. rewrite S. auto.
Qed.

Lemma is_param_not_m (c : ascii) :
  is_param c = true -> Ascii.eqb c "m"%char = false /\ isspace c = false.
Proof.
  destruct c as [[] [] [] [] [] [] [] []]; vm_compute; intros H;
    first [discriminate H | split; reflexivity].
Qed.

Lemma well_colored_params (params rest : str) :
  forallb is_param params = true ->
  strip_from true (params ++ "m"%char :: rest) = strip_from false rest
  /\ esc_end true (params ++ "m"%char :: rest) = esc_end false rest
  /\ esc_clean true (params ++ "m"%char :: rest) = esc_clean false rest.
Proof.
  induction params as [|c params IH]; simpl.
  - intros _. repeat split.
  - rewrite andb_true_iff. intros [Hc Hp].
    destruct (is_param_not_m _ Hc) as [Hm Hs]. rewrite Hm, Hs. simpl.
    apply IH, Hp.
Qed.

Lemma well_colored_color (c : str) : color_code c -> well_colored c [].
Proof.
  induction 1 as [|params rest Hp Hrest IH].
  - apply well_colored_nil.
  - destruct IH as (S & E & C).
    destruct (well_colored_params params rest Hp) as (S' & E' & C').
    unfold well_colored. simpl. rewrite S', E', C'. auto.
Qed.

Lemma rstrip_cons (c : ascii) (a b : str) :
  rstrip a = rstrip b -> rstrip (c :: a) = rstrip (c :: b).
Proof. simpl. now intros ->. Qed.

(** A text of spaces only holds no escape sequence. *)
Lemma blank_strip (s : str) :
  forall q,
    rstrip s = [] -> esc_clean q s = true -> esc_end q s = false ->
    q = false /\ rstrip (strip_from q s) = [].
Proof.
  induction s as [|c s IH]; intros q Hr Hc He; simpl in *.
  - auto.
  - destruct (rstrip s) eqn:Ers; [|discriminate].
    destruct (isspace c) eqn:Esp; [|discriminate].
    destruct q; simpl in Hc; [discriminate|].
    split; [reflexivity|].
    destruct (Ascii.eqb c Fore.ESC) eqn:Eesc.
    + apply Ascii.eqb_eq in Eesc. subst c. discriminate Esp.
    + destruct (IH false eq_refl Hc He) as [_ H]. simpl. now rewrite H, Esp.
Qed.

(** Trailing space may be cut before or after the colors are removed. *)
Lemma rstrip_strip (s : str) :
  forall q,
    esc_clean q s = true -> esc_end q s = false ->
    rstrip (strip_from q (rstrip s)) = rstrip (strip_from q s).
Proof.
  induction s as [|c s IH]; intros q Hc He; [reflexivity|].
  cbn [rstrip]. destruct (rstrip s) as [|r0 r] eqn:Ers.
  - destruct (isspace c) eqn:Esp.
    + symmetry.
      apply (blank_strip (c :: s) q); auto. simpl. now rewrite Ers, Esp.
    + cbn [esc_clean esc_end] in Hc, He. cbn [strip_from].
      destruct q.
      * rewrite Esp in Hc. simpl in Hc.
        destruct (blank_strip s _ Ers Hc He) as [Hq H].
        rewrite Hq in *. simpl. now rewrite H.
      * destruct (blank_strip s _ Ers Hc He) as [Hq H].
        rewrite Hq in *. simpl. now rewrite H, Esp.
  - cbn [esc_clean esc_end] in Hc, He. cbn [strip_from].
    destruct q.
    + apply andb_true_iff in Hc. destruct Hc as [_ Hc].
      now rewrite <- (IH _ Hc He).
    + destruct (Ascii.eqb c Fore.ESC).
      * now rewrite <- (IH _ Hc He).
      * apply rstrip_cons. now rewrite <- (IH _ Hc He).
Qed.

Lemma well_colored_rstrip (s s' : str) :
  well_colored s s' -> rstrip s' = rstrip (strip_colors (rstrip s)).
Proof.
  intros (S & E & C). unfold strip_colors.
  rewrite (rstrip_strip s false C E). now rewrite S.
Qed.

(** ** Formatting with and without colors *)

Lemma update_max_Ok (cols : list str) :
  forall maxl maxl',
    OutputManager.update_max maxl cols = Ok maxl' ->
    List.length maxl' = List.length maxl
    /\ (List.length cols <= List.length maxl)%nat.
Proof.
  induction cols as [|col cols IH]; intros maxl maxl' H.
  - destruct maxl; inversion H; subst; split; simpl; lia.
  - destruct maxl as [|m maxl]; simpl in H; [discriminate|].
    bind_inv H. inversion H; subst.
    destruct (IH _ _ Hstep) as [Hl Hc]. simpl. split; lia.
Qed.

(** What a successful append stores. *)
Lemma append_Ok (m m1 : OutputManager.t) (r : OutputLine.t) :
  OutputManager.append m r = Ok m1 ->
  exists maxl,
    OutputManager.update_max
      (if OutputManager.no_columns (OutputManager.num_columns m)
       then repeat 0%nat (List.length (OutputLine.columns r))
       else OutputManager.max_column_lengths m)
      (OutputLine.columns r) = Ok maxl
    /\ (OutputManager.no_columns (OutputManager.num_columns m) = false ->
        OutputManager.num_columns m
        = Some (List.length (OutputLine.columns r)))
    /\ m1 = OutputManager.mk
              (OutputManager.lines m
               ++ [stored (OutputManager.nocolor m) r])
              (OutputManager.nocolor m) maxl
              (Some (List.length (OutputLine.columns r))).
Proof.
  unfold OutputManager.append.
  destruct (OutputManager.no_columns (OutputManager.num_columns m)) eqn:En.
  - rewrite Nat.eqb_refl. simpl.
    replace (OutputLine.columns
               (if OutputManager.nocolor m
                then OutputLine.mk (OutputLine.columns r)
                       (OutputLine.separators r)
                       (repeat [] (List.length (OutputLine.columns r)))
                else r)) with (OutputLine.columns r)
      by (destruct (OutputManager.nocolor m); reflexivity).
    intros H. bind_inv H. inversion H; subst.
    exists x. split; [exact Hstep|]. split; [discriminate|]. reflexivity.
  - destruct (OutputManager.num_columns m) as [k|] eqn:Ek; [|discriminate].
    destruct (k =? List.length (OutputLine.columns r))%nat eqn:Eq;
      simpl; [|discriminate].
    apply Nat.eqb_eq in Eq. subst k.
    replace (OutputLine.columns
               (if OutputManager.nocolor m
                then OutputLine.mk (OutputLine.columns r)
                       (OutputLine.separators r)
                       (repeat [] (List.length (OutputLine.columns r)))
                else r)) with (OutputLine.columns r)
      by (destruct (OutputManager.nocolor m); reflexivity).
    intros H. bind_inv H. inversion H; subst.
    exists x. split; [exact Hstep|]. split; [reflexivity|]. reflexivity.
Qed.

(** An append succeeds without colors when it does with them, and stores
    the row without its colors. *)
Lemma append_decolored (m m' m1 : OutputManager.t) (r : OutputLine.t) :
  decolored m m' ->
  OutputManager.append m r = Ok m1 ->
  exists m1', OutputManager.append m' r = Ok m1' /\ decolored m1 m1'.
Proof.
  intros (Hl & Hm & Hn & Hc & Hc') H.
  destruct (append_Ok _ _ _ H) as (maxl & Hup & Hnum & ->).
  rewrite Hc.
  unfold OutputManager.append. rewrite Hn, Hm, Hc'.
  destruct (OutputManager.no_columns (OutputManager.num_columns m)) eqn:En.
  - rewrite Nat.eqb_refl. simpl. rewrite Hup. simpl.
    eexists. split; [reflexivity|]. unfold decolored. simpl.
    rewrite Hl, map_app. repeat split.
  - rewrite (Hnum eq_refl), Nat.eqb_refl. simpl. rewrite Hup. simpl.
    eexists. split; [reflexivity|]. unfold decolored. simpl.
    rewrite Hl, map_app. repeat split.
Qed.

Lemma feed_decolored (rows : list OutputLine.t) :
  forall m m' m1,
    decolored m m' -> feed m rows = Ok m1 ->
    exists m1', feed m' rows = Ok m1' /\ decolored m1 m1'.
Proof.
  induction rows as [|r rows IH]; intros m m' m1 Hd H; simpl in *.
  - inversion H; subst. eauto.
  - bind_inv H.
    destruct (append_decolored _ _ _ _ Hd Hstep) as (x' & Hx' & Hd').
    rewrite Hx'. simpl. eauto.
Qed.

Lemma append_fits (m m1 : OutputManager.t) (r : OutputLine.t) :
  fits m -> OutputManager.append m r = Ok m1 -> fits m1.
Proof.
  intros [Hall Hnum] H.
  destruct (append_Ok _ _ _ H) as (maxl & Hup & Hn & ->).
  destruct (update_max_Ok _ _ _ Hup) as [Hlen Hcols].
  unfold fits. simpl.
  destruct (OutputManager.no_columns (OutputManager.num_columns m)) eqn:En.
  - rewrite repeat_length in Hlen. split; [|right; now rewrite Hlen].
    apply Forall_app. split.
    + destruct Hnum as [[_ ->] | Hsome]; [constructor|].
      rewrite Hsome in En. simpl in En. apply Nat.eqb_eq in En.
      eapply Forall_impl; [|exact Hall]. simpl. intros l Hl. lia.
    + constructor; [|constructor].
      destruct (OutputManager.nocolor m); simpl; lia.
  - specialize (Hn eq_refl).
    destruct Hnum as [[Hnone _] | Hsome]; [congruence|].
    rewrite Hsome in Hn. inversion Hn as [Heq].
    split; [|right; f_equal; lia].
    apply Forall_app. split.
    + eapply Forall_impl; [|exact Hall]. simpl. intros l Hl. lia.
    + constructor; [|constructor].
      destruct (OutputManager.nocolor m); simpl; lia.
Qed.

Lemma feed_fits (rows : list OutputLine.t) :
  forall m m1,
    fits m -> OutputManager.nocolor m = false -> feed m rows = Ok m1 ->
    fits m1 /\ OutputManager.lines m1 = OutputManager.lines m ++ rows.
Proof.
  induction rows as [|r rows IH]; intros m m1 Hf Hc H; simpl in *.
  - inversion H; subst. now rewrite app_nil_r.
  - bind_inv H.
    pose proof (append_fits _ _ _ Hf Hstep) as Hf'.
    destruct (append_Ok _ _ _ Hstep) as (maxl & _ & _ & ->).
    destruct (IH _ _ Hf' Hc H) as [Hf1 Hl]. split; [exact Hf1|].
    rewrite Hl. simpl. rewrite Hc, <- app_assoc. reflexivity.
Qed.

Lemma padded_loop_total (maxl : list nat) (cs : list (str * str * str)) :
  forall i out,
    (i + List.length cs <= List.length maxl)%nat ->
    exists s, OutputLine.padded_loop i cs maxl out = Ok s.
Proof.
  induction cs as [|[[color data] separator] cs IH]; intros i out Hlen;
    simpl in *; [eauto|].
  destruct (nth_error maxl i) as [m|] eqn:E.
  - destruct (m =? 0)%nat; apply IH; lia.
  - apply nth_error_None in E. lia.
Qed.

(** The loop of [as_padded_string] on cells without their colors builds
    the text without its colors. *)
Lemma padded_loop_uncolor (maxl : list nat) (cs : list (str * str * str)) :
  forall i out out' s,
    Forall cell_ok cs ->
    well_colored out out' ->
    OutputLine.padded_loop i cs maxl out = Ok s ->
    exists s',
      OutputLine.padded_loop i (map uncolor cs) maxl out' = Ok s'
      /\ well_colored s s'.
Proof.
  induction cs as [|[[color data] separator] cs IH]; intros i out out' s Hok Hw H;
    simpl in *.
  - inversion H; subst. eauto.
  - inversion Hok as [|? ? (Hcolor & Hdata & Hsep) Hok']; subst.
    simpl in Hcolor, Hdata, Hsep.
    destruct (nth_error maxl i) as [m|]; [|discriminate].
    destruct (m =? 0)%nat; [eapply IH; eauto|].
    eapply IH; [exact Hok' | | exact H].
    apply well_colored_app; [exact Hw|].
    change (data ++ spaces (m - List.length data) ++ separator)
      with ([] ++ data ++ spaces (m - List.length data) ++ separator).
    apply well_colored_app; [now apply well_colored_color|].
    apply well_colored_plain. unfold plain in *.
    rewrite !in_app_iff. intros [Hin | [Hin | Hin]]; auto.
    unfold spaces in Hin. apply repeat_spec in Hin. discriminate Hin.
Qed.

Lemma cells_stored (r : OutputLine.t) :
  List.length (OutputLine.colors r) = List.length (OutputLine.columns r) ->
  cells (stored true r) = map uncolor (cells r).
Proof.
  unfold cells, stored. simpl.
  generalize (OutputLine.separators r) as seps.
  generalize (OutputLine.colors r) as colors.
  induction (OutputLine.columns r) as [|col cols IH];
    intros [|color colors] seps Hlen; simpl in *; try discriminate;
    [reflexivity|].
  destruct seps as [|sep seps]; simpl; [reflexivity|].
  unfold uncolor at 1. simpl. f_equal. apply IH. lia.
Qed.

Lemma cells_ok (r : OutputLine.t) : colored_row r -> Forall cell_ok (cells r).
Proof.
  intros (_ & _ & Hcols & Hseps & Hcolors). unfold cells.
  revert Hcols Hseps Hcolors.
  generalize (OutputLine.separators r) as seps.
  generalize (OutputLine.colors r) as colors.
  induction (OutputLine.columns r) as [|col cols IH];
    intros colors seps Hcols Hseps Hcolors.
  - destruct colors; constructor.
  - destruct colors as [|color colors]; [constructor|].
    destruct seps as [|sep seps]; [constructor|]. simpl.
    inversion Hcols; inversion Hseps; inversion Hcolors; subst.
    constructor; [repeat split; assumption | apply IH; assumption].
Qed.

Lemma cells_length (r : OutputLine.t) :
  (List.length (cells r) <= List.length (OutputLine.columns r))%nat.
Proof.
  unfold cells. rewrite !length_combine. lia.
Qed.

(** A row formats without colors to its colored text with the colors and
    then the trailing space removed. *)
Lemma as_padded_string_stored (r : OutputLine.t) (maxl : list nat) :
  colored_row r ->
  (List.length (OutputLine.columns r) <= List.length maxl)%nat ->
  exists s s',
    OutputLine.as_padded_string r maxl = Ok s
    /\ OutputLine.as_padded_string (stored true r) maxl = Ok s'
    /\ s' = rstrip (strip_colors s).
Proof.
  intros Hrow Hlen.
  pose proof (cells_length r) as Hcl.
  destruct (padded_loop_total maxl (cells r) 0 []) as [s Hs]; [simpl; lia|].
  destruct (padded_loop_uncolor maxl (cells r) 0 [] [] s (cells_ok r Hrow)
              well_colored_nil Hs) as (s' & Hs' & Hw).
  exists (rstrip s), (rstrip s').
  unfold OutputLine.as_padded_string.
  fold (cells r). fold (cells (stored true r)).
  rewrite (cells_stored r) by (destruct Hrow as (_ & H & _); exact H).
  rewrite Hs, Hs'. simpl. repeat split.
  now apply well_colored_rstrip.
Qed.

Lemma padded_lines_stored (maxl : list nat) (ls : list OutputLine.t) :
  Forall colored_row ls ->
  Forall (fun l => List.length (OutputLine.columns l) <= List.length maxl)%nat
         ls ->
  exists texts,
    OutputManager.padded_lines ls maxl = Ok texts
    /\ OutputManager.padded_lines (map (stored true) ls) maxl
       = Ok (map (fun s => rstrip (strip_colors s)) texts).
Proof.
  induction ls as [|l ls IH]; intros Hrows Hfit;
    cbn [OutputManager.padded_lines map].
  - exists []. split; reflexivity.
  - inversion Hrows; inversion Hfit; subst.
    destruct (as_padded_string_stored l maxl) as (s & s' & Hs & Hs' & ->);
      auto.
    destruct IH as (texts & Ht & Ht'); auto.
    rewrite Hs, Hs', Ht, Ht'. simpl. eexists. split; reflexivity.
Qed.

(** C7, as the code has it: the rows that format with colors format
    without them, to the same column widths, and each line without colors
    is the colored line with its color escape sequences removed and then
    the trailing space that only a color kept removed as well. *)
Theorem nocolor_strips_colors (rows : list OutputLine.t)
        (m : OutputManager.t) :
  Forall colored_row rows ->
  feed OutputManager.init rows = Ok m ->
  exists m' texts,
    feed (OutputManager.set_nocolor OutputManager.init true) rows = Ok m'
    /\ OutputManager.max_column_lengths m'
       = OutputManager.max_column_lengths m
    /\ OutputManager.padded_lines (OutputManager.lines m)
         (OutputManager.max_column_lengths m) = Ok texts
    /\ OutputManager.padded_lines (OutputManager.lines m')
         (OutputManager.max_column_lengths m')
       = Ok (map (fun s => rstrip (strip_colors s)) texts).
Proof.
  intros Hrows Hfeed.
  assert (Hd0 : decolored OutputManager.init
                  (OutputManager.set_nocolor OutputManager.init true))
    by (repeat split).
  destruct (feed_decolored rows _ _ _ Hd0 Hfeed)
    as (m' & Hfeed' & Hl & Hm & _).
  assert (Hf0 : fits OutputManager.init)
    by (split; [constructor | left; split; reflexivity]).
  destruct (feed_fits rows _ _ Hf0 eq_refl Hfeed) as [[Hfit _] Hlines].
  simpl in Hlines.
  rewrite Hlines in Hfit, Hl |- *.
  destruct (padded_lines_stored _ rows Hrows Hfit) as (texts & Ht & Ht').
  exists m', texts. rewrite Hm, Hl. auto.
Qed.

Lemma two_rows_colored : Forall colored_row Repo.two_rows.
Proof.
  assert (Hc : forall n, forallb is_param (lit n) = true ->
                         color_code (Fore.sgr n)).
  { intros n Hp. unfold Fore.sgr. simpl.
    apply (color_sgr (lit n) []); [exact Hp | constructor]. }
  repeat constructor; simpl;
    try (apply Hc; reflexivity);
    unfold plain; simpl; intuition discriminate.
Qed.

Lemma nocolor_strips_colors_witness :
  Forall colored_row Repo.two_rows
  /\ exists m' texts,
      feed (OutputManager.set_nocolor OutputManager.init true) Repo.two_rows
      = Ok m'
      /\ OutputManager.max_column_lengths m' = [1%nat; 1%nat]
      /\ OutputManager.padded_lines Repo.two_rows [1%nat; 1%nat] = Ok texts
      /\ OutputManager.padded_lines (OutputManager.lines m')
           (OutputManager.max_column_lengths m')
         = Ok (map (fun s => rstrip (strip_colors s)) texts).
Proof.
  split; [exact two_rows_colored|].
  exact (nocolor_strips_colors Repo.two_rows
           (OutputManager.mk Repo.two_rows false [1%nat; 1%nat] (Some 2%nat))
           two_rows_colored ltac:(by_vm)).
Defined.

(** C7 as stated fails: the second of two rows ends in an empty cell, whose
    color keeps the separator before it in the colored line. *)
Lemma colored_line_keeps_trailing_space :
  ~ (forall (rows : list OutputLine.t) (m m' : OutputManager.t)
            (texts texts' : list str),
        Forall colored_row rows ->
        feed OutputManager.init rows = Ok m ->
        feed (OutputManager.set_nocolor OutputManager.init true) rows
        = Ok m' ->
        OutputManager.padded_lines (OutputManager.lines m)
          (OutputManager.max_column_lengths m) = Ok texts ->
        OutputManager.padded_lines (OutputManager.lines m')
          (OutputManager.max_column_lengths m') = Ok texts' ->
        texts' = map strip_colors texts).
Proof.
  intros H.
  pose proof two_rows_colored as Hrows.
  specialize (H Repo.two_rows
                (OutputManager.mk Repo.two_rows false [1%nat; 1%nat]
                                  (Some 2%nat))
                (OutputManager.mk (map (stored true) Repo.two_rows) true
                                  [1%nat; 1%nat] (Some 2%nat))
                [Fore.RED ++ lit "a " ++ Fore.WHITE ++ lit "b";
                 Fore.RED ++ lit "c " ++ Fore.WHITE]
                [lit "a b"; lit "c"]
                Hrows ltac:(by_vm) ltac:(by_vm) ltac:(by_vm) ltac:(by_vm)).
  vm_compute in H. discriminate H.
Qed.
(** ** The tracking status in a formatted line *)

(** The colors of the cells of a row of [__append_branch]. *)
Lemma branch_line_colors (git : git_common.t) (self : BranchMapper.t)
      (branch : str) (depth : nat) (line : OutputLine.t) :
  BranchMapper.branch_line git self branch depth = Ok line ->
  exists name_color review_color,
    OutputLine.colors line =
      [name_color]
      ++ (if (2 <=? BranchMapper.verbosity self)%nat then [Fore.RED] else [])
      ++ (if (1 <=? BranchMapper.verbosity self)%nat
          then [Fore.WHITE; Fore.MAGENTA; Fore.WHITE; Fore.MAGENTA; Fore.WHITE]
          else [])
      ++ (if (2 <=? BranchMapper.verbosity self)%nat
          then [review_color] else [])
      ++ (if BranchMapper.show_subject self then [Fore.WHITE] else []).
Proof.
  unfold BranchMapper.branch_line. intros H.
  bind_inv H. bind_inv H. bind_inv H.
  destruct (BranchMapper.tracking_status self x) as [[[[f a] c] b] k].
  destruct (2 <=? BranchMapper.verbosity self)%nat,
           (1 <=? BranchMapper.verbosity self)%nat.
  - bind_inv Hstep1. destruct x2 as [url color].
    inversion Hstep1; subst x1; clear Hstep1.
    exists x0, color.
    destruct (BranchMapper.show_subject self);
      [destruct (git_common.run_log git branch)|];
      inversion H; subst; reflexivity.
  - bind_inv Hstep1. destruct x2 as [url color].
    inversion Hstep1; subst x1; clear Hstep1.
    exists x0, color.
    destruct (BranchMapper.show_subject self);
      [destruct (git_common.run_log git branch)|];
      inversion H; subst; reflexivity.
  - inversion Hstep1; subst x1; clear Hstep1.
    exists x0, [].
    destruct (BranchMapper.show_subject self);
      [destruct (git_common.run_log git branch)|];
      inversion H; subst; reflexivity.
  - inversion Hstep1; subst x1; clear Hstep1.
    exists x0, [].
    destruct (BranchMapper.show_subject self);
      [destruct (git_common.run_log git branch)|];
      inversion H; subst; reflexivity.
Qed.

Lemma skipn_nth_error {A : Type} (l : list A) :
  forall i x, nth_error l i = Some x -> skipn i l = x :: skipn (S i) l.
Proof.
  induction l as [|y l IH]; intros [|i] x H; simpl in H; try discriminate.
  - now inversion H.
  - change (skipn (S i) (y :: l)) with (skipn i l). now apply IH.
Qed.

(** The loop of [as_padded_string] writes, cell by cell, the text of each
    cell in its column. *)
Lemma padded_loop_cells (maxl : list nat) (cs : list (str * str * str)) :
  forall i out,
    (i + List.length cs <= List.length maxl)%nat ->
    OutputLine.padded_loop i cs maxl out
    = Ok (out ++ padded_cells (skipn i maxl) cs).
Proof.
  induction cs as [|[[color data] separator] cs IH]; intros i out Hlen.
  - simpl. now rewrite app_nil_r.
  - cbn [OutputLine.padded_loop padded_cells]. simpl in Hlen.
    destruct (nth_error maxl i) as [m|] eqn:E.
    2:{ apply nth_error_None in E. lia. }
    rewrite (skipn_nth_error _ _ _ E).
    destruct (m =? 0)%nat.
    + rewrite IH by lia. reflexivity.
    + rewrite IH by lia. now rewrite <- !app_assoc.
Qed.

Lemma padded_cells_nil (cs : list (str * str * str)) :
  padded_cells [] cs = [].
Proof. destruct cs as [|[[color data] separator] cs]; reflexivity. Qed.

Lemma padded_cells_split (n : nat) :
  forall widths cs,
    padded_cells widths cs
    = padded_cells widths (firstn n cs)
      ++ padded_cells (skipn n widths) (skipn n cs).
Proof.
  induction n as [|n IH]; intros widths cs; [reflexivity|].
  destruct cs as [|[[color data] separator] cs]; [reflexivity|].
  destruct widths as [|m widths].
  { cbn [firstn skipn padded_cells]. now rewrite padded_cells_nil. }
  cbn [firstn skipn padded_cells]. rewrite (IH widths cs) at 1.
  now rewrite <- app_assoc.
Qed.

(** C4, as the code has it: with tracking status shown and a valid
    upstream, the five tracking cells are the bracket, the ahead text, the
    bar, the behind text and the bracket, the bar exactly when both counts
    are non-zero, the brackets exactly when one is, each text exactly when
    its count is; their separators are one space, but the default four
    after the last; their colors are white, magenta, white, magenta,
    white.  For any widths that cover the row, the formatted line is,
    before its trailing whitespace goes, the text of the cells in front,
    of the five cells and of the cells behind, where a cell whose column
    has width 0 is skipped with its separator and any other is written as
    its color (none without colors), its text padded to the width, and
    its separator.  Formatted on their own without colors, the five cells
    read [[ ahead 3 ]] for ahead 3 alone and [[ ahead 2 | behind 5 ]] for
    ahead 2 and behind 5, and no count leaves the five cells empty. *)
Theorem tracking_status_cells (git : git_common.t) (self : BranchMapper.t)
        (branch : str) (depth : nat) (info : BranchesInfo.t)
        (line : OutputLine.t) :
  (1 <= BranchMapper.verbosity self)%nat ->
  dict_get (BranchMapper.branches_info self) branch = Some (Some info) ->
  BranchMapper.is_invalid_parent self (BranchesInfo.upstream info) = false ->
  BranchMapper.branch_line git self branch depth = Ok line ->
  let ahead := BranchesInfo.ahead info in
  let behind := BranchesInfo.behind info in
  let tracking := tracking_columns (BranchMapper.verbosity self) line in
  let k := tracking_index (BranchMapper.verbosity self) in
  let texts :=
    [ if count_true ahead || count_true behind then lit "[" else [];
      if count_true ahead then lit "ahead " ++ decimal (count_value ahead)
      else [];
      if count_true ahead && count_true behind then lit "|" else [];
      if count_true behind then lit "behind " ++ decimal (count_value behind)
      else [];
      if count_true ahead || count_true behind then lit "]" else [] ] in
  let separators :=
    [lit " "; lit " "; lit " "; lit " "; DEFAULT_SEPARATOR] in
  let colors :=
    [Fore.WHITE; Fore.MAGENTA; Fore.WHITE; Fore.MAGENTA; Fore.WHITE] in
  OutputLine.columns tracking = texts
  /\ OutputLine.separators tracking = separators
  /\ OutputLine.colors tracking = colors
  /\ (forall (nocolor : bool) (maxl : list nat),
         (List.length (OutputLine.columns line) <= List.length maxl)%nat ->
         let cs := cells (stored nocolor line) in
         firstn 5 (skipn k cs)
         = combine (combine (if nocolor then repeat [] 5 else colors) texts)
                   separators
         /\ OutputLine.as_padded_string (stored nocolor line) maxl
            = Ok (rstrip
                    (padded_cells maxl (firstn k cs)
                     ++ padded_cells (skipn k maxl) (firstn 5 (skipn k cs))
                     ++ padded_cells (skipn (k + 5) maxl)
                                     (skipn (k + 5) cs))))
  /\ (ahead = Some 3%N -> count_true behind = false ->
      render_alone tracking = Ok (lit "[ ahead 3 ]"))
  /\ (ahead = Some 2%N -> behind = Some 5%N ->
      render_alone tracking = Ok (lit "[ ahead 2 | behind 5 ]"))
  /\ (count_true ahead = false -> count_true behind = false ->
      OutputLine.columns tracking = [[]; []; []; []; []]
      /\ render_alone tracking = Ok []).
Proof.
  intros Hv Hget Hvalid Hline ahead behind tracking k texts separators colors.
  destruct (branch_line_cells _ _ _ _ _ Hline)
    as (bi & name & hash_text & review & subject & Hbi & _ & Hcells).
  rewrite Hget in Hbi. inversion Hbi; subst bi; clear Hbi.
  unfold BranchMapper.tracking_status in Hcells.
  rewrite Hvalid in Hcells. cbv beta iota zeta delta [negb] in Hcells.
  fold ahead behind in Hcells. destruct Hcells as [Hc Hs].
  destruct (branch_line_colors _ _ _ _ _ Hline)
    as (name_color & review_color & Hcol).
  apply Nat.leb_le in Hv. rewrite Hv in Hc, Hs, Hcol.
  assert (Htexts : OutputLine.columns tracking = texts).
  { subst tracking. unfold tracking_columns, tracking_index. rewrite Hc.
    destruct (2 <=? BranchMapper.verbosity self)%nat; reflexivity. }
  assert (Hseps : OutputLine.separators tracking = separators).
  { subst tracking. unfold tracking_columns, tracking_index. rewrite Hs.
    destruct (2 <=? BranchMapper.verbosity self)%nat; reflexivity. }
  assert (Hcolors : OutputLine.colors tracking = colors).
  { subst tracking. unfold tracking_columns, tracking_index. rewrite Hcol.
    destruct (2 <=? BranchMapper.verbosity self)%nat; reflexivity. }
  assert (Hrender :
            render_alone tracking
            = render_alone (OutputLine.mk texts separators [])).
  { rewrite <- Htexts, <- Hseps.
    unfold render_alone, OutputManager.append. simpl.
    rewrite Nat.eqb_refl. reflexivity. }
  split; [exact Htexts|]. split; [exact Hseps|]. split; [exact Hcolors|].
  split; [|rewrite Hrender, Htexts; subst texts separators; split; [|split]].
  - intros nocolor maxl Hlen cs. split.
    + subst cs k. unfold cells, stored, tracking_index.
      destruct nocolor; cbn [OutputLine.columns OutputLine.separators
                               OutputLine.colors];
        rewrite ?Hc, ?Hs, ?Hcol;
        destruct (2 <=? BranchMapper.verbosity self)%nat,
                 (BranchMapper.show_subject self); reflexivity.
    + unfold OutputLine.as_padded_string. fold (cells (stored nocolor line)).
      fold cs.
      assert (Hcs : (List.length cs <= List.length maxl)%nat).
      { subst cs. unfold cells. rewrite !length_combine.
        assert (Hstored : OutputLine.columns (stored nocolor line)
                          = OutputLine.columns line)
          by (unfold stored; now destruct nocolor).
        rewrite Hstored. lia. }
      rewrite (padded_loop_cells maxl cs 0 []) by (simpl; lia).
      cbn [bind skipn app].
      rewrite (padded_cells_split k maxl cs) at 1.
      rewrite (padded_cells_split 5 (skipn k maxl) (skipn k cs)) at 1.
      rewrite !skipn_skipn, (Nat.add_comm 5 k). reflexivity.
  - intros Ha Hb. rewrite Ha, Hb. reflexivity.
  - intros Ha Hb. rewrite Ha, Hb. reflexivity.
  - intros Ha Hb. rewrite Ha, Hb. split; reflexivity.
Qed.

Lemma tracking_status_cells_witness :
  (1 <= BranchMapper.verbosity (Repo.state Repo.basic 1 true false))%nat
  /\ nth_error
       (OutputManager.lines
          (BranchMapper.output (Repo.final 6 Repo.basic 1 true false))) 3
     = Some (stored true (Repo.row Repo.basic 1 "feature" 1))
  /\ OutputLine.as_padded_string
       (stored true (Repo.row Repo.basic 1 "feature" 1))
       (OutputManager.max_column_lengths
          (BranchMapper.output (Repo.final 6 Repo.basic 1 true false)))
     = Ok (lit "  feature         [ ahead 3            ]")
  /\ render_alone (tracking_columns 1 (Repo.row Repo.basic 1 "feature" 1))
     = Ok (lit "[ ahead 3 ]").
Proof.
  split; [by_vm|]. split; [by_vm|].
  destruct (tracking_status_cells Repo.basic
              (Repo.state Repo.basic 1 true false) (lit "feature") 1
              (BranchesInfo.mk (lit "abc") (lit "origin/master")
                               (Some 3%N) (Some 0%N))
              (Repo.row Repo.basic 1 "feature" 1)
              ltac:(by_vm) ltac:(by_vm) ltac:(by_vm) ltac:(by_vm))
    as (_ & _ & _ & Hformat & Hthree & _).
  split.
  - destruct (Hformat true
                (OutputManager.max_column_lengths
                   (BranchMapper.output (Repo.final 6 Repo.basic 1 true false)))
                ltac:(by_vm)) as [_ Htext].
    exact (eq_trans Htext ltac:(by_vm)).
  - exact (Hthree eq_refl eq_refl).
Defined.

(** C4 as stated fails: ahead 3 with a valid upstream does not read
    [[ahead 3 ]]. *)
Lemma tracking_text_has_separators :
  ~ (forall (git : git_common.t) (self : BranchMapper.t) (branch : str)
            (depth : nat) (info : BranchesInfo.t) (line : OutputLine.t),
        (1 <= BranchMapper.verbosity self)%nat ->
        dict_get (BranchMapper.branches_info self) branch = Some (Some info) ->
        BranchMapper.is_invalid_parent self (BranchesInfo.upstream info)
        = false ->
        BranchesInfo.ahead info = Some 3%N ->
        BranchesInfo.behind info = Some 0%N ->
        BranchMapper.branch_line git self branch depth = Ok line ->
        render_alone (tracking_columns (BranchMapper.verbosity self) line)
        = Ok (lit "[ahead 3 ]")).
Proof.
  intros H.
  assert (Hfalse : render_alone
                     (tracking_columns 1 (Repo.row Repo.basic 1 "feature" 1))
                   = Ok (lit "[ahead 3 ]")).
  { apply (H Repo.basic (Repo.state Repo.basic 1 true false)
             (lit "feature") 1%nat
             (BranchesInfo.mk (lit "abc") (lit "origin/master")
                              (Some 3%N) (Some 0%N))); by_vm. }
  vm_compute in Hfalse. discriminate Hfalse.
Qed.

(** * More properties of the column formatter *)

(** ** Formatting what was appended *)

Lemma fits_init (b : bool) :
  fits (OutputManager.set_nocolor OutputManager.init b).
Proof. split; [constructor | left; split; reflexivity]. Qed.

Lemma feed_keeps_fits (rows : list OutputLine.t) :
  forall m m1, fits m -> feed m rows = Ok m1 -> fits m1.
Proof.
  induction rows as [|r rows IH]; intros m m1 Hf H; simpl in H.
  - now inversion H; subst.
  - bind_inv H. eauto using append_fits.
Qed.

Lemma padded_lines_total (maxl : list nat) (ls : list OutputLine.t) :
  Forall (fun l => List.length (OutputLine.columns l) <= List.length maxl)%nat
         ls ->
  exists texts, OutputManager.padded_lines ls maxl = Ok texts.
Proof.
  induction ls as [|l ls IH]; intros Hfit;
    cbn [OutputManager.padded_lines].
  - eauto.
  - inversion Hfit; subst.
    pose proof (cells_length l) as Hc.
    destruct (padded_loop_total maxl (cells l) 0 []) as [s Hs];
      [simpl; lia|].
    destruct IH as [texts Ht]; [assumption|].
    unfold OutputLine.as_padded_string. fold (cells l).
    rewrite Hs. simpl. rewrite Ht. simpl. eauto.
Qed.

Lemma fits_formats (m : OutputManager.t) :
  fits m -> exists text, OutputManager.as_formatted_string m = Ok text.
Proof.
  intros [Hfit _]. unfold OutputManager.as_formatted_string.
  destruct (padded_lines_total _ _ Hfit) as [texts Ht].
  rewrite Ht. simpl. eauto.
Qed.

(** X1: an OutputManager filled by [append] always formats: the widths it
    keeps cover every cell of every line, so [as_formatted_string] never
    indexes [max_column_lengths] out of range, with or without colors and
    whatever the rows. *)
Theorem appended_rows_format (nocolor : bool) (rows : list OutputLine.t)
        (m : OutputManager.t) :
  feed (OutputManager.set_nocolor OutputManager.init nocolor) rows = Ok m ->
  exists text, OutputManager.as_formatted_string m = Ok text.
Proof.
  intros H. apply fits_formats.
  exact (feed_keeps_fits rows _ _ (fits_init nocolor) H).
Qed.

Lemma appended_rows_format_witness :
  exists text,
    OutputManager.as_formatted_string
      (OutputManager.mk Repo.two_rows false [1%nat; 1%nat] (Some 2%nat))
    = Ok text.
Proof.
  apply (appended_rows_format false Repo.two_rows). by_vm.
Defined.

(** ** The widths are the longest texts *)

Lemma update_max_nth (cols : list str) :
  forall maxl maxl',
    OutputManager.update_max maxl cols = Ok maxl' ->
    forall i,
      nth_error maxl' i
      = match nth_error maxl i with
        | Some w =>
            Some (match nth_error cols i with
                  | Some col => Nat.max w (List.length col)
                  | None => w
                  end)
        | None => None
        end.
Proof.
  induction cols as [|col cols IH]; intros maxl maxl' H i.
  - destruct maxl; inversion H; subst.
    + now destruct i.
    + destruct (nth_error (n :: maxl) i); [|reflexivity].
      now destruct i.
  - destruct maxl as [|m maxl]; simpl in H; [discriminate|].
    bind_inv H. inversion H; subst.
    destruct i as [|i]; simpl; [reflexivity|]. now apply IH.
Qed.

Lemma stored_columns (b : bool) (r : OutputLine.t) :
  OutputLine.columns (stored b r) = OutputLine.columns r.
Proof. now destruct b. Qed.

Lemma nth_error_repeat {A : Type} (x : A) (n i : nat) (y : A) :
  nth_error (repeat x n) i = Some y -> y = x.
Proof.
  intros H. apply nth_error_In in H. now apply repeat_spec in H.
Qed.

(** One more row keeps the widths the longest texts. *)
Lemma append_widths (m m1 : OutputManager.t) (r : OutputLine.t) :
  fits m -> widths_cover m -> widths_attained m ->
  OutputManager.append m r = Ok m1 ->
  widths_cover m1 /\ widths_attained m1.
Proof.
  intros [Hfit Hnum] Hcov Hatt H.
  destruct (append_Ok _ _ _ H) as (maxl & Hup & Hn & ->).
  pose proof (update_max_nth _ _ _ Hup) as Hnth.
  destruct (update_max_Ok _ _ _ Hup) as [_ Hlen].
  unfold widths_cover, widths_attained. simpl.
  destruct (OutputManager.no_columns (OutputManager.num_columns m)) eqn:En.
  - (* the widths start from zero: the lines so far have no cell *)
    assert (Hold : forall l, In l (OutputManager.lines m) ->
                             OutputLine.columns l = []).
    { destruct Hnum as [[_ Hl] | Hsome]; [rewrite Hl; contradiction|].
      rewrite Hsome in En. simpl in En. apply Nat.eqb_eq in En.
      intros l Hl. rewrite Forall_forall in Hfit. specialize (Hfit l Hl).
      destruct (OutputLine.columns l); [reflexivity | simpl in Hfit; lia]. }
    split.
    + intros l i col Hin Hcol. apply in_app_iff in Hin.
      destruct Hin as [Hin | [<- | []]].
      * rewrite (Hold l Hin) in Hcol. destruct i; discriminate.
      * rewrite stored_columns in Hcol. rewrite Hnth.
        assert (Hi : (i < List.length (OutputLine.columns r))%nat)
          by (apply nth_error_Some; congruence).
        destruct (nth_error (repeat 0%nat _) i) as [w|] eqn:Ew.
        -- rewrite Hcol. eexists. split; [reflexivity | lia].
        -- apply nth_error_None in Ew. rewrite repeat_length in Ew. lia.
    + intros i w Hw Hne. rewrite Hnth in Hw.
      destruct (nth_error (repeat 0%nat _) i) as [w0|] eqn:Ew;
        [|discriminate].
      apply nth_error_repeat in Ew. subst w0.
      destruct (nth_error (OutputLine.columns r) i) as [col|] eqn:Ecol;
        inversion Hw; subst; [|congruence].
      exists (stored (OutputManager.nocolor m) r), col.
      rewrite in_app_iff, stored_columns. simpl. auto.
  - split.
    + intros l i col Hin Hcol. apply in_app_iff in Hin. rewrite Hnth.
      destruct Hin as [Hin | [<- | []]].
      * destruct (Hcov _ _ _ Hin Hcol) as (w & Hw & Hle). rewrite Hw.
        eexists. split; [reflexivity|].
        destruct (nth_error (OutputLine.columns r) i); lia.
      * rewrite stored_columns in Hcol.
        assert (Hi : (i < List.length (OutputLine.columns r))%nat)
          by (apply nth_error_Some; congruence).
        destruct (nth_error (OutputManager.max_column_lengths m) i)
          as [w|] eqn:Ew.
        -- rewrite Hcol. eexists. split; [reflexivity | lia].
        -- apply nth_error_None in Ew. lia.
    + intros i w Hw Hne. rewrite Hnth in Hw.
      destruct (nth_error (OutputManager.max_column_lengths m) i)
        as [w0|] eqn:Ew; [|discriminate].
      inversion Hw as [Hw']; clear Hw.
      destruct (nth_error (OutputLine.columns r) i) as [col|] eqn:Ecol.
      * destruct (Nat.max_spec w0 (List.length col)) as [[_ Hm] | [_ Hm]].
        -- exists (stored (OutputManager.nocolor m) r), col.
           rewrite in_app_iff, stored_columns. simpl.
           split; [auto|]. split; [exact Ecol | lia].
        -- destruct (Hatt i w0 Ew ltac:(lia)) as (l & c & Hin & Hc & Hl).
           exists l, c. rewrite in_app_iff. split; [auto|].
           split; [exact Hc | lia].
      * subst w. destruct (Hatt i w0 Ew Hne) as (l & c & Hin & Hc & Hl).
        exists l, c. rewrite in_app_iff. auto.
Qed.

Lemma feed_widths (rows : list OutputLine.t) :
  forall m m1,
    fits m -> widths_cover m -> widths_attained m ->
    feed m rows = Ok m1 ->
    widths_cover m1 /\ widths_attained m1.
Proof.
  induction rows as [|r rows IH]; intros m m1 Hf Hc Ha H; simpl in H.
  - inversion H; subst. auto.
  - bind_inv H. destruct (append_widths _ _ _ Hf Hc Ha Hstep) as [Hc' Ha'].
    eauto using append_fits.
Qed.

(** X2: after any sequence of appends, [max_column_lengths] holds, column
    by column, the length of the longest text appended there: every cell
    is at most as long as the width at its position, and every non-zero
    width is the length of some cell at that position. *)
Theorem widths_are_longest (nocolor : bool) (rows : list OutputLine.t)
        (m : OutputManager.t) :
  feed (OutputManager.set_nocolor OutputManager.init nocolor) rows = Ok m ->
  widths_cover m /\ widths_attained m.
Proof.
  apply feed_widths.
  - apply fits_init.
  - intros l i col [].
  - intros i w Hw. destruct i; discriminate.
Qed.

Lemma widths_are_longest_witness :
  widths_cover
    (OutputManager.mk Repo.two_rows false [1%nat; 1%nat] (Some 2%nat))
  /\ widths_attained
       (OutputManager.mk Repo.two_rows false [1%nat; 1%nat] (Some 2%nat)).
Proof.
  apply (widths_are_longest false Repo.two_rows). by_vm.
Defined.

(** ** Trailing space *)

Lemma rstrip_split (s : str) :
  exists w, s = rstrip s ++ w /\ forallb isspace w = true.
Proof.
  induction s as [|c s (w & Hs & Hw)]; [exists []; auto|].
  cbn [rstrip]. destruct (rstrip s) as [|r0 r].
  - simpl in Hs. subst w. destruct (isspace c) eqn:Ec.
    + exists (c :: s). split; [reflexivity|]. simpl. now rewrite Ec.
    + exists s. auto.
  - exists w. split; [|exact Hw]. simpl. f_equal. exact Hs.
Qed.

Lemma rstrip_last (s : str) :
  rstrip s = []
  \/ exists s0 c, rstrip s = s0 ++ [c] /\ isspace c = false.
Proof.
  induction s as [|c s IH]; [now left|].
  simpl. destruct (rstrip s) as [|r0 r] eqn:Er.
  - destruct (isspace c) eqn:Ec; [now left|].
    right. exists [], c. auto.
  - right. destruct IH as [IH | (s0 & c0 & Hs & Hc)]; [discriminate|].
    exists (c :: s0), c0. rewrite Hs. auto.
Qed.

(** X3: the line [as_padded_string] returns is the padded text without its
    trailing space characters and nothing else removed: it is empty or ends
    in a character that is no space. *)
Theorem padded_line_is_trimmed (r : OutputLine.t) (maxl : list nat)
        (s : str) :
  OutputLine.as_padded_string r maxl = Ok s ->
  (exists padded w,
      OutputLine.padded_loop 0 (cells r) maxl [] = Ok padded
      /\ padded = s ++ w
      /\ forallb isspace w = true)
  /\ (s = [] \/ exists s0 c, s = s0 ++ [c] /\ isspace c = false).
Proof.
  unfold OutputLine.as_padded_string. fold (cells r). intros H.
  bind_inv H. inversion H; subst. split.
  - destruct (rstrip_split x) as (w & Hx & Hw). exists x, w. auto.
  - apply rstrip_last.
Qed.

Lemma padded_line_is_trimmed_witness :
  exists padded w,
    OutputLine.padded_loop 0
      (cells (OutputLine.mk [lit "c"; []] [lit " "; lit " "] [[]; []]))
      [1%nat; 1%nat] [] = Ok padded
    /\ padded = lit "c" ++ w
    /\ forallb isspace w = true.
Proof.
  exact (proj1 (padded_line_is_trimmed
                  (OutputLine.mk [lit "c"; []] [lit " "; lit " "] [[]; []])
                  [1%nat; 1%nat] (lit "c") ltac:(by_vm))).
Defined.

(** ** Columns that stayed empty *)

Lemma padded_loop_shift (cs : list (str * str * str)) :
  forall j1 j2 m1 m2 out,
    (forall k, (k < List.length cs)%nat ->
               nth_error m1 (j1 + k) = nth_error m2 (j2 + k)) ->
    OutputLine.padded_loop j1 cs m1 out = OutputLine.padded_loop j2 cs m2 out.
Proof.
  induction cs as [|[[color data] sep] cs IH]; intros j1 j2 m1 m2 out H;
    simpl; [reflexivity|].
  pose proof (H 0%nat ltac:(simpl; lia)) as H0.
  rewrite !Nat.add_0_r in H0. rewrite H0.
  assert (Hrest : forall k, (k < List.length cs)%nat ->
                            nth_error m1 (S j1 + k) = nth_error m2 (S j2 + k)).
  { intros k Hk. specialize (H (S k) ltac:(simpl; lia)).
    now rewrite !Nat.add_succ_r in H. }
  destruct (nth_error m2 j2) as [m|]; [|reflexivity].
  destruct (m =? 0)%nat; now apply IH.
Qed.

Lemma nth_error_drop_nth {A : Type} (l : list A) :
  forall i k,
    nth_error (drop_nth i l) k
    = if (k <? i)%nat then nth_error l k else nth_error l (S k).
Proof.
  induction l as [|x l IH]; intros i k; cbn [drop_nth].
  - destruct (k <? i)%nat; now destruct k.
  - destruct i as [|i]; [reflexivity|].
    destruct k as [|k]; [reflexivity|].
    cbn [nth_error]. rewrite IH. reflexivity.
Qed.

Lemma padded_loop_drop (maxl : list nat) (cs : list (str * str * str)) :
  forall j i out,
    nth_error maxl (j + i) = Some 0%nat ->
    OutputLine.padded_loop j cs maxl out
    = OutputLine.padded_loop j (drop_nth i cs) (drop_nth (j + i) maxl) out.
Proof.
  induction cs as [|[[color data] sep] cs IH]; intros j i out Hz;
    [reflexivity|].
  destruct i as [|i].
  - rewrite Nat.add_0_r in *. simpl. rewrite Hz. simpl.
    apply padded_loop_shift. intros k _.
    rewrite nth_error_drop_nth.
    replace (j + k <? j)%nat with false
      by (symmetry; apply Nat.ltb_ge; lia).
    reflexivity.
  - cbn [drop_nth OutputLine.padded_loop].
    rewrite nth_error_drop_nth.
    replace (j <? j + S i)%nat with true
      by (symmetry; apply Nat.ltb_lt; lia).
    destruct (nth_error maxl j) as [m|]; [|reflexivity].
    assert (Hz' : nth_error maxl (S j + i) = Some 0%nat)
      by (now rewrite Nat.add_succ_r in Hz).
    replace (j + S i)%nat with (S j + i)%nat by lia.
    destruct (m =? 0)%nat; now apply IH.
Qed.

Lemma combine_drop_nth {A B : Type} (a : list A) :
  forall (i : nat) (b : list B),
    combine (drop_nth i a) (drop_nth i b) = drop_nth i (combine a b).
Proof.
  induction a as [|x a IH]; intros i b; [reflexivity|].
  destruct b as [|y b].
  - simpl. now destruct i; [destruct a | ].
  - destruct i as [|i]; simpl; [reflexivity|]. now rewrite IH.
Qed.

(** X4: a column whose width is zero, so one that is empty in every row,
    takes no room in any line: neither its color nor its separator is
    written, and the line is the one of the row without that cell. *)
Theorem zero_width_column_is_skipped (r : OutputLine.t) (maxl : list nat)
        (i : nat) :
  nth_error maxl i = Some 0%nat ->
  OutputLine.as_padded_string r maxl
  = OutputLine.as_padded_string (drop_cell i r) (drop_nth i maxl).
Proof.
  intros Hz. unfold OutputLine.as_padded_string, drop_cell. simpl.
  rewrite !combine_drop_nth.
  now rewrite (padded_loop_drop maxl _ 0 i [] Hz).
Qed.

Lemma zero_width_column_is_skipped_witness :
  OutputLine.as_padded_string
    (OutputLine.mk [lit "a"; []; lit "b"]
                   [lit " "; lit "----"; lit " "]
                   [Fore.RED; Fore.BLUE; Fore.RED])
    [1%nat; 0%nat; 1%nat]
  = OutputLine.as_padded_string
      (OutputLine.mk [lit "a"; lit "b"] [lit " "; lit " "]
                     [Fore.RED; Fore.RED])
      [1%nat; 1%nat].
Proof.
  exact (zero_width_column_is_skipped
           (OutputLine.mk [lit "a"; []; lit "b"]
                          [lit " "; lit "----"; lit " "]
                          [Fore.RED; Fore.BLUE; Fore.RED])
           [1%nat; 0%nat; 1%nat] 1 eq_refl).
Defined.

(** * More properties of the topology *)

(** X5: the forest [start] builds from a listing without duplicate keys:
    the children lists of the parent map hold every local branch exactly
    once, each under the parent it tracks (its recorded upstream when that
    is a local branch, else the upstream git resolves, else the recorded
    one), and the roots are exactly the parents of the branches whose
    recorded upstream is no local branch. *)
Theorem forest_shape (git : git_common.t) (v : nat) (nocolor : bool)
        (jobs : option nat) (subject : bool) (self : BranchMapper.t)
        (roots : list str) :
  let d := git_common.get_branches_info git (1 <=? v)%nat in
  NoDup (keys d) ->
  BranchMapper.build git (BranchMapper.init v nocolor jobs subject)
  = Ok (self, roots) ->
  Permutation (all_children (BranchMapper.parent_map self))
              (local_branches d)
  /\ (forall b info,
         In (b, Some info) d ->
         exists l,
           dict_get (BranchMapper.parent_map self) (parent_of git d b info)
           = Some l
           /\ In b l)
  /\ (forall r,
         In r roots <->
         exists b info,
           In (b, Some info) d
           /\ is_local d (BranchesInfo.upstream info) = false
           /\ parent_of git d b info = r).
Proof.
  intros d Hkeys Hb.
  pose proof (build_topology git
                (BranchMapper.init v nocolor jobs subject) self roots
                eq_refl Hb) as T.
  change (git_common.get_branches_info git
            (1 <=? BranchMapper.verbosity
                     (BranchMapper.init v nocolor jobs subject))%nat)
    with d in T.
  destruct T as (N & P & C & _ & R1 & R2). simpl in *.
  split; [exact P|]. split.
  - intros b info Hin.
    assert (Hb' : In b (all_children (BranchMapper.parent_map self))).
    { apply (Permutation_in _ (Permutation_sym P)).
      apply In_local_branches. eauto. }
    apply In_all_children in Hb'. destruct Hb' as (p & l & Hpl & Hbl).
    destruct (C _ _ _ Hpl Hbl) as (info' & Hin' & Hp).
    pose proof (In_dict_get _ _ _ Hkeys Hin) as G1.
    pose proof (In_dict_get _ _ _ Hkeys Hin') as G2.
    rewrite G1 in G2. inversion G2; subst info'.
    exists l. rewrite Hp. split; [now apply In_dict_get | exact Hbl].
  - intros r. split; [apply R1|].
    intros (b & info & Hin & Hl & <-). now apply R2.
Qed.

Lemma forest_shape_witness :
  NoDup (keys (git_common.get_branches_info Repo.basic (1 <=? 0)%nat))
  /\ Permutation
       (all_children
          (BranchMapper.parent_map (Repo.state Repo.basic 0 true false)))
       (local_branches
          (git_common.get_branches_info Repo.basic (1 <=? 0)%nat)).
Proof.
  assert (Hk : NoDup (keys (git_common.get_branches_info Repo.basic
                              (1 <=? 0)%nat)))
    by (apply distinct_NoDup; by_vm).
  split; [exact Hk|].
  exact (proj1 (forest_shape Repo.basic 0 true None false
                  (Repo.state Repo.basic 0 true false)
                  [lit "origin/master"; lit "missing"] Hk ltac:(by_vm))).
Defined.

(** ** Gone upstreams *)

Lemma place_branch_gone (git : git_common.t)
      (d seen : dict (option BranchesInfo.t))
      (st st' : BranchMapper.t * list str)
      (item : str * option BranchesInfo.t) :
  BranchMapper.branches_info (fst st) = d ->
  (forall g, In g (BranchMapper.gone_branches (fst st)) <->
             lost git d seen g) ->
  incl (BranchMapper.gone_branches (fst st)) (snd st) ->
  BranchMapper.place_branch git st item = Ok st' ->
  (forall g, In g (BranchMapper.gone_branches (fst st')) <->
             lost git d (seen ++ [item]) g)
  /\ incl (BranchMapper.gone_branches (fst st')) (snd st').
Proof.
  destruct st as [self roots], item as [branch [info|]]; simpl;
    intros Hd Hgone Hincl H.
  - assert (Hold : forall g, lost git d seen g ->
                             lost git d (seen ++ [(branch, Some info)]) g).
    { intros g (b & i & Hin & Hrest). exists b, i.
      rewrite in_app_iff. auto. }
    assert (Hnew : forall g,
               lost git d (seen ++ [(branch, Some info)]) g ->
               lost git d seen g
               \/ (BranchesInfo.upstream info = g
                   /\ dict_get d g = Some None
                   /\ str_true (git_common.upstream git branch) = false)).
    { intros g (b & i & Hin & Hrest). apply in_app_iff in Hin.
      destruct Hin as [Hin | [Hin | []]].
      - left. exists b, i. auto.
      - inversion Hin; subst. right. exact Hrest. }
    unfold dict_item in H. rewrite Hd in H.
    destruct (dict_get d (BranchesInfo.upstream info)) as [[pinfo|]|] eqn:E;
      simpl in H; [| |discriminate].
    + inversion H; subst st'; clear H. simpl. split; [|exact Hincl].
      intros g. rewrite Hgone. split; [apply Hold|].
      intros Hg. destruct (Hnew g Hg) as [Ho | (Hu & Hn & _)]; [exact Ho|].
      subst g. congruence.
    + destruct (str_true (git_common.upstream git branch)) eqn:Eu;
        inversion H; subst st'; clear H; simpl.
      * split.
        -- intros g. rewrite Hgone. split; [apply Hold|].
           intros Hg.
           destruct (Hnew g Hg) as [Ho | (_ & _ & Hf)]; [exact Ho|].
           discriminate.
        -- intros g Hg. apply In_set_add. right. now apply Hincl.
      * split.
        -- intros g. rewrite In_set_add, Hgone. split.
           ++ intros [-> | Hg]; [|now apply Hold].
              exists branch, info. rewrite in_app_iff. simpl. auto.
           ++ intros Hg. destruct (Hnew g Hg) as [Ho | (Hu & _)]; auto.
        -- intros g Hg. apply In_set_add in Hg. apply In_set_add.
           destruct Hg as [-> | Hg]; [now left | right; now apply Hincl].
  - inversion H; subst st'; clear H. simpl. split; [|exact Hincl].
    intros g. rewrite Hgone. split.
    + intros (b & i & Hin & Hrest). exists b, i. rewrite in_app_iff. auto.
    + intros (b & i & Hin & Hrest). apply in_app_iff in Hin.
      destruct Hin as [Hin | [Hin | []]]; [|discriminate].
      exists b, i. auto.
Qed.

Lemma place_branches_gone (git : git_common.t)
      (d : dict (option BranchesInfo.t)) :
  forall items seen st st',
    BranchMapper.branches_info (fst st) = d ->
    (forall g, In g (BranchMapper.gone_branches (fst st)) <->
               lost git d seen g) ->
    incl (BranchMapper.gone_branches (fst st)) (snd st) ->
    BranchMapper.place_branches git st items = Ok st' ->
    (forall g, In g (BranchMapper.gone_branches (fst st')) <->
               lost git d (seen ++ items) g)
    /\ incl (BranchMapper.gone_branches (fst st')) (snd st').
Proof.
  induction items as [|item items IH]; intros seen st st' Hd Hg Hi H;
    simpl in H.
  - inversion H; subst. rewrite app_nil_r. auto.
  - bind_inv H.
    destruct (place_branch_gone _ _ _ _ _ _ Hd Hg Hi Hstep) as [Hg' Hi'].
    replace (seen ++ item :: items) with ((seen ++ [item]) ++ items)
      by (now rewrite <- app_assoc).
    assert (Hd' : BranchMapper.branches_info (fst x) = d).
    { destruct x as [s1 r1], st as [s0 r0].
      destruct (place_branch_frame _ _ _ _ _ _ Hstep) as (_ & _ & _ & Hbi).
      simpl in *. now rewrite Hbi. }
    eapply IH; eauto.
Qed.

Lemma build_gone (git : git_common.t) (self0 self : BranchMapper.t)
      (roots : list str) :
  BranchMapper.gone_branches self0 = [] ->
  BranchMapper.build git self0 = Ok (self, roots) ->
  let d := git_common.get_branches_info git
             (1 <=? BranchMapper.verbosity self0)%nat in
  (forall g, In g (BranchMapper.gone_branches self) <-> lost git d d g)
  /\ incl (BranchMapper.gone_branches self) roots.
Proof.
  intros Hnil Hb d.
  destruct (build_frame _ _ _ _ Hb)
    as (_ & _ & _ & _ & s0 & s1 & Hplace & Hd & _ & Hg0 & _ & Hg1).
  fold d in Hd, Hplace. rewrite Hnil in Hg0.
  destruct (place_branches_gone git d d [] (s0, []) (s1, roots) Hd)
    as [Hspec Hincl]; auto.
  - simpl. rewrite Hg0. intros g. split; [contradiction|].
    intros (b & i & [] & _).
  - simpl. rewrite Hg0. intros g [].
  - simpl in Hspec, Hincl. rewrite Hg1. auto.
Qed.

(** X6: the gone set [start] builds holds exactly the recorded upstreams
    that have an empty entry in the listing and that git does not resolve
    for a branch that records them; every gone name is a root, and none is
    a local branch. *)
Theorem gone_branches_spec (git : git_common.t) (v : nat) (nocolor : bool)
        (jobs : option nat) (subject : bool) (self : BranchMapper.t)
        (roots : list str) :
  let d := git_common.get_branches_info git (1 <=? v)%nat in
  BranchMapper.build git (BranchMapper.init v nocolor jobs subject)
  = Ok (self, roots) ->
  (forall g, In g (BranchMapper.gone_branches self) <-> lost git d d g)
  /\ (forall g, In g (BranchMapper.gone_branches self) ->
                In g roots /\ is_local d g = false).
Proof.
  intros d Hb.
  destruct (build_gone git (BranchMapper.init v nocolor jobs subject) _ _
              eq_refl Hb) as [Hspec Hincl].
  change (forall g, In g (BranchMapper.gone_branches self) <-> lost git d d g)
    in Hspec.
  split; [exact Hspec|].
  intros g Hg. split; [now apply Hincl|].
  apply Hspec in Hg. destruct Hg as (b & i & _ & _ & Hn & _).
  unfold is_local. now rewrite Hn.
Qed.

Lemma gone_branches_spec_witness :
  In (lit "missing")
     (BranchMapper.gone_branches (Repo.state Repo.basic 0 true false))
  /\ In (lit "missing") [lit "origin/master"; lit "missing"]
  /\ is_local (git_common.get_branches_info Repo.basic (1 <=? 0)%nat)
       (lit "missing") = false.
Proof.
  assert (Hg : In (lit "missing")
                  (BranchMapper.gone_branches
                     (Repo.state Repo.basic 0 true false)))
    by (vm_compute; auto).
  split; [exact Hg|].
  exact (proj2 (gone_branches_spec Repo.basic 0 true None false
                  (Repo.state Repo.basic 0 true false)
                  [lit "origin/master"; lit "missing"] ltac:(by_vm))
           (lit "missing") Hg).
Defined.

(** * How a run fails *)

(** The three ways in which building a row fails. *)
Lemma branch_line_raises (git : git_common.t) (self : BranchMapper.t)
      (branch : str) (depth : nat) (e : exn) :
  BranchMapper.branch_line git self branch depth = Raise e ->
  (e = KeyError
   /\ (dict_get (BranchMapper.branches_info self) branch = None
       \/ (2 <=? BranchMapper.verbosity self)%nat = true))
  \/ (e = TypeError
      /\ dict_get (BranchMapper.branches_info self) branch = Some None
      /\ git_common.hash_one git branch = None
      /\ BranchMapper.is_invalid_parent self branch = false)
  \/ (e = CalledProcessError
      /\ BranchMapper.show_subject self = true
      /\ git_common.run_log git branch = None).
Proof.
  unfold BranchMapper.branch_line, dict_item.
  destruct (dict_get (BranchMapper.branches_info self) branch)
    as [bi|] eqn:Eb; cbn [bind];
    [|intros H; inversion H; left; auto].
  destruct (BranchMapper.color_for_branch self branch _)
    as [color|e'] eqn:Ec; cbn [bind].
  - destruct (2 <=? BranchMapper.verbosity self)%nat eqn:E2.
    + destruct (dict_get (BranchMapper.status_info self) branch)
        as [[url c]|]; cbn [bind];
        [|intros H; inversion H; left; auto].
      destruct (BranchMapper.show_subject self) eqn:Es; [|discriminate].
      destruct (git_common.run_log git branch) eqn:El; [discriminate|].
      intros H; inversion H. right. right. auto.
    + cbn [bind].
      destruct (BranchMapper.show_subject self) eqn:Es; [|discriminate].
      destruct (git_common.run_log git branch) eqn:El; [discriminate|].
      intros H; inversion H. right. right. auto.
  - intros H. inversion H; subst e'; clear H. right. left.
    unfold BranchMapper.color_for_branch in Ec.
    destruct (startswith branch (lit "origin"));
      [destruct bi as [i|]; [|destruct (git_common.hash_one git branch)];
       simpl in Ec;
       repeat match type of Ec with
              | context [match ?x with _ => _ end] => destruct x
              end; discriminate|].
    destruct (startswith branch (lit "branch-heads"));
      [destruct bi as [i|]; [|destruct (git_common.hash_one git branch)];
       simpl in Ec;
       repeat match type of Ec with
              | context [match ?x with _ => _ end] => destruct x
              end; discriminate|].
    destruct (BranchMapper.is_invalid_parent self branch) eqn:Ei;
      [destruct bi as [i|]; [|destruct (git_common.hash_one git branch)];
       simpl in Ec;
       repeat match type of Ec with
              | context [match ?x with _ => _ end] => destruct x
              end; discriminate|].
    destruct bi as [i|].
    + simpl in Ec.
      repeat match type of Ec with
             | context [match ?x with _ => _ end] => destruct x
             end; discriminate.
    + destruct (git_common.hash_one git branch) eqn:Eh.
      * simpl in Ec.
        repeat match type of Ec with
               | context [match ?x with _ => _ end] => destruct x
               end; discriminate.
      * simpl in Ec. destruct (mem branch (BranchMapper.tag_set self));
          simpl in Ec; inversion Ec. auto.
Qed.

Lemma incl_all_children (pm1 pm : dict (list str)) :
  incl pm1 pm -> incl (all_children pm1) (all_children pm).
Proof.
  intros H b Hb. apply In_all_children in Hb.
  destruct Hb as (p & l & Hin & Hbl). apply In_all_children. eauto.
Qed.

Lemma fails_at_incl (git : git_common.t) (s1 s2 : BranchMapper.t)
      (n1 n2 : list str) (e : exn) :
  view s1 = view s2 -> incl n1 n2 ->
  fails_at git s1 n1 e -> fails_at git s2 n2 e.
Proof.
  intros Hv Hi (b & d & Hb & Hl). exists b, d. split; [auto|].
  now rewrite <- (branch_line_view git s1 s2).
Qed.

(** A traversal that raises does so in the row of the name it starts from
    or of a child in the parent map. *)
Lemma fails_each (git : git_common.t) (fuel : nat) :
  (forall self b d e,
      tidy (width self) (BranchMapper.output self) ->
      NoDup (keys (BranchMapper.parent_map self)) ->
      BranchMapper.append_branch fuel git self b d = Some (Raise e) ->
      fails_at git self (b :: all_children (BranchMapper.parent_map self)) e) ->
  forall cs self d e,
    tidy (width self) (BranchMapper.output self) ->
    NoDup (keys (BranchMapper.parent_map self)) ->
    BranchMapper.for_each
      (fun s c => BranchMapper.append_branch fuel git s c d) cs self
    = Some (Raise e) ->
    fails_at git self (cs ++ all_children (BranchMapper.parent_map self)) e.
Proof.
  intros IHf. induction cs as [|c cs IH]; intros self d e Ht Hn H;
    simpl in H; [discriminate|].
  destruct (BranchMapper.append_branch fuel git self c d)
    as [[s1|e1]|] eqn:E; [| |discriminate].
  - pose proof (simulates_append_branch git _ _ _ _ _ Ht E) as Hs.
    unfold simulates in Hs.
    destruct Hs as (Hv & Ht1 & vs & rows & Hw & _).
    destruct (walked_walk _ _ _ _ _ Hn Hw) as (N1 & I1 & _). simpl in *.
    rewrite <- (width_view _ _ Hv) in Ht1.
    apply (fails_at_incl git s1 self
             (cs ++ all_children (BranchMapper.parent_map s1)) _ e Hv).
    + intros x Hx. apply in_app_iff in Hx. simpl. rewrite in_app_iff.
      destruct Hx as [Hx|Hx]; [auto|].
      right. right. now apply (incl_all_children _ _ I1).
    + now apply (IH s1 d e).
  - inversion H; subst e1.
    apply (fails_at_incl git self self
             (c :: all_children (BranchMapper.parent_map self)) _ e eq_refl);
      [|exact (IHf _ _ _ _ Ht Hn E)].
    intros x Hx. simpl in *. rewrite in_app_iff. tauto.
Qed.

Lemma fails_append_branch (git : git_common.t) :
  forall fuel self b d e,
    tidy (width self) (BranchMapper.output self) ->
    NoDup (keys (BranchMapper.parent_map self)) ->
    BranchMapper.append_branch fuel git self b d = Some (Raise e) ->
    fails_at git self (b :: all_children (BranchMapper.parent_map self)) e.
Proof.
  induction fuel as [|fuel IH]; intros self b d e Ht Hn H; simpl in H;
    [discriminate|].
  destruct (BranchMapper.branch_line git self b d) as [line|e1] eqn:El.
  - pose proof (branch_line_width _ _ _ _ _ El) as Hw.
    destruct (append_tidy _ _ _ (row_width_pos _ _) Ht Hw)
      as (o' & Ho' & Ht' & Hnc & _).
    rewrite Ho' in H. simpl in H.
    set (self1 := BranchMapper.with_parent_map
                    (BranchMapper.with_output self o')
                    (dict_remove (BranchMapper.parent_map self) b)) in *.
    assert (Hv1 : view self1 = view self)
      by (unfold view, self1; simpl; now rewrite Hnc).
    assert (Ht1 : tidy (width self1) (BranchMapper.output self1))
      by (rewrite (width_view _ _ Hv1); exact Ht').
    assert (Hn1 : NoDup (keys (BranchMapper.parent_map self1)))
      by (simpl; now apply NoDup_keys_dict_remove).
    pose proof (fails_each git fuel IH _ _ _ _ Ht1 Hn1 H) as Hf.
    refine (fails_at_incl git self1 self _ _ e Hv1 _ Hf).
    intros x Hx. apply in_app_iff in Hx. right.
    destruct Hx as [Hx|Hx].
    + apply (Permutation_in _ (sorted_perm _)) in Hx.
      destruct (dict_get (BranchMapper.parent_map self) b) as [l|] eqn:Eg;
        [|contradiction].
      apply In_all_children. exists b, l. split; [|exact Hx].
      now apply dict_get_In.
    + simpl in Hx.
      exact (incl_all_children _ _ (dict_remove_incl _ _) _ Hx).
  - inversion H; subst e1. exists b, d. simpl. auto.
Qed.

Lemma drain_statuses_short (f : str -> str) (n : nat) :
  forall it d e,
    BranchMapper.drain_statuses n it f d = Raise e ->
    e = StopIteration /\ (List.length it < n)%nat.
Proof.
  induction n as [|n IH]; intros it d e H; simpl in H; [discriminate|].
  destruct it as [|[[branch url] status] it].
  - inversion H. split; [reflexivity | simpl; lia].
  - destruct (IH _ _ _ H). split; [assumption | simpl; lia].
Qed.

Lemma place_branches_missing_key (git : git_common.t)
      (d : dict (option BranchesInfo.t))
      (items : dict (option BranchesInfo.t)) :
  forall st e,
    BranchMapper.branches_info (fst st) = d ->
    BranchMapper.place_branches git st items = Raise e ->
    e = KeyError
    /\ exists b info,
        In (b, Some info) items
        /\ dict_get d (BranchesInfo.upstream info) = None.
Proof.
  induction items as [|item items IH]; intros st e Hd H; simpl in H;
    [discriminate|].
  destruct (BranchMapper.place_branch git st item) as [st'|e'] eqn:Ep;
    simpl in H.
  - assert (Hd' : BranchMapper.branches_info (fst st') = d).
    { destruct st as [s0 r0], st' as [s1 r1].
      destruct (place_branch_frame _ _ _ _ _ _ Ep) as (_ & _ & _ & Hbi).
      simpl in *. now rewrite Hbi. }
    destruct (IH _ _ Hd' H) as (He & b & info & Hin & Hn).
    split; [exact He|]. exists b, info. split; [now right | exact Hn].
  - inversion H; subst e'. clear H.
    unfold BranchMapper.place_branch, dict_item in Ep.
    destruct st as [self roots], item as [branch [info|]]; [|discriminate].
    simpl in Hd. rewrite Hd in Ep.
    destruct (dict_get d (BranchesInfo.upstream info)) as [[p|]|] eqn:E;
      simpl in Ep.
    + discriminate.
    + destruct (str_true (git_common.upstream git branch)); discriminate.
    + inversion Ep. split; [reflexivity|].
      exists branch, info. split; [now left | exact E].
Qed.

(** The three ways in which the topology construction fails. *)
Lemma build_raises (git : git_common.t) (self : BranchMapper.t) (e : exn) :
  let d := git_common.get_branches_info git
             (1 <=? BranchMapper.verbosity self)%nat in
  BranchMapper.build git self = Raise e ->
  (e = StopIteration
   /\ (2 <= BranchMapper.verbosity self)%nat
   /\ (List.length
         (git_common.get_cl_statuses git (keys d)
            (2 <? BranchMapper.verbosity self)%nat
            (BranchMapper.maxjobs self))
       < List.length d)%nat)
  \/ (e = KeyError
      /\ exists b info,
          In (b, Some info) d
          /\ dict_get d (BranchesInfo.upstream info) = None)
  \/ (e = CalledProcessError
      /\ git_common.hash_one git (lit "HEAD") = None).
Proof.
  intros d. unfold BranchMapper.build. fold d. intros H.
  match type of H with
  | bind ?r _ = _ => destruct r as [self1|e1] eqn:E1; cbn [bind] in H
  end.
  - assert (Hd : BranchMapper.branches_info self1 = d).
    { cbn -[Nat.leb Nat.ltb] in E1.
      destruct (2 <=? BranchMapper.verbosity self)%nat.
      - bind_inv E1. now inversion E1.
      - now inversion E1. }
    rewrite Hd in H.
    match type of H with
    | bind ?r _ = _ => destruct r as [[self2 roots]|e2] eqn:E2;
                       cbn [bind] in H
    end.
    + destruct (git_common.hash_one git (lit "HEAD")) eqn:Eh;
        [discriminate|].
      inversion H. right. right. auto.
    + inversion H; subst e2.
      destruct (place_branches_missing_key git d d (self1, []) e Hd E2)
        as (He & Hex).
      right. left. auto.
  - inversion H; subst e1. left.
    cbn -[Nat.leb Nat.ltb] in E1.
    destruct (2 <=? BranchMapper.verbosity self)%nat eqn:E2;
      [|discriminate].
    match type of E1 with
    | bind ?r _ = _ => destruct r as [x|e3] eqn:E3; cbn [bind] in E1
    end; [discriminate|].
    inversion E1; subst e3.
    destruct (drain_statuses_short _ _ _ _ _ E3) as [He Hlen].
    split; [exact He|]. split; [now apply Nat.leb_le | exact Hlen].
Qed.

(** A raising run names its cause. *)
Lemma start_raise_causes (fuel : nat) (git : git_common.t) (v : nat)
      (nocolor : bool) (jobs : option nat) (subject : bool) (e : exn) :
  let d := git_common.get_branches_info git (1 <=? v)%nat in
  NoDup (keys d) ->
  BranchMapper.start fuel git (BranchMapper.init v nocolor jobs subject)
  = Some (Raise e) ->
  (e = StopIteration
   /\ (2 <= v)%nat
   /\ (List.length (git_common.get_cl_statuses git (keys d) (2 <? v)%nat jobs)
       < List.length d)%nat)
  \/ (e = KeyError
      /\ ((exists b info,
              In (b, Some info) d
              /\ dict_get d (BranchesInfo.upstream info) = None)
          \/ (exists b info c u,
                 In (b, Some info) d
                 /\ git_common.upstream git b = Some (c :: u)
                 /\ dict_get d (c :: u) = None)
          \/ (2 <= v)%nat))
  \/ (e = CalledProcessError
      /\ (git_common.hash_one git (lit "HEAD") = None
          \/ (subject = true
              /\ exists b, git_common.run_log git b = None)))
  \/ (e = TypeError
      /\ exists b info c u,
          In (b, Some info) d
          /\ git_common.upstream git b = Some (c :: u)
          /\ dict_get d (c :: u) = Some None
          /\ git_common.hash_one git (c :: u) = None).
Proof.
  intros d Hkeys Hstart.
  set (self0 := BranchMapper.init v nocolor jobs subject) in *.
  destruct (BranchMapper.build git self0) as [[self' roots]|e0] eqn:Eb.
  2:{ unfold BranchMapper.start in Hstart. rewrite Eb in Hstart.
      inversion Hstart; subst e0.
      destruct (build_raises git self0 e Eb) as [H | [[He H] | [He H]]].
      - left. exact H.
      - right. left. auto.
      - right. right. left. auto. }
  pose proof (build_topology git self0 self' roots eq_refl Eb) as T.
  change (git_common.get_branches_info git
            (1 <=? BranchMapper.verbosity self0)%nat) with d in T.
  destruct (build_frame _ _ _ _ Eb) as (Hv & Hsub & Hout & Hbi & _).
  change (BranchMapper.verbosity self' = v) in Hv.
  change (BranchMapper.show_subject self' = subject) in Hsub.
  change (BranchMapper.branches_info self' = d) in Hbi.
  destruct (build_gone git self0 self' roots eq_refl Eb) as [Hgone _].
  change (forall g, In g (BranchMapper.gone_branches self') <-> lost git d d g)
    in Hgone.
  assert (Ht : forall n, tidy n (BranchMapper.output self'))
    by (intros n; rewrite Hout; apply tidy_init).
  destruct roots as [|c roots].
  { rewrite (start_sentinel _ _ _ _ Eb) in Hstart.
    destruct (append_tidy 1 (BranchMapper.output self') sentinel_row
                ltac:(lia) (Ht 1%nat) eq_refl) as (o' & Ho' & _).
    rewrite Ho' in Hstart. discriminate. }
  destruct T as (N & P & _ & _ & R1 & _). simpl in N, P, R1.
  unfold BranchMapper.start in Hstart. rewrite Eb in Hstart.
  destruct (fails_each git fuel
              (fun s b dd e' => fails_append_branch git fuel s b dd e')
              _ _ _ _ (Ht _) N Hstart) as (b' & d' & Hin & Hline).
  destruct (branch_line_raises _ _ _ _ _ Hline)
    as [[He Hc] | [(He & Hn & Hh & Hi) | (He & Hs & Hl)]].
  - (* KeyError *)
    right. left. split; [exact He|].
    rewrite Hv in Hc.
    destruct Hc as [Hc | Hc]; [|right; right; now apply Nat.leb_le].
    rewrite Hbi in Hc. apply in_app_iff in Hin. destruct Hin as [Hin|Hin].
    + apply (Permutation_in _ (sorted_perm _)) in Hin.
      destruct (R1 _ Hin) as (b & info & Hbin & Hloc & Hp).
      unfold parent_of in Hp. rewrite Hloc in Hp.
      destruct (git_common.upstream git b) as [[|c0 u]|] eqn:Eu.
      * subst b'. left. exists b, info. auto.
      * subst b'. right. left. exists b, info, c0, u. auto.
      * subst b'. left. exists b, info. auto.
    + exfalso. apply (Permutation_in _ P) in Hin.
      apply In_local_branches in Hin. destruct Hin as [info Hin'].
      apply dict_get_None in Hc. apply Hc.
      apply in_map_iff. exists (b', Some info). auto.
  - (* TypeError *)
    right. right. right. split; [exact He|].
    rewrite Hbi in Hn. apply in_app_iff in Hin. destruct Hin as [Hin|Hin].
    + apply (Permutation_in _ (sorted_perm _)) in Hin.
      destruct (R1 _ Hin) as (b & info & Hbin & Hloc & Hp).
      unfold parent_of in Hp. rewrite Hloc in Hp.
      assert (Hlost : str_true (git_common.upstream git b) = false ->
                      BranchesInfo.upstream info = b' -> False).
      { intros Hu Hb'.
        assert (Hg : In b' (BranchMapper.gone_branches self')).
        { apply Hgone. exists b, info. auto. }
        unfold BranchMapper.is_invalid_parent in Hi.
        apply mem_In in Hg. destruct b'; [discriminate | congruence]. }
      destruct (git_common.upstream git b) as [[|c0 u]|] eqn:Eu.
      * exfalso. now apply Hlost.
      * subst b'. exists b, info, c0, u. auto.
      * exfalso. now apply Hlost.
    + exfalso. apply (Permutation_in _ P) in Hin.
      apply In_local_branches in Hin. destruct Hin as [info Hin'].
      rewrite (In_dict_get _ _ _ Hkeys Hin') in Hn. discriminate.
  - (* CalledProcessError *)
    right. right. left. split; [exact He|]. right.
    rewrite Hsub in Hs. eauto.
Qed.

(** X7: a run of [start] that raises does so for a cause in what git or
    the review server answered: StopIteration when, at verbosity 2 or
    more, fewer statuses arrive than the listing has entries; KeyError
    when a recorded or resolved upstream is no key of the listing, or at
    verbosity 2 or more; CalledProcessError when HEAD does not resolve
    or, with the subject shown, [git log] fails; TypeError when an
    upstream that git resolves has no commit hash.  It never fails on the
    column count or on an index. *)
Theorem start_failures (fuel : nat) (git : git_common.t) (v : nat)
        (nocolor : bool) (jobs : option nat) (subject : bool) (e : exn) :
  let d := git_common.get_branches_info git (1 <=? v)%nat in
  NoDup (keys d) ->
  BranchMapper.start fuel git (BranchMapper.init v nocolor jobs subject)
  = Some (Raise e) ->
  (e = StopIteration
   /\ (2 <= v)%nat
   /\ (List.length (git_common.get_cl_statuses git (keys d) (2 <? v)%nat jobs)
       < List.length d)%nat)
  \/ (e = KeyError
      /\ ((exists b info,
              In (b, Some info) d
              /\ dict_get d (BranchesInfo.upstream info) = None)
          \/ (exists b info c u,
                 In (b, Some info) d
                 /\ git_common.upstream git b = Some (c :: u)
                 /\ dict_get d (c :: u) = None)
          \/ (2 <= v)%nat))
  \/ (e = CalledProcessError
      /\ (git_common.hash_one git (lit "HEAD") = None
          \/ (subject = true
              /\ exists b, git_common.run_log git b = None)))
  \/ (e = TypeError
      /\ exists b info c u,
          In (b, Some info) d
          /\ git_common.upstream git b = Some (c :: u)
          /\ dict_get d (c :: u) = Some None
          /\ git_common.hash_one git (c :: u) = None).
Proof. exact (start_raise_causes fuel git v nocolor jobs subject e). Qed.

Lemma start_failures_witness :
  exists b info c u,
    In (b, Some info)
       (git_common.get_branches_info Repo.unresolved (1 <=? 0)%nat)
    /\ git_common.upstream Repo.unresolved b = Some (c :: u)
    /\ dict_get (git_common.get_branches_info Repo.unresolved (1 <=? 0)%nat)
                (c :: u) = Some None
    /\ git_common.hash_one Repo.unresolved (c :: u) = None.
Proof.
  destruct (start_failures 3 Repo.unresolved 0 true None false TypeError
              ltac:(apply distinct_NoDup; by_vm) ltac:(by_vm))
    as [[H _] | [[H _] | [[H _] | [_ H]]]];
    [discriminate H | discriminate H | discriminate H | exact H].
Defined.

Lemma start_total (fuel : nat) (git : git_common.t) (v : nat)
      (nocolor : bool) (jobs : option nat) (subject : bool) :
  (List.length (git_common.get_branches_info git (1 <=? v)%nat) < fuel)%nat ->
  exists r,
    BranchMapper.start fuel git (BranchMapper.init v nocolor jobs subject)
    = Some r.
Proof.
  intros Hfuel. unfold BranchMapper.start.
  destruct (BranchMapper.build git (BranchMapper.init v nocolor jobs subject))
    as [[self' roots]|e] eqn:Eb; [|eauto].
  destruct roots as [|c roots].
  - destruct (OutputManager.append _ _); eauto.
  - pose proof (build_topology git
                  (BranchMapper.init v nocolor jobs subject) self' _
                  eq_refl Eb) as T.
    destruct T as (_ & P & _).
    cbn [fst BranchMapper.verbosity BranchMapper.init] in P.
    apply Permutation_length in P.
    pose proof (local_branches_length
                  (git_common.get_branches_info git (1 <=? v)%nat)) as Hl.
    destruct (for_each_total
                (fun s root => BranchMapper.append_branch fuel git s root 0)
                fuel (fun s c Hs => append_branch_total git fuel s c 0 Hs)
                (sorted (c :: roots)) self') as (r & Hr & _).
    { intros _. lia. }
    eauto.
Qed.

(** X8: at verbosity 0 or 1, [start] returns normally when HEAD resolves,
    the listing has no duplicate key and holds an entry for every
    recorded upstream, every upstream that git resolves for a listed
    branch is a key of the listing whose commit hash resolves when its
    entry is empty, and [git log] succeeds whenever the subject is
    shown. *)
Theorem start_succeeds (fuel : nat) (git : git_common.t) (v : nat)
        (nocolor : bool) (jobs : option nat) (subject : bool) :
  let d := git_common.get_branches_info git (1 <=? v)%nat in
  (v <= 1)%nat ->
  (List.length d < fuel)%nat ->
  NoDup (keys d) ->
  git_common.hash_one git (lit "HEAD") <> None ->
  (forall b info,
      In (b, Some info) d -> dict_get d (BranchesInfo.upstream info) <> None) ->
  (forall b info c u,
      In (b, Some info) d ->
      git_common.upstream git b = Some (c :: u) ->
      dict_get d (c :: u) <> None
      /\ (dict_get d (c :: u) = Some None ->
          git_common.hash_one git (c :: u) <> None)) ->
  (subject = true -> forall b, git_common.run_log git b <> None) ->
  exists self',
    BranchMapper.start fuel git (BranchMapper.init v nocolor jobs subject)
    = Some (Ok self').
Proof.
  intros d Hv Hfuel Hkeys Hhead Hclosed Hres Hlog.
  destruct (start_total fuel git v nocolor jobs subject Hfuel) as [[s|e] Hr];
    [eauto|].
  exfalso.
  destruct (start_raise_causes fuel git v nocolor jobs subject e Hkeys Hr)
    as [(_ & H2 & _)
       | [(_ & [(b & i & Hin & Hn) | [(b & i & c & u & Hin & Hu & Hn) | H2]])
         | [(_ & [Hh | (Hs & b & Hl)])
           | (_ & b & i & c & u & Hin & Hu & Hn & Hh)]]].
  - lia.
  - exact (Hclosed _ _ Hin Hn).
  - exact (proj1 (Hres _ _ _ _ Hin Hu) Hn).
  - lia.
  - exact (Hhead Hh).
  - exact (Hlog Hs b Hl).
  - exact (proj2 (Hres _ _ _ _ Hin Hu) Hn Hh).
Qed.

Lemma start_succeeds_witness :
  exists self',
    BranchMapper.start 6 Repo.basic (BranchMapper.init 0 true None false)
    = Some (Ok self').
Proof.
  apply (start_succeeds 6 Repo.basic 0 true None false);
    [lia | by_vm | apply distinct_NoDup; by_vm | vm_compute; discriminate
    | | | intros H; discriminate H].
  - intros b info Hin.
    repeat (destruct Hin as [Hin|Hin];
            [inversion Hin; subst; vm_compute; discriminate|]).
    destruct Hin.
  - intros b info c u Hin Hu.
    repeat (destruct Hin as [Hin|Hin];
            [inversion Hin; subst; vm_compute in Hu; try discriminate Hu;
             inversion Hu; subst;
             split; vm_compute; intros; discriminate|]).
    destruct Hin.
Defined.

(** ** What a run prints *)

Section Invariant.

Variable P : OutputManager.t -> Prop.
Hypothesis P_append :
  forall m r m', P m -> OutputManager.append m r = Ok m' -> P m'.

Lemma for_each_keeps {X : Type}
      (body : BranchMapper.t -> X -> option (result BranchMapper.t)) :
  (forall s x s',
      P (BranchMapper.output s) -> body s x = Some (Ok s') ->
      P (BranchMapper.output s')) ->
  forall xs s s',
    P (BranchMapper.output s) ->
    BranchMapper.for_each body xs s = Some (Ok s') ->
    P (BranchMapper.output s').
Proof.
  intros Hbody. induction xs as [|x xs IH]; intros s s' Hp H; simpl in H.
  - now inversion H; subst.
  - destruct (body s x) as [[s1|e]|] eqn:E; try discriminate.
    eauto.
Qed.

Lemma append_branch_keeps (git : git_common.t) (fuel : nat) :
  forall self b d self',
    P (BranchMapper.output self) ->
    BranchMapper.append_branch fuel git self b d = Some (Ok self') ->
    P (BranchMapper.output self').
Proof.
  induction fuel as [|fuel IH]; intros self b d self' Hp H; simpl in H;
    [discriminate|].
  destruct (BranchMapper.branch_line git self b d) as [line|e];
    [|discriminate].
  destruct (OutputManager.append (BranchMapper.output self) line)
    as [out|e] eqn:Ea; [|discriminate].
  apply (for_each_keeps _ (fun s x s' => IH s x (S d) s') _ _ _) in H;
    [exact H|].
  simpl. eauto.
Qed.

Lemma start_keeps (git : git_common.t) (fuel : nat)
      (self0 self : BranchMapper.t) :
  P (BranchMapper.output self0) ->
  BranchMapper.start fuel git self0 = Some (Ok self) ->
  P (BranchMapper.output self).
Proof.
  intros Hp H. unfold BranchMapper.start in H.
  destruct (BranchMapper.build git self0) as [[self' roots]|e] eqn:Eb;
    [|discriminate].
  destruct (build_frame _ _ _ _ Eb) as (_ & _ & Hout & _).
  rewrite <- Hout in Hp.
  destruct roots as [|c roots].
  - destruct (OutputManager.append (BranchMapper.output self') _)
      as [out|e] eqn:Ea; [|discriminate].
    inversion H; subst. simpl. eauto.
  - apply (for_each_keeps _
             (fun s x s' => append_branch_keeps git fuel s x 0 s') _ _ _)
      in H; assumption.
Qed.

End Invariant.

(** X9: [main] fails only where [start] fails: once [start] has returned,
    [as_formatted_string] returns the text to print, because every stored
    line has a width for each of its cells; an exception of [main] is an
    exception of [start]. *)
Theorem main_fails_only_in_start (fuel : nat) (git : git_common.t) (v : nat)
        (nocolor : bool) (jobs : option nat) (subject : bool) :
  (forall mapper,
      BranchMapper.start fuel git (BranchMapper.init v nocolor jobs subject)
      = Some (Ok mapper) ->
      exists text,
        BranchMapper.main fuel git v nocolor jobs subject = Some (Ok text))
  /\ (forall e,
         BranchMapper.main fuel git v nocolor jobs subject = Some (Raise e) ->
         BranchMapper.start fuel git
           (BranchMapper.init v nocolor jobs subject) = Some (Raise e)).
Proof.
  assert (Hfmt : forall mapper,
             BranchMapper.start fuel git
               (BranchMapper.init v nocolor jobs subject) = Some (Ok mapper) ->
             exists text,
               OutputManager.as_formatted_string (BranchMapper.output mapper)
               = Ok text).
  { intros mapper H. apply fits_formats.
    apply (start_keeps fits (fun m r m' => append_fits m m' r) git fuel
             (BranchMapper.init v nocolor jobs subject) mapper
             (fits_init nocolor) H). }
  unfold BranchMapper.main. split.
  - intros mapper H. rewrite H.
    destruct (Hfmt _ H) as [text Ht]. rewrite Ht. eauto.
  - intros e H.
    destruct (BranchMapper.start fuel git
                (BranchMapper.init v nocolor jobs subject))
      as [[mapper|e']|] eqn:Es; [|now inversion H|discriminate].
    destruct (Hfmt _ eq_refl) as [text Ht]. rewrite Ht in H. discriminate.
Qed.

(** ** Colors of a branch *)

(** X10: the color [__color_for_branch] returns is one of five foreground
    colors followed by a style; the style is bright exactly when the hash
    is not empty and starts the current hash; a green branch is never
    bright, and a cyan one is bright unless its hash is the empty
    string. *)
Theorem branch_color_style (self : BranchMapper.t) (branch : str)
        (branch_hash : option str) (color : str) :
  BranchMapper.color_for_branch self branch branch_hash = Ok color ->
  let bright :=
    match branch_hash with
    | Some (c :: h) => startswith (BranchMapper.current_hash self) (c :: h)
    | _ => false
    end in
  exists fore,
    In fore [Fore.RED; Fore.BLUE; Fore.MAGENTA; Fore.CYAN; Fore.GREEN]
    /\ color = fore ++ (if bright then Style.BRIGHT else Style.NORMAL)
    /\ (fore = Fore.GREEN -> bright = false)
    /\ (fore = Fore.CYAN -> bright = true \/ branch_hash = Some []).
Proof.
  intros H bright. unfold BranchMapper.color_for_branch in H.
  assert (Hstyle : forall fore,
             match branch_hash with
             | Some (c :: h) =>
                 if startswith (BranchMapper.current_hash self) (c :: h)
                 then Ok (fore ++ Style.BRIGHT)
                 else Ok (fore ++ Style.NORMAL)
             | _ => Ok (fore ++ Style.NORMAL)
             end = Ok color ->
             color = fore ++ (if bright then Style.BRIGHT else Style.NORMAL)).
  { intros fore Hf. subst bright.
    destruct branch_hash as [[|c h]|]; try (now inversion Hf).
    destruct (startswith (BranchMapper.current_hash self) (c :: h));
      now inversion Hf. }
  destruct (startswith branch (lit "origin")).
  { exists Fore.RED. apply (Hstyle Fore.RED) in H.
    repeat split; [simpl; tauto | exact H | |];
      intros Hc; vm_compute in Hc; discriminate Hc. }
  destruct (startswith branch (lit "branch-heads")).
  { exists Fore.BLUE. apply (Hstyle Fore.BLUE) in H.
    repeat split; [simpl; tauto | exact H | |];
      intros Hc; vm_compute in Hc; discriminate Hc. }
  destruct (BranchMapper.is_invalid_parent self branch
            || mem branch (BranchMapper.tag_set self)).
  { exists Fore.MAGENTA. apply (Hstyle Fore.MAGENTA) in H.
    repeat split; [simpl; tauto | exact H | |];
      intros Hc; vm_compute in Hc; discriminate Hc. }
  destruct branch_hash as [h|]; [|discriminate].
  destruct (startswith (BranchMapper.current_hash self) h) eqn:Es.
  - exists Fore.CYAN. apply (Hstyle Fore.CYAN) in H.
    repeat split; [simpl; tauto | exact H | |].
    + intros Hc; vm_compute in Hc; discriminate Hc.
    + intros _. subst bright. destruct h; [now right | now left].
  - exists Fore.GREEN. apply (Hstyle Fore.GREEN) in H.
    repeat split; [simpl; tauto | exact H | |].
    + intros _. subst bright. destruct h; [reflexivity | exact Es].
    + intros Hc; vm_compute in Hc; discriminate Hc.
Qed.

Lemma branch_color_style_witness :
  exists fore,
    In fore [Fore.RED; Fore.BLUE; Fore.MAGENTA; Fore.CYAN; Fore.GREEN]
    /\ Fore.CYAN ++ Style.BRIGHT
       = fore ++ (if startswith
                       (BranchMapper.current_hash
                          (Repo.state Repo.basic 0 true false))
                       (lit "abd")
                  then Style.BRIGHT else Style.NORMAL)
    /\ (fore = Fore.GREEN ->
        startswith
          (BranchMapper.current_hash (Repo.state Repo.basic 0 true false))
          (lit "abd") = false)
    /\ (fore = Fore.CYAN ->
        startswith
          (BranchMapper.current_hash (Repo.state Repo.basic 0 true false))
          (lit "abd") = true
        \/ Some (lit "abd") = Some []).
Proof.
  apply (branch_color_style (Repo.state Repo.basic 0 true false)
           (lit "other") (Some (lit "abd")) (Fore.CYAN ++ Style.BRIGHT)).
  by_vm.
Defined.

(** ** Review statuses *)

Lemma dict_get_dict_set {V : Type} (d : dict V) (k k' : str) (v : V) :
  dict_get (dict_set d k v) k'
  = if str_eqb k' k then Some v else dict_get d k'.
Proof.
  induction d as [|[k0 v0] d IH]; simpl.
  - destruct (str_eqb k' k); reflexivity.
  - destruct (str_eqb k k0) eqn:E0; simpl.
    + apply str_eqb_eq in E0. subst k0.
      destruct (str_eqb k' k); reflexivity.
    + rewrite IH. destruct (str_eqb k' k0) eqn:E1; [|reflexivity].
      apply str_eqb_eq in E1. subst k0.
      destruct (str_eqb k' k) eqn:E2; [|reflexivity].
      apply str_eqb_eq in E2. subst k'.
      rewrite str_eqb_refl in E0. discriminate.
Qed.

Lemma drain_statuses_Ok (f : str -> str) (n : nat) :
  forall it d d',
    BranchMapper.drain_statuses n it f d = Ok d' ->
    (n <= List.length it)%nat
    /\ forall b,
        dict_get d' b
        = match last_status f (firstn n it) b with
          | Some s => Some s
          | None => dict_get d b
          end.
Proof.
  induction n as [|n IH]; intros it d d' H; simpl in H.
  - inversion H; subst. split; [lia|]. intros b. reflexivity.
  - destruct it as [|[[branch url] status] it]; [discriminate|].
    destruct (IH _ _ _ H) as [Hlen Hget].
    split; [simpl; lia|].
    intros b. rewrite Hget. cbn [firstn last_status].
    destruct (last_status f (firstn n it) b); [reflexivity|].
    rewrite dict_get_dict_set. now destruct (str_eqb b branch).
Qed.

Lemma place_branches_status (git : git_common.t)
      (items : dict (option BranchesInfo.t)) :
  forall st st',
    BranchMapper.place_branches git st items = Ok st' ->
    BranchMapper.status_info (fst st') = BranchMapper.status_info (fst st).
Proof.
  induction items as [|item items IH]; intros st st' H; simpl in H.
  - now inversion H; subst.
  - bind_inv H. rewrite (IH _ _ H). clear H IH.
    unfold BranchMapper.place_branch in Hstep.
    destruct st as [self roots], item as [branch [info|]].
    + bind_inv Hstep. destruct x0 as [p|].
      * now inversion Hstep; subst.
      * destruct (str_true (git_common.upstream git branch));
          now inversion Hstep; subst.
    + now inversion Hstep; subst.
Qed.

(** X11: at verbosity 2 or more [start] reads as many review statuses as
    the listing has entries, and no more; the status it keeps for a
    branch is the URL and the color of the last result read that names
    the branch, and a branch that no result read names has none. *)
Theorem statuses_read (git : git_common.t) (v : nat) (nocolor : bool)
        (jobs : option nat) (subject : bool) (self : BranchMapper.t)
        (roots : list str) :
  let d := git_common.get_branches_info git (1 <=? v)%nat in
  let results := git_common.get_cl_statuses git (keys d) (2 <? v)%nat jobs in
  (2 <= v)%nat ->
  BranchMapper.build git (BranchMapper.init v nocolor jobs subject)
  = Ok (self, roots) ->
  (List.length d <= List.length results)%nat
  /\ forall b,
      dict_get (BranchMapper.status_info self) b
      = last_status (git_common.color_for_status git)
          (firstn (List.length d) results) b.
Proof.
  intros d results Hv Hb. unfold BranchMapper.build in Hb.
  cbn -[Nat.leb Nat.ltb] in Hb. fold d in Hb.
  apply Nat.leb_le in Hv. rewrite Hv in Hb.
  change (git_common.get_cl_statuses git (map fst d) (2 <? v)%nat jobs)
    with results in Hb.
  destruct (BranchMapper.drain_statuses (List.length d) results
              (git_common.color_for_status git) []) as [sd|e] eqn:Ed;
    [|discriminate].
  cbn -[Nat.leb Nat.ltb] in Hb.
  match type of Hb with
  | bind ?r _ = _ =>
      destruct r as [[s1 r1]|e] eqn:Ep; cbn [bind] in Hb; [|discriminate]
  end.
  match type of Hb with
  | context [git_common.hash_one git ?h] =>
      destruct (git_common.hash_one git h); [|discriminate]
  end.
  inversion Hb; subst self roots. clear Hb.
  apply place_branches_status in Ep. simpl in Ep.
  destruct (drain_statuses_Ok _ _ _ _ _ Ed) as [Hlen Hget].
  split; [exact Hlen|].
  intros b. simpl. rewrite Ep, Hget.
  destruct (last_status _ _ b); reflexivity.
Qed.

Lemma statuses_read_witness :
  dict_get (BranchMapper.status_info (Repo.state Repo.basic 2 true false))
           (lit "other")
  = last_status (git_common.color_for_status Repo.basic)
      (firstn
         (List.length (git_common.get_branches_info Repo.basic (1 <=? 2)%nat))
         (git_common.get_cl_statuses Repo.basic
            (keys (git_common.get_branches_info Repo.basic (1 <=? 2)%nat))
            (2 <? 2)%nat None))
      (lit "other").
Proof.
  exact (proj2 (statuses_read Repo.basic 2 true None false
                  (Repo.state Repo.basic 2 true false)
                  [lit "origin/master"; lit "missing"]
                  ltac:(lia) ltac:(by_vm))
           (lit "other")).
Defined.

(** ** The order of the rows *)

Lemma str_leb_total (a b : str) : str_leb a b = false -> str_leb b a = true.
Proof.
  revert b. induction a as [|x a IH]; intros [|y b]; simpl;
    try discriminate; try reflexivity.
  destruct (nat_of_ascii x <? nat_of_ascii y)%nat eqn:E1; [discriminate|].
  destruct (nat_of_ascii y <? nat_of_ascii x)%nat eqn:E2; [reflexivity|].
  apply IH.
Qed.

Lemma insert_sorted_ascending (x : str) (l : list str) :
  ascending l = true -> ascending (insert_sorted x l) = true.
Proof.
  induction l as [|y l IH]; intros Hl; [reflexivity|].
  cbn [insert_sorted]. destruct (str_leb x y) eqn:E.
  - cbn [ascending]. rewrite E. exact Hl.
  - apply str_leb_total in E.
    assert (Hl' : ascending l = true).
    { cbn [ascending] in Hl. destruct l; [reflexivity|].
      now apply andb_true_iff in Hl. }
    specialize (IH Hl').
    destruct l as [|z l].
    + cbn [insert_sorted ascending]. now rewrite E.
    + cbn [insert_sorted] in *. cbn [ascending] in Hl.
      apply andb_true_iff in Hl. destruct Hl as [Hyz _].
      destruct (str_leb x z).
      * cbn [ascending] in *. now rewrite E, IH.
      * change (ascending (y :: z :: insert_sorted x l))
          with (str_leb y z && ascending (z :: insert_sorted x l)).
        now rewrite Hyz, IH.
Qed.

Lemma sorted_ascending (l : list str) : ascending (sorted l) = true.
Proof.
  induction l as [|x l IH]; [reflexivity|].
  cbn [sorted]. now apply insert_sorted_ascending.
Qed.

Lemma dict_get_dict_remove {V : Type} (d : dict V) (k k' : str) :
  dict_get (dict_remove d k) k'
  = if str_eqb k' k then None else dict_get d k'.
Proof.
  unfold dict_remove. induction d as [|[k0 v0] d IH]; simpl.
  - now destruct (str_eqb k' k).
  - destruct (str_eqb k k0) eqn:E0; simpl.
    + apply str_eqb_eq in E0. subst k0. rewrite IH.
      now destruct (str_eqb k' k).
    + rewrite IH. destruct (str_eqb k' k0) eqn:E1; [|reflexivity].
      apply str_eqb_eq in E1. subst k0.
      destruct (str_eqb k' k) eqn:E2; [|reflexivity].
      apply str_eqb_eq in E2. subst k'.
      rewrite str_eqb_refl in E0. discriminate.
Qed.

Lemma flat_map_ext_In {A B : Type} (f g : A -> list B) (l : list A) :
  (forall a, In a l -> f a = g a) -> flat_map f l = flat_map g l.
Proof.
  induction l as [|a l IH]; intros H; simpl; [reflexivity|].
  rewrite (H a (or_introl eq_refl)), IH; [reflexivity|].
  intros a' Ha'. apply H. now right.
Qed.

(** The pre-order reads the map only at the names it visits. *)
Lemma preorder_agree (pmA pmB : dict (list str)) (fuel : nat) :
  forall c d,
    (forall k, In k (map fst (preorder fuel pmA c d)) ->
               dict_get pmB k = dict_get pmA k) ->
    preorder fuel pmB c d = preorder fuel pmA c d.
Proof.
  induction fuel as [|fuel IH]; intros c d H; [reflexivity|].
  cbn [preorder] in *.
  assert (Hc : children_of pmB c = children_of pmA c).
  { unfold children_of. rewrite (H c); [reflexivity|]. now left. }
  rewrite Hc. f_equal. apply flat_map_ext_In. intros a Ha.
  apply IH. intros k Hk. apply H. simpl. right.
  apply in_map_iff in Hk. destruct Hk as (x & Hx & Hin).
  apply in_map_iff. exists x. split; [exact Hx|].
  apply in_flat_map. exists a. split; assumption.
Qed.

Lemma mem_app (k : str) (a b : list str) :
  mem k (a ++ b) = mem k a || mem k b.
Proof. unfold mem. apply existsb_app. Qed.

Lemma mem_false (k : str) (l : list str) : ~ In k l -> mem k l = false.
Proof.
  intros H. destruct (mem k l) eqn:E; [|reflexivity].
  apply mem_In in E. contradiction.
Qed.

(** A walk leaves the map as it was, less the lists of the names it
    visited. *)
Lemma walk_each_lookup
      (wbody : dict (list str) -> str ->
               option (list (str * nat) * dict (list str))) :
  (forall pm c vs pm',
      wbody pm c = Some (vs, pm') ->
      forall k, dict_get pm' k
                = if mem k (map fst vs) then None else dict_get pm k) ->
  forall cs pm vs pm',
    walk_each wbody cs pm = Some (vs, pm') ->
    forall k, dict_get pm' k
              = if mem k (map fst vs) then None else dict_get pm k.
Proof.
  intros Hbody. induction cs as [|c cs IH]; intros pm vs pm' H k;
    simpl in H.
  - now inversion H; subst.
  - destruct (wbody pm c) as [[vs1 pm1]|] eqn:E1; [|discriminate].
    destruct (walk_each wbody cs pm1) as [[vs2 pm2]|] eqn:E2; [|discriminate].
    inversion H; subst; clear H.
    rewrite (IH _ _ _ E2 k), (Hbody _ _ _ _ E1 k), map_app, mem_app.
    destruct (mem k (map fst vs1)), (mem k (map fst vs2)); reflexivity.
Qed.

Lemma walk_lookup (fuel : nat) :
  forall pm b d vs pm',
    walk fuel pm b d = Some (vs, pm') ->
    forall k, dict_get pm' k
              = if mem k (map fst vs) then None else dict_get pm k.
Proof.
  induction fuel as [|fuel IH]; intros pm b d vs pm' H k; simpl in H;
    [discriminate|].
  destruct (walk_each (fun pm child => walk fuel pm child (S d))
              (sorted (match dict_get pm b with
                       | Some v => v | None => [] end))
              (dict_remove pm b)) as [[vs0 pm0]|] eqn:E; [|discriminate].
  inversion H; subst; clear H.
  rewrite (walk_each_lookup _ (fun pm c vs pm' => IH pm c (S d) vs pm')
             _ _ _ _ E k).
  rewrite dict_get_dict_remove. cbn [map fst mem existsb]. unfold mem.
  cbn [existsb]. destruct (str_eqb k b); simpl.
  - now destruct (existsb (str_eqb k) (map fst vs0)).
  - reflexivity.
Qed.

Lemma NoDup_app_parts {A : Type} (l1 l2 : list A) :
  NoDup (l1 ++ l2) ->
  NoDup l1 /\ NoDup l2 /\ forall x, In x l2 -> ~ In x l1.
Proof.
  induction l1 as [|a l1 IH]; simpl; intros H.
  - repeat split; [constructor | exact H | tauto].
  - inversion H as [|? ? Ha Hnd]; subst.
    destruct (IH Hnd) as (N1 & N2 & D).
    repeat split; [|exact N2|].
    + constructor; [|exact N1]. intros Hin. apply Ha.
      apply in_app_iff. now left.
    + intros x Hx [->|Hin].
      * apply Ha. apply in_app_iff. now right.
      * exact (D x Hx Hin).
Qed.

(** A walk that visits no name twice follows the pre-order of the map it
    started from. *)
Lemma walk_each_preorder (pm : dict (list str)) (fuel depth : nat) :
  (forall pmc c vs pm',
      walk fuel pmc c depth = Some (vs, pm') ->
      NoDup (map fst vs) -> vs = preorder fuel pmc c depth) ->
  forall cs pmc vs pm',
    walk_each (fun pm c => walk fuel pm c depth) cs pmc = Some (vs, pm') ->
    NoDup (map fst vs) ->
    (forall k, In k (map fst vs) -> dict_get pmc k = dict_get pm k) ->
    vs = flat_map (fun c => preorder fuel pm c depth) cs.
Proof.
  intros Hbody. induction cs as [|c cs IH]; intros pmc vs pm' H Hnd Hagree;
    simpl in H.
  - now inversion H; subst.
  - destruct (walk fuel pmc c depth) as [[vs1 pm1]|] eqn:E1; [|discriminate].
    destruct (walk_each (fun pm c => walk fuel pm c depth) cs pm1)
      as [[vs2 pm2]|] eqn:E2; [|discriminate].
    inversion H; subst; clear H.
    rewrite map_app in Hnd, Hagree.
    destruct (NoDup_app_parts _ _ Hnd) as (N1 & N2 & D).
    pose proof (Hbody _ _ _ _ E1 N1) as H1.
    simpl. f_equal.
    + rewrite H1. symmetry. apply preorder_agree.
      rewrite <- H1. intros k Hk. symmetry. apply Hagree.
      apply in_app_iff. now left.
    + apply (IH _ _ _ E2 N2). intros k Hk.
      rewrite (walk_lookup _ _ _ _ _ _ E1 k).
      rewrite (mem_false _ _ (D k Hk)).
      apply Hagree. apply in_app_iff. now right.
Qed.

Lemma walk_preorder (fuel : nat) :
  forall pm b d vs pm',
    walk fuel pm b d = Some (vs, pm') ->
    NoDup (map fst vs) -> vs = preorder fuel pm b d.
Proof.
  induction fuel as [|fuel IH]; intros pm b d vs pm' H Hnd; simpl in H;
    [discriminate|].
  destruct (walk_each (fun pm child => walk fuel pm child (S d))
              (sorted (match dict_get pm b with
                       | Some v => v | None => [] end))
              (dict_remove pm b)) as [[vs0 pm0]|] eqn:E; [|discriminate].
  inversion H; subst; clear H.
  cbn [preorder]. f_equal. simpl in Hnd.
  inversion Hnd as [|? ? Hb Hnd0]; subst.
  apply (walk_each_preorder pm fuel (S d)
           (fun pmc c vs pm' => IH pmc c (S d) vs pm') _ _ _ _ E Hnd0).
  intros k Hk. rewrite dict_get_dict_remove.
  destruct (str_eqb k b) eqn:Ek; [|reflexivity].
  apply str_eqb_eq in Ek. subst k. contradiction.
Qed.

(** The rows of a run over a forest, and the walk that produced them. *)
Lemma start_preorder (fuel : nat) (git : git_common.t) (v : nat)
      (nocolor : bool) (jobs : option nat) (subject : bool)
      (self' self : BranchMapper.t) (c : str) (roots : list str) :
  let d := git_common.get_branches_info git (1 <=? v)%nat in
  let visits :=
    flat_map (fun r => preorder fuel (BranchMapper.parent_map self') r 0)
             (sorted (c :: roots)) in
  NoDup (keys d) ->
  (forall b info,
      In (b, Some info) d ->
      is_local d (BranchesInfo.upstream info) = false ->
      is_local d (parent_of git d b info) = false) ->
  BranchMapper.build git (BranchMapper.init v nocolor jobs subject)
  = Ok (self', c :: roots) ->
  BranchMapper.start fuel git (BranchMapper.init v nocolor jobs subject)
  = Some (Ok self) ->
  rows_of git self' visits (OutputManager.lines (BranchMapper.output self))
  /\ topology git d d (self', c :: roots)
  /\ walked (sorted (c :: roots)) (BranchMapper.parent_map self')
            (visits, BranchMapper.parent_map self).
Proof.
  intros d vs0 Hkeys Hext Hb Hstart. subst vs0.
  set (self0 := BranchMapper.init v nocolor jobs subject) in *.
  pose proof (build_topology git self0 self' _ eq_refl Hb) as T.
  change (git_common.get_branches_info git
            (1 <=? BranchMapper.verbosity self0)%nat) with d in T.
  destruct (build_frame _ _ _ _ Hb) as (_ & _ & Hout & _).
  assert (Ht : tidy (width self') (BranchMapper.output self'))
    by (rewrite Hout; apply tidy_init).
  pose proof (start_simulates _ _ _ _ _ _ _ Hb Ht Hstart) as Hsim.
  unfold simulates in Hsim.
  destruct Hsim as (_ & _ & visits & rows & Hwalk & Hlines & Hrows).
  rewrite Hout in Hlines. simpl in Hlines.
  assert (Hw : walked (sorted (c :: roots)) (BranchMapper.parent_map self')
                      (visits, BranchMapper.parent_map self)).
  { eapply (walked_each (fun pm root => walk fuel pm root 0));
      [| apply T | exact Hwalk].
    intros pm r res Hn Hr. eapply walked_walk; eauto. }
  pose proof (visits_NoDup git d self' _ _ _ Hkeys T Hw Hext) as Hnd.
  rewrite <- (walk_each_preorder (BranchMapper.parent_map self') fuel 0
                (fun pmc r vs pm' => walk_preorder fuel pmc r 0 vs pm')
                _ _ _ _ Hwalk Hnd (fun k _ => eq_refl)).
  rewrite Hlines. auto.
Qed.

(** X12: when no listed branch is filed under a local branch by an
    upstream that git resolves, the rows [start] appends are the rows of
    the forest in pre-order: the roots in ascending order at depth 0, and
    below each branch the branches filed under it, in ascending order and
    one level deeper, each followed by its own subtree. *)
Theorem rows_in_preorder (fuel : nat) (git : git_common.t) (v : nat)
        (nocolor : bool) (jobs : option nat) (subject : bool)
        (self' self : BranchMapper.t) (c : str) (roots : list str) :
  let d := git_common.get_branches_info git (1 <=? v)%nat in
  NoDup (keys d) ->
  (forall b info,
      In (b, Some info) d ->
      is_local d (BranchesInfo.upstream info) = false ->
      is_local d (parent_of git d b info) = false) ->
  BranchMapper.build git (BranchMapper.init v nocolor jobs subject)
  = Ok (self', c :: roots) ->
  BranchMapper.start fuel git (BranchMapper.init v nocolor jobs subject)
  = Some (Ok self) ->
  rows_of git self'
    (flat_map (fun r => preorder fuel (BranchMapper.parent_map self') r 0)
              (sorted (c :: roots)))
    (OutputManager.lines (BranchMapper.output self))
  /\ ascending (sorted (c :: roots)) = true
  /\ forall b,
      ascending (sorted (children_of (BranchMapper.parent_map self') b))
      = true.
Proof.
  intros d Hkeys Hext Hb Hstart.
  destruct (start_preorder fuel git v nocolor jobs subject self' self c roots
              Hkeys Hext Hb Hstart) as (Hrows & _).
  split; [exact Hrows|].
  split; [apply sorted_ascending | intros b; apply sorted_ascending].
Qed.

Lemma rows_in_preorder_witness :
  rows_of Repo.basic (Repo.state Repo.basic 0 true false)
    (flat_map
       (fun r =>
          preorder 6
            (BranchMapper.parent_map (Repo.state Repo.basic 0 true false))
            r 0)
       (sorted [lit "origin/master"; lit "missing"]))
    (OutputManager.lines
       (BranchMapper.output (Repo.final 6 Repo.basic 0 true false))).
Proof.
  exact (proj1 (rows_in_preorder 6 Repo.basic 0 true None false
                  (Repo.state Repo.basic 0 true false)
                  (Repo.final 6 Repo.basic 0 true false)
                  (lit "origin/master") [lit "missing"]
                  ltac:(apply distinct_NoDup; by_vm)
                  (roots_external_spec Repo.basic
                     (git_common.get_branches_info Repo.basic (1 <=? 0)%nat)
                     ltac:(by_vm))
                  ltac:(by_vm) ltac:(by_vm))).
Defined.

(** X13: when every local branch leads, parent by parent, to a name that
    is not a local branch, the names of the rows are the roots and the
    local branches, each once: the run appends as many rows as there are
    roots and local branches. *)
Theorem rows_are_roots_and_branches (fuel : nat) (git : git_common.t)
        (v : nat) (nocolor : bool) (jobs : option nat) (subject : bool)
        (self' self : BranchMapper.t) (c : str) (roots : list str) :
  let d := git_common.get_branches_info git (1 <=? v)%nat in
  let visits :=
    flat_map (fun r => preorder fuel (BranchMapper.parent_map self') r 0)
             (sorted (c :: roots)) in
  NoDup (keys d) ->
  (forall b, In b (local_branches d) -> exists n, anchored git d n b = true) ->
  (forall b info,
      In (b, Some info) d ->
      is_local d (BranchesInfo.upstream info) = false ->
      is_local d (parent_of git d b info) = false) ->
  BranchMapper.build git (BranchMapper.init v nocolor jobs subject)
  = Ok (self', c :: roots) ->
  BranchMapper.start fuel git (BranchMapper.init v nocolor jobs subject)
  = Some (Ok self) ->
  Permutation (map fst visits) ((c :: roots) ++ local_branches d)
  /\ List.length (OutputManager.lines (BranchMapper.output self))
     = (List.length (c :: roots) + List.length (local_branches d))%nat.
Proof.
  intros d visits Hkeys Hanch Hext Hb Hstart.
  destruct (start_preorder fuel git v nocolor jobs subject self' self c roots
              Hkeys Hext Hb Hstart) as (Hrows & T & Hw).
  fold d in T. fold visits in Hrows, Hw.
  assert (Hvisited : forall p,
             In p (c :: roots) \/ In p (local_branches d) ->
             In p (map fst visits)).
  { intros p [Hp|Hp].
    - exact (root_visited git d self' _ _ _ Hkeys T Hw Hext p Hp).
    - destruct (Hanch p Hp) as [n Hn].
      exact (anchored_visited git d self' _ _ _ Hkeys T Hw Hext n p Hn Hp). }
  assert (Hrest : all_children (BranchMapper.parent_map self) = []).
  { destruct (all_children (BranchMapper.parent_map self)) as [|b l] eqn:E;
      [reflexivity|].
    exfalso.
    assert (Hin : In b (all_children (BranchMapper.parent_map self)))
      by (rewrite E; now left).
    apply In_all_children in Hin. destruct Hin as (p & lp & Hpl & Hbl).
    destruct Hw as (_ & Hincl & _ & Hkeep). simpl in Hincl, Hkeep.
    destruct T as (_ & _ & C & _ & _ & R2). simpl in C, R2.
    destruct (C p lp b (Hincl _ Hpl) Hbl) as (info & Hinfo & Hp).
    apply (Hkeep p).
    - apply Hvisited.
      destruct (is_local d (BranchesInfo.upstream info)) eqn:El.
      + right. apply is_local_In; [exact Hkeys|].
        unfold parent_of in Hp. rewrite El in Hp. now rewrite <- Hp.
      + left. rewrite <- Hp. now apply R2.
    - apply in_map_iff. exists (p, lp). auto. }
  assert (Hperm : Permutation (map fst visits)
                              ((c :: roots) ++ local_branches d)).
  { destruct Hw as (_ & _ & P & _). cbn [fst snd] in P. rewrite Hrest in P.
    cbn [app] in P. symmetry. etransitivity; [|exact P].
    apply Permutation_app.
    - symmetry. apply sorted_perm.
    - destruct T as (_ & Pc & _). simpl in Pc. now symmetry. }
  split; [exact Hperm|].
  rewrite <- (Forall2_length Hrows), <- length_app.
  rewrite <- (Permutation_length Hperm). now rewrite length_map.
Qed.

Lemma rows_are_roots_and_branches_witness :
  List.length
    (OutputManager.lines
       (BranchMapper.output (Repo.final 6 Repo.basic 0 true false)))
  = (List.length [lit "origin/master"; lit "missing"]
     + List.length
         (local_branches
            (git_common.get_branches_info Repo.basic (1 <=? 0)%nat)))%nat.
Proof.
  exact (proj2 (rows_are_roots_and_branches 6 Repo.basic 0 true None false
                  (Repo.state Repo.basic 0 true false)
                  (Repo.final 6 Repo.basic 0 true false)
                  (lit "origin/master") [lit "missing"]
                  ltac:(apply distinct_NoDup; by_vm)
                  (anchored_all Repo.basic
                     (git_common.get_branches_info Repo.basic (1 <=? 0)%nat)
                     3 ltac:(by_vm))
                  (roots_external_spec Repo.basic
                     (git_common.get_branches_info Repo.basic (1 <=? 0)%nat)
                     ltac:(by_vm))
                  ltac:(by_vm) ltac:(by_vm))).
Defined.

(** ** The parts of a row *)

Lemma balanced_init : balanced OutputLine.init.
Proof. split; reflexivity. Qed.

Lemma balanced_append (r : OutputLine.t) (data separator color : str) :
  balanced r -> balanced (OutputLine.append r data separator color).
Proof.
  intros [Hs Hc]. unfold balanced, OutputLine.append. simpl.
  rewrite !length_app. simpl. lia.
Qed.

Lemma balanced_stored (nocolor : bool) (r : OutputLine.t) :
  balanced r -> balanced (stored nocolor r).
Proof.
  intros [Hs Hc]. unfold stored. destruct nocolor; [|now split].
  split; simpl; [exact Hs | apply repeat_length].
Qed.

Lemma branch_line_balanced (git : git_common.t) (self : BranchMapper.t)
      (branch : str) (depth : nat) (line : OutputLine.t) :
  BranchMapper.branch_line git self branch depth = Ok line -> balanced line.
Proof.
  unfold BranchMapper.branch_line. intros H.
  bind_inv H. bind_inv H. bind_inv H.
  assert (Hx1 : balanced x1).
  { destruct (BranchMapper.tracking_status self x) as [[[[f a] c] b] k].
    destruct (2 <=? BranchMapper.verbosity self)%nat,
             (1 <=? BranchMapper.verbosity self)%nat.
    - bind_inv Hstep1. destruct x2 as [url color].
      inversion Hstep1; subst.
      repeat apply balanced_append. apply balanced_init.
    - bind_inv Hstep1. destruct x2 as [url color].
      inversion Hstep1; subst.
      repeat apply balanced_append. apply balanced_init.
    - inversion Hstep1; subst.
      repeat apply balanced_append. apply balanced_init.
    - inversion Hstep1; subst.
      repeat apply balanced_append. apply balanced_init. }
  destruct (BranchMapper.show_subject self).
  - destruct (git_common.run_log git branch); [|discriminate].
    inversion H; subst. now apply balanced_append.
  - now inversion H; subst.
Qed.

Lemma rows_of_balanced (git : git_common.t) (self : BranchMapper.t)
      (visits : list (str * nat)) (lines : list OutputLine.t) :
  rows_of git self visits lines -> Forall balanced lines.
Proof.
  unfold rows_of. induction 1 as [|v l vs ls (line & Hl & ->) _ IH];
    constructor; [|exact IH].
  apply balanced_stored. eapply branch_line_balanced; eauto.
Qed.

(** X14: every line [start] leaves in the OutputManager has as many
    separators and as many colors as columns, with or without colors, so
    the zip of [as_padded_string] drops no cell. *)
Theorem output_lines_balanced (fuel : nat) (git : git_common.t) (v : nat)
        (nocolor : bool) (jobs : option nat) (subject : bool)
        (self : BranchMapper.t) :
  BranchMapper.start fuel git (BranchMapper.init v nocolor jobs subject)
  = Some (Ok self) ->
  Forall (fun l =>
            balanced l
            /\ List.length (cells l) = List.length (OutputLine.columns l))
         (OutputManager.lines (BranchMapper.output self)).
Proof.
  intros Hstart.
  assert (Hb : Forall balanced (OutputManager.lines (BranchMapper.output self))).
  { set (self0 := BranchMapper.init v nocolor jobs subject) in *.
    destruct (start_Ok_build _ _ _ _ Hstart) as (self' & roots & Hb).
    destruct (build_frame _ _ _ _ Hb) as (_ & _ & Hout & _).
    assert (Ht : forall n, tidy n (BranchMapper.output self'))
      by (intros n; rewrite Hout; apply tidy_init).
    destruct roots as [|c roots].
    - rewrite (start_sentinel _ _ _ _ Hb) in Hstart.
      destruct (append_tidy 1 (BranchMapper.output self') sentinel_row
                  ltac:(lia) (Ht 1%nat) eq_refl)
        as (o' & Ho' & _ & _ & Hl).
      rewrite Ho' in Hstart. inversion Hstart; subst self. simpl.
      rewrite Hl, Hout. simpl. constructor; [|constructor].
      apply balanced_stored. unfold sentinel_row.
      apply balanced_append, balanced_init.
    - pose proof (start_simulates _ _ _ _ _ _ _ Hb (Ht _) Hstart) as Hsim.
      unfold simulates in Hsim.
      destruct Hsim as (_ & _ & visits & rows & _ & Hlines & Hrows).
      rewrite Hout in Hlines. simpl in Hlines. rewrite Hlines.
      exact (rows_of_balanced _ _ _ _ Hrows). }
  eapply Forall_impl; [|exact Hb].
  intros l [Hs Hc]. split; [now split|].
  unfold cells. rewrite !length_combine. lia.
Qed.

Lemma output_lines_balanced_witness :
  Forall (fun l =>
            balanced l
            /\ List.length (cells l) = List.length (OutputLine.columns l))
         (OutputManager.lines
            (BranchMapper.output (Repo.final 6 Repo.basic 2 false false))).
Proof.
  apply (output_lines_balanced 6 Repo.basic 2 false None false). by_vm.
Defined.

(** ** Termination *)

(** X15: [main] terminates on every repository, also when the upstreams
    form a cycle or a branch is rendered twice: a number of nested calls
    of [__append_branch] above the number of entries of the listing is
    enough for it to print its text or to raise. *)
Theorem main_terminates (fuel : nat) (git : git_common.t) (v : nat)
        (nocolor : bool) (jobs : option nat) (subject : bool) :
  (List.length (git_common.get_branches_info git (1 <=? v)%nat) < fuel)%nat ->
  exists r, BranchMapper.main fuel git v nocolor jobs subject = Some r.
Proof.
  intros Hfuel. unfold BranchMapper.main.
  destruct (start_total fuel git v nocolor jobs subject Hfuel) as [r Hr].
  rewrite Hr. destruct r; eauto.
Qed.

Lemma main_terminates_witness :
  exists r, BranchMapper.main 3 Repo.cycle 0 true None false = Some r.
Proof.
  apply (main_terminates 3 Repo.cycle 0 true None false). by_vm.
Defined.
